(** * go-wsserver: the session manager and its debug overlay

    A shallow embedding of [package wsserver] (the connection registry, the
    handshake hooks, the read/heartbeat loop, the recovering callback
    wrappers, [WriteMessage] and [CloseConnection]) and of
    [package debugger] (the two decorators [Debugger] and [extHandlers]),
    with the properties stated for them.

    Go code is embedded as state-passing functions in a state-and-panic
    monad.  Every call that leaves the package (an application callback, a
    transport write or close, a logger call, a [go] statement, a store into
    or a delete from the registry map) appends one [event] to a
    chronological trace, so that "is called once", "first" and "before" are
    statements about that trace. *)

From Stdlib Require Import Strings.String Strings.Ascii Strings.Byte NArith ZArith List Bool Lia.
From stdpp Require Import base gmap strings list.

Local Open Scope string_scope.
Local Open Scope list_scope.

(** ** Go values *)

(** [uint]: identities are only compared and used as map keys, never
    computed with, so the width of the machine word plays no role. *)
Abbreviation uint := N (only parsing).

(** A [net.Conn] interface value.  The code compares two of them with [!=],
    which is identity of the underlying connection object: a connection is
    modelled by its identity. *)
Abbreviation Conn := nat (only parsing).

(** [[]byte] *)
Abbreviation bytes := (list byte) (only parsing).

(** [ws.OpCode] is a byte; the constants are those of RFC 6455. *)
Abbreviation OpCode := N (only parsing).
Definition OpContinuation : OpCode := 0x0%N.
Definition OpText : OpCode := 0x1%N.
Definition OpBinary : OpCode := 0x2%N.
Definition OpClose : OpCode := 0x8%N.
Definition OpPing : OpCode := 0x9%N.
Definition OpPong : OpCode := 0xa%N.

(** [time.Duration] counts nanoseconds. *)
Definition Second : Z := 1000000000%Z.
Definition TimeoutPing : Z := (30 * Second)%Z.
Definition TimeoutClose : Z := (15 * Second)%Z.

Definition LoggerDefaultPrefix : string := "[WS]".
Definition AuthTokenKey : string := "token".

(** The package's error values, and [ErrOther] for every error that comes
    from outside it (transport, parser). *)
Inductive error : Type :=
| ErrEmptyConfig
| ErrBadAuthHeader
| ErrAuthFailed
| ErrNotAuth
| ErrConnNotFound
| ErrOther (detail : string).

Definition Error (e : error) : string :=
  match e with
  | ErrEmptyConfig => "Empty config"
  | ErrBadAuthHeader => "Bad Authorization header"
  | ErrAuthFailed => "Bad token"
  | ErrNotAuth => "Token not found"
  | ErrConnNotFound => "Connection not found"
  | ErrOther d => d
  end.

#[global] Instance error_eq_dec : EqDecision error.
Proof. solve_decision. Defined.

(** ** The state-and-panic monad *)

(** A Go call either returns or panics with a value [r]; the state reached
    so far is kept in both cases. *)
Inductive outcome (A : Type) : Type :=
| Ok (a : A)
| Fault (r : string).
Arguments Ok {A} a.
Arguments Fault {A} r.

Definition M (St A : Type) : Type := St -> outcome A * St.

Definition ret {St A} (a : A) : M St A := fun s => (Ok a, s).

Definition bind {St A B} (m : M St A) (k : A -> M St B) : M St B :=
  fun s => match m s with
           | (Ok a, s') => k a s'
           | (Fault r, s') => (Fault r, s')
           end.

Definition gets {St A} (f : St -> A) : M St A := fun s => (Ok (f s), s).

Definition modify {St} (f : St -> St) : M St unit := fun s => (Ok tt, f s).

Definition panic {St A} (r : string) : M St A := fun s => (Fault r, s).

(** [defer func() { if r := recover(); r != nil { ... } }()] around a body
    that consists of one [return] statement.  When the body panics the named
    results still hold [zero], their zero values, and the deferred closure
    runs on them; what it leaves there is what the function returns. *)
Definition with_recover {St A} (zero : A) (body : M St A)
    (deferred : string -> A -> M St A) : M St A :=
  fun s => match body s with
           | (Ok a, s') => (Ok a, s')
           | (Fault r, s') => deferred r zero s'
           end.

(** The state a computation ends in, and its result. *)
Definition exec {St A} (m : M St A) (s : St) : St := snd (m s).
Definition result {St A} (m : M St A) (s : St) : outcome A := fst (m s).

Declare Scope go_scope.
Delimit Scope go_scope with go.
Notation "x <- c1 ;; c2" := (bind c1 (fun x => c2))
  (at level 100, c1 at next level, right associativity) : go_scope.
Notation "c1 ;; c2" := (bind c1 (fun _ => c2))
  (at level 100, right associativity) : go_scope.
Local Open Scope go_scope.

(** ** Strings *)

(** [strings.HasPrefix(s, prefix)] *)
Definition HasPrefix (s pre : string) : bool := String.prefix pre s.

(** [strings.SplitN(s, sep, n)] for a non-empty [sep] and [n >= 0]: at most
    [n] pieces, the last one the unsplit remainder. *)
Fixpoint SplitN (s sep : string) (n : nat) : list string :=
  match n with
  | O => []
  | S O => [s]
  | S n' =>
      match String.index 0 sep s with
      | Some m =>
          String.substring 0 m s
            :: SplitN (String.substring (m + String.length sep)
                         (String.length s - (m + String.length sep)) s) sep n'
      | None => [s]
      end
  end.

(** [s[i]] on a slice: an index out of range panics. *)
Definition index_or_panic {St A} (l : list A) (i : nat) : M St A :=
  match l !! i with
  | Some a => ret a
  | None => panic "index out of range"
  end.

(** [sync.WaitGroup]: its counter.  [Done] on a counter that is already zero
    panics. *)
Abbreviation WaitGroup := Z (only parsing).
Definition wg_Add (delta : Z) (wg : WaitGroup) : WaitGroup := (wg + delta)%Z.
Definition wg_Done {St} (wg : WaitGroup) : M St WaitGroup :=
  if decide (wg - 1 < 0)%Z then panic "sync: negative WaitGroup counter"
  else ret (wg - 1)%Z.

(** ** The world of one server *)

(** The application callbacks of the [Handlers] interface, as they occur in
    a trace. *)
Inductive callback : Type :=
| CbOnAuth (token : string)
| CbOnOnline (id : uint)
| CbOnText (id : uint) (msg : bytes)
| CbOnSend (id : uint) (msg : bytes)
| CbOnOffline (id : uint).

(** What a [go] statement of the package starts. *)
Inductive task : Type :=
| GoOnOnlineWrapper (id : uint)
| GoOnTextWrapper (id : uint) (msg : bytes)
| GoOnOfflineWrapper (id : uint)
| GoReadMessage (conn : Conn)
| GoWriteServerMessage (conn : Conn) (op : OpCode) (payload : bytes).

(** The operands of a logger call. *)
Inductive logarg : Type :=
| AUint (n : uint)
| AOp (op : OpCode)
| AErr (e : error)
| AStr (s : string)
| AConn (conn : Conn)
| ARecovered (r : string).

Inductive event : Type :=
| EvCall (cb : callback)
| EvWrite (conn : Conn) (op : OpCode) (payload : bytes)
| EvClose (conn : Conn)
| EvPrint (args : list logarg)
| EvPrintf (format : string) (args : list logarg)
| EvGo (t : task)
| EvStore (id : uint) (conn : Conn)
| EvDelete (id : uint).

#[global] Instance byte_eq_dec : EqDecision byte := Byte.byte_eq_dec.
#[global] Instance callback_eq_dec : EqDecision callback.
Proof. solve_decision. Defined.
#[global] Instance task_eq_dec : EqDecision task.
Proof. solve_decision. Defined.
#[global] Instance logarg_eq_dec : EqDecision logarg.
Proof. solve_decision. Defined.
#[global] Instance event_eq_dec : EqDecision event.
Proof. solve_decision. Defined.

(** The [Handlers] interface over an application state [App].  A callback
    runs on the application state and returns or panics.
    ([SetConnCtrlr] is called once by [Start] and plays no role below.) *)
Record Handlers (App : Type) : Type := {
  OnAuth : string -> App -> outcome (uint * bool) * App;
  OnOnline : uint -> App -> outcome unit * App;
  OnText : uint -> bytes -> App -> outcome unit * App;
  OnSend : uint -> bytes -> App -> outcome bool * App;
  OnOffline : uint -> App -> outcome unit * App
}.
Arguments OnAuth {App} _ _ _.
Arguments OnOnline {App} _ _ _.
Arguments OnText {App} _ _ _ _.
Arguments OnSend {App} _ _ _ _.
Arguments OnOffline {App} _ _ _.

(** The transport, [wsutil.WriteServerMessage] and [net.Conn.Close], over a
    network state [Net]: each returns an [error], [None] for [nil]. *)
Record Transport (Net : Type) : Type := {
  WriteServerMessage : Conn -> OpCode -> bytes -> Net -> option error * Net;
  Close : Conn -> Net -> option error * Net
}.
Arguments WriteServerMessage {Net} _ _ _ _ _.
Arguments Close {Net} _ _ _.

(** [*WS] together with what it acts on: [conns] is the field [w.conns];
    [app] and [net] are the application and the network; [trace] is the
    chronological record of events.  ([w.h] and [w.l] never change: the
    handlers are a parameter and the logger is the trace.  [w.mutex] brackets
    the registry blocks and has no sequential effect.) *)
Record World (App Net : Type) : Type := {
  conns : gmap uint Conn;
  app : App;
  net : Net;
  trace : list event
}.
Arguments conns {App Net} _.
Arguments app {App Net} _.
Arguments net {App Net} _.
Arguments trace {App Net} _.
Arguments Build_World {App Net} _ _ _ _.

Section Server.
Context {App Net : Type}.
Variable h : Handlers App.
Variable tp : Transport Net.

Abbreviation W := (World App Net).

Definition set_conns (f : gmap uint Conn -> gmap uint Conn) (w : W) : W :=
  Build_World (f (conns w)) (app w) (net w) (trace w).
Definition set_app (a : App) (w : W) : W :=
  Build_World (conns w) a (net w) (trace w).
Definition set_net (n : Net) (w : W) : W :=
  Build_World (conns w) (app w) n (trace w).
Definition record (e : event) (w : W) : W :=
  Build_World (conns w) (app w) (net w) (trace w ++ [e]).

Definition emit (e : event) : M W unit := modify (record e).

(** [w.l.Print(...)], [w.l.Printf(format, ...)].  A format is kept as it is
    spelled in the source, escape sequences included. *)
Definition Print (args : list logarg) : M W unit := emit (EvPrint args).
Definition Printf (format : string) (args : list logarg) : M W unit :=
  emit (EvPrintf format args).

(** [go f(...)]: the statement only starts [f]. *)
Definition go (t : task) : M W unit := emit (EvGo t).

(** A call of an application callback: recorded, then run on the
    application state. *)
Definition call {A} (cb : callback) (f : App -> outcome A * App) : M W A :=
  fun w => let w1 := record (EvCall cb) w in
           let (r, a) := f (app w1) in (r, set_app a w1).

(** A call of the transport: recorded, then run on the network state. *)
Definition transport {A} (e : event) (f : Net -> A * Net) : M W A :=
  fun w => let w1 := record e w in
           let (r, n) := f (net w1) in (Ok r, set_net n w1).

Definition write_message (conn : Conn) (op : OpCode) (payload : bytes)
  : M W (option error) :=
  transport (EvWrite conn op payload) (WriteServerMessage tp conn op payload).

Definition close_conn (conn : Conn) : M W (option error) :=
  transport (EvClose conn) (Close tp conn).

(** *** The recovering wrappers (source lines 294-339) *)

(** [func (w *WS) onAuthWrapper(token string) (id uint, ok bool)] *)
Definition onAuthWrapper (token : string) : M W (uint * bool) :=
  with_recover (0%N, false)
    (call (CbOnAuth token) (OnAuth h token))
    (fun r res =>
       let res := (fst res, false) in
       Printf "[Recovery OnAuth] panic recovered:\n%s\n\n" [ARecovered r];;
       ret res).

(** [func (w *WS) onOnlineWrapper(id uint, wg *sync.WaitGroup)].  The two
    deferred calls run in reverse order: first the recovering closure, then
    [wg.Done()].  The wait group is passed in and handed back. *)
Definition onOnlineWrapper (id : uint) (wg : WaitGroup) : M W WaitGroup :=
  with_recover tt
    (call (CbOnOnline id) (OnOnline h id))
    (fun r res =>
       Printf "[Recovery OnOnline] panic recovered:\n%s\n\n" [ARecovered r];;
       ret res);;
  wg_Done wg.

(** [func (w *WS) onTextWrapper(id uint, msg []byte)] *)
Definition onTextWrapper (id : uint) (msg : bytes) : M W unit :=
  with_recover tt
    (call (CbOnText id msg) (OnText h id msg))
    (fun r res =>
       Printf "[Recovery OnText] panic recovered:\n%s\n\n" [ARecovered r];;
       ret res).

(** [func (w *WS) onSendWrapper(id uint, msg []byte) (ok bool)] *)
Definition onSendWrapper (id : uint) (msg : bytes) : M W bool :=
  with_recover false
    (call (CbOnSend id msg) (OnSend h id msg))
    (fun r res =>
       Printf "[Recovery OnWriteText] panic recovered:\n%s\n\n" [ARecovered r];;
       ret res).

(** [func (w *WS) onOfflineWrapper(id uint)] *)
Definition onOfflineWrapper (id : uint) : M W unit :=
  with_recover tt
    (call (CbOnOffline id) (OnOffline h id))
    (fun r res =>
       Printf "[Recovery OnOffline] panic recovered:\n%s\n\n" [ARecovered r];;
       ret res).

(** *** The worlds the actions above lead to *)

(** The world after a callback [cb] that left the application in [a] has
    panicked with [r] and the wrapper has logged it with [format]. *)
Definition recovered (w : W) (cb : callback) (format r : string) (a : App)
  : W :=
  Build_World (conns w) a (net w)
    (trace w ++ [EvCall cb; EvPrintf format [ARecovered r]]).

(** The world after a callback [cb] that left the application in [a] has
    returned. *)
Definition returned (w : W) (cb : callback) (a : App) : W :=
  Build_World (conns w) a (net w) (trace w ++ [EvCall cb]).

(** The world after the events [t], with the network in [n]. *)
Definition logged (w : W) (n : Net) (t : list event) : W :=
  Build_World (conns w) (app w) n (trace w ++ t).

End Server.

(** ** The handshake hooks (source lines 123-159) *)

(** [net/url]: what the hooks use of it.  [Parse] and [ParseQuery] return
    [Some] for [err == nil]. *)
Record URL : Type := { RawQuery : string }.

Record UrlPkg : Type := {
  Parse : string -> option URL;
  ParseQuery : string -> option (gmap string (list string))
}.

(** The request as the upgrade presents it to the hooks: the request target,
    and the header lines it hands to [OnHeader] (those it does not consume
    itself), in order of arrival. *)
Record Request : Type := {
  uri : string;
  headers : list (string * string)
}.

(** Where a handshake was refused. *)
Inductive stage : Type :=
| AtRequest
| AtHeader (i : nat)
| AtBeforeUpgrade.

Section Handshake.
Context {App Net : Type}.
Variable h : Handlers App.
Variable url : UrlPkg.

Abbreviation W := (World App Net).

(** The hooks are closures over the local [var id uint] of [handle]: each
    takes the current [id] and returns it with the hook's [error]. *)

(** [OnRequest: func(uri []byte) error] *)
Definition OnRequest (uri : string) (id : uint) : M W (uint * option error) :=
  match Parse url uri with
  | Some u =>
      if bool_decide (RawQuery u ≠ "") then
        match ParseQuery url (RawQuery u) with
        | Some m =>
            match m !! AuthTokenKey with
            | Some token =>
                t0 <- index_or_panic token 0;;
                res <- onAuthWrapper h t0;;
                if negb (snd res) then ret (fst res, Some ErrAuthFailed)
                else ret (fst res, None)
            | None => ret (id, None)
            end
        | None => ret (id, None)
        end
      else ret (id, None)
  | None => ret (id, None)
  end.

(** [OnHeader: func(key, value []byte) error] *)
Definition OnHeader (key value : string) (id : uint)
  : M W (uint * option error) :=
  if bool_decide (id = 0%N) && bool_decide (key = "Authorization") then
    let v := value in
    if HasPrefix v "Bearer " || HasPrefix v "Basic " then
      cred <- index_or_panic (SplitN v " " 2) 1;;
      res <- onAuthWrapper h cred;;
      if negb (snd res) then ret (fst res, Some ErrAuthFailed)
      else ret (fst res, None)
    else ret (id, Some ErrBadAuthHeader)
  else ret (id, None).

(** [OnBeforeUpgrade: func() (header ws.HandshakeHeader, err error)] *)
Definition OnBeforeUpgrade (id : uint) : option error :=
  if bool_decide (id = 0%N) then Some ErrNotAuth else None.

(** [u.Upgrade(conn)] belongs to the transport library.  What matters of it
    here is the order in which it runs the hooks on a well-formed request:
    [OnRequest] on the request target, [OnHeader] on each header line as it
    arrives, [OnBeforeUpgrade] last; the first error a hook returns ends the
    handshake and becomes the error of [Upgrade]. *)
Fixpoint on_headers (hs : list (string * string)) (i : nat) (id : uint)
  : M W (uint * option (stage * error)) :=
  match hs with
  | [] => ret (id, None)
  | (key, value) :: hs' =>
      r <- OnHeader key value id;;
      match snd r with
      | Some err => ret (fst r, Some (AtHeader i, err))
      | None => on_headers hs' (S i) (fst r)
      end
  end.

Definition run_hooks (req : Request) : M W (uint * option (stage * error)) :=
  r <- OnRequest (uri req) 0%N;;
  match snd r with
  | Some err => ret (fst r, Some (AtRequest, err))
  | None => on_headers (headers req) 0 (fst r)
  end.

Definition Upgrade (req : Request) : M W (uint * option (stage * error)) :=
  r <- run_hooks req;;
  match snd r with
  | Some e => ret r
  | None =>
      match OnBeforeUpgrade (fst r) with
      | Some err => ret (fst r, Some (AtBeforeUpgrade, err))
      | None => ret (fst r, None)
      end
  end.

(** The values of the query parameter [token], when the request target
    parses and has them: the chain of tests that guards the call of
    [onAuthWrapper] in [OnRequest]. *)
Definition query_token (uri : string) : option (list string) :=
  match Parse url uri with
  | Some u =>
      if bool_decide (RawQuery u ≠ "") then
        match ParseQuery url (RawQuery u) with
        | Some m => m !! AuthTokenKey
        | None => None
        end
      else None
  | None => None
  end.

(** What both hooks do with the answer of [onAuthWrapper]. *)
Definition answer (res : uint * bool) : M W (uint * option error) :=
  if negb (snd res) then ret (fst res, Some ErrAuthFailed)
  else ret (fst res, None).

End Handshake.

(** No header line of [hs] has the key [Authorization]. *)
Definition no_authorization (hs : list (string * string)) : Prop :=
  Forall (λ kv, kv.1 ≠ "Authorization") hs.

(** The two schemes [OnHeader] accepts. *)
Definition scheme (s : string) : Prop := s = "Bearer " ∨ s = "Basic ".

(** ** The body of [handle] after the upgrade, [WriteMessage],
       [CloseConnection] *)

(** [Message] *)
Record Message : Type := {
  Body : bytes;
  Op : OpCode;
  Err : option error
}.

(** The [*time.Timer] [to]: armed for a duration, stopped (and its channel
    drained), or expired (its channel has delivered). *)
Inductive timer : Type :=
| Armed (d : Z)
| Stopped
| Expired.

(** The variables of the read loop. *)
Record loop : Type := {
  afterPing : bool;
  to : timer
}.

(** Which case of the [select] is taken. *)
Inductive selected : Type :=
| FromChMsg (msg : Message)
| FromTimer.

(** How an iteration ends. *)
Inductive next : Type :=
| Continue (l : loop)
| BreakReadLoop (l : loop).

(** [OpCode.IsControl]: the opcodes with bit [0x8] set. *)
Definition IsControl (op : OpCode) : bool := negb (N.land op 0x8 =? 0)%N.

(** [readMessage] on what the transport hands it: the header of the next
    frame or the error of reading it, the error of the control-frame handler
    [ch], and the payload with the error of reading it.  The result is the
    [Message] sent on [chMsg]. *)
Definition readMessage (hdr : OpCode + error) (ch : option error)
    (payload : bytes * option error) : Message :=
  match hdr with
  | inr err => {| Body := []; Op := 0%N; Err := Some err |}
  | inl op =>
      if IsControl op then
        match ch with
        | Some err => {| Body := []; Op := 0%N; Err := Some err |}
        | None => {| Body := []; Op := op; Err := None |}
        end
      else {| Body := fst payload; Op := op; Err := snd payload |}
  end.

Section Session.
Context {App Net : Type}.
Variable h : Handlers App.
Variable tp : Transport Net.

Abbreviation W := (World App Net).

(** [w.conns[id] = conn] *)
Definition store (id : uint) (conn : Conn) : M W unit :=
  modify (set_conns (insert id conn));; emit (EvStore id conn).

(** [delete(w.conns, id)] *)
Definition remove (id : uint) : M W unit :=
  modify (set_conns (delete id));; emit (EvDelete id).

(** Lines 161-171, between [w.mutex.Lock()] and [w.mutex.Unlock()]. *)
Definition upsert (id : uint) (conn : Conn) : M W unit :=
  cs <- gets conns;;
  match cs !! id with
  | Some existConn =>
      if bool_decide (existConn ≠ conn) then
        err <- close_conn tp existConn;;
        match err with
        | Some e => Print [AStr "Close connection err:"; AErr e]
        | None => ret tt
        end
      else ret tt
  | None => ret tt
  end;;
  store id conn.

(** Lines 173-179: the wait group, the start of [onOnlineWrapper], the
    variables of the loop. *)
Definition start_online (id : uint) : M W WaitGroup :=
  let wg := wg_Add 1 0%Z in
  go (GoOnOnlineWrapper id);;
  ret wg.

Definition loop_init : loop :=
  {| afterPing := false; to := Armed TimeoutPing |}.

(** One iteration of [ReadLoop] (lines 183-216), [s] being the case of the
    [select] that is taken.  The result of the inner [switch] is whether it
    left the loop. *)
Definition iteration (id : uint) (conn : Conn) (l : loop) (s : selected)
  : M W next :=
  go (GoReadMessage conn);;
  match s with
  | FromChMsg msg =>
      let l := {| afterPing := afterPing l; to := Stopped |} in
      match Err msg with
      | None =>
          brk <- (if bool_decide (Op msg = OpPing) then ret false
                  else if bool_decide (Op msg = OpPong) then ret false
                  else if bool_decide (Op msg = OpText) then
                    go (GoOnTextWrapper id (Body msg));; ret false
                  else if bool_decide (Op msg = OpClose) then ret true
                  else
                    Printf "[%d] Unknown received, OpCode: %v\n"
                      [AUint id; AOp (Op msg)];;
                    ret false);;
          if (brk : bool) then ret (BreakReadLoop l)
          else ret (Continue {| afterPing := false; to := Armed TimeoutPing |})
      | Some e =>
          Printf "[%d] read error: %s\n" [AUint id; AErr e];;
          ret (BreakReadLoop l)
      end
  | FromTimer =>
      let l := {| afterPing := afterPing l; to := Expired |} in
      if negb (afterPing l) then
        go (GoWriteServerMessage conn OpPing []);;
        ret (Continue {| afterPing := true; to := Armed TimeoutClose |})
      else
        Printf "[%d] Ping timeout...\n" [AUint id];;
        write_message tp conn OpClose [x03; xea];;
        ret (BreakReadLoop l)
  end.

(** [ReadLoop] along the cases its [select]s take: [BreakReadLoop] when the
    loop is left, [Continue] when it waits in the next [select]. *)
Fixpoint ReadLoop (id : uint) (conn : Conn) (l : loop) (ss : list selected)
  : M W next :=
  match ss with
  | [] => ret (Continue l)
  | s :: ss' =>
      n <- iteration id conn l s;;
      match n with
      | Continue l' => ReadLoop id conn l' ss'
      | BreakReadLoop l' => ret (BreakReadLoop l')
      end
  end.

(** Line 218: [w.conns[id] == conn].  A missing key reads as the nil
    interface, which no connection equals. *)
Definition registered (id : uint) (conn : Conn) : M W bool :=
  cs <- gets conns;; ret (bool_decide (cs !! id = Some conn)).

(** Line 224 *)
Definition start_offline (id : uint) : M W unit :=
  go (GoOnOfflineWrapper id).

(** Line 227; [AConn conn] stands for [nameConn(conn)], the two addresses
    of the connection. *)
Definition log_upgrade_error (conn : Conn) (err : error) : M W unit :=
  Printf "%s: upgrade error: %v" [AConn conn; AErr err].

(** [func (w *WS) WriteMessage(id uint, msg []byte) error] *)
Definition WriteMessage (id : uint) (msg : bytes) : M W (option error) :=
  ok <- onSendWrapper h id msg;;
  if (ok : bool) then
    cs <- gets conns;;
    match cs !! id with
    | Some conn =>
        err <- write_message tp conn OpText msg;;
        match err with
        | Some e => Printf "[%d] Write error: %s\n" [AUint id; AErr e]
        | None => ret tt
        end;;
        ret err
    | None =>
        Printf "Connection not found for device: %d\n" [AUint id];;
        ret (Some ErrConnNotFound)
    end
  else ret None.

(** [func (w *WS) CloseConnection(id uint) error] *)
Definition CloseConnection (id : uint) : M W (option error) :=
  cs <- gets conns;;
  match cs !! id with
  | Some conn =>
      write_message tp conn OpClose [x03; xea];;
      close_conn tp conn
  | None =>
      Printf "Connection not found for device: %d\n" [AUint id];;
      ret (Some ErrConnNotFound)
  end.

End Session.

(** What [WriteMessage] logs for the error of the write. *)
Definition write_log (id : uint) (err : option error) : list event :=
  match err with
  | Some e => [EvPrintf "[%d] Write error: %s\n" [AUint id; AErr e]]
  | None => []
  end.

(** What the [switch] on the opcode of a frame does besides resetting the
    heartbeat. *)
Definition dispatched (id : uint) (msg : Message) : list event :=
  if bool_decide (Op msg = OpPing) then []
  else if bool_decide (Op msg = OpPong) then []
  else if bool_decide (Op msg = OpText) then
    [EvGo (GoOnTextWrapper id (Body msg))]
  else [EvPrintf "[%d] Unknown received, OpCode: %v\n"
          [AUint id; AOp (Op msg)]].

(** ** [handle] as a transition system

    [handle] runs in one goroutine per connection and starts a second one
    for [onOnlineWrapper]; other goroutines act on the same world meanwhile.
    Its statements are the steps of a transition system: each step runs one
    of the blocks above on the world.  The comparison of line 218 is read
    outside the mutex and is a step of its own, separate from the delete of
    lines 219-221. *)

(** The statement the goroutine of [handle] is at. *)
Inductive pc : Type :=
| PUpgrade (req : Request)    (* line 160 *)
| PUpsert (id : uint)         (* lines 161-171 *)
| PStartOnline (id : uint)    (* lines 173-179 *)
| PLoop (id : uint) (l : loop) (* lines 181-217 *)
| PCheck (id : uint)          (* line 218 *)
| PDelete (id : uint)         (* lines 219-221 *)
| PWait (id : uint)           (* line 223 *)
| PStartOffline (id : uint)   (* line 224 *)
| PDeferred                   (* line 122, run on return *)
| PReturned.

(** The goroutine of [onOnlineWrapper]: not started, started and not yet
    run, or run to its end. *)
Inductive goroutine : Type :=
| NotStarted
| Ready (id : uint)
| Finished.

Record session (App Net : Type) : Type := {
  s_pc : pc;
  s_wg : WaitGroup;
  s_online : goroutine;
  s_world : World App Net
}.
Arguments s_pc {App Net} _.
Arguments s_wg {App Net} _.
Arguments s_online {App Net} _.
Arguments s_world {App Net} _.
Arguments Build_session {App Net} _ _ _ _.

(** What a step does. *)
Inductive label : Type :=
| LUpgrade
| LUpsert
| LStartOnline
| LIterate (s : selected)
| LCheck (matched : bool)
| LDelete
| LWait
| LStartOffline
| LClose
| LOnlineDone
| LEnv.

#[global] Instance label_inhabited : Inhabited label := populate LEnv.

(** Every [b] of [ls] has an [a] before it. *)
Definition preceded (a b : label) (ls : list label) : Prop :=
  ∀ l1 l2, ls = l1 ++ b :: l2 → a ∈ l1.

Section Handle.
Context {App Net : Type}.
Variable h : Handlers App.
Variable tp : Transport Net.
Variable url : UrlPkg.
Variable conn : Conn.

Abbreviation W := (World App Net).

Definition after_iteration (id : uint) (n : next) : pc :=
  match n with
  | Continue l => PLoop id l
  | BreakReadLoop _ => PCheck id
  end.

Inductive step : session App Net -> label -> session App Net -> Prop :=
| step_upgrade req wg g (w w' : W) id :
    Upgrade h url req w = (Ok (id, None), w') ->
    step (Build_session (PUpgrade req) wg g w) LUpgrade
         (Build_session (PUpsert id) wg g w')
| step_upgrade_error req wg g (w w' w'' : W) id st err :
    Upgrade h url req w = (Ok (id, Some (st, err)), w') ->
    log_upgrade_error conn err w' = (Ok tt, w'') ->
    step (Build_session (PUpgrade req) wg g w) LUpgrade
         (Build_session PDeferred wg g w'')
| step_upsert id wg g (w w' : W) :
    upsert tp id conn w = (Ok tt, w') ->
    step (Build_session (PUpsert id) wg g w) LUpsert
         (Build_session (PStartOnline id) wg g w')
| step_start_online id wg wg' g (w w' : W) :
    start_online id w = (Ok wg', w') ->
    step (Build_session (PStartOnline id) wg g w) LStartOnline
         (Build_session (PLoop id loop_init) wg' (Ready id) w')
| step_iterate id l s n wg g (w w' : W) :
    iteration tp id conn l s w = (Ok n, w') ->
    step (Build_session (PLoop id l) wg g w) (LIterate s)
         (Build_session (after_iteration id n) wg g w')
| step_check id b wg g (w w' : W) :
    registered id conn w = (Ok b, w') ->
    step (Build_session (PCheck id) wg g w) (LCheck b)
         (Build_session (if b then PDelete id else PDeferred) wg g w')
| step_delete id wg g (w w' : W) :
    remove id w = (Ok tt, w') ->
    step (Build_session (PDelete id) wg g w) LDelete
         (Build_session (PWait id) wg g w')
| step_wait id wg g (w : W) :
    wg = 0%Z ->
    step (Build_session (PWait id) wg g w) LWait
         (Build_session (PStartOffline id) wg g w)
| step_start_offline id wg g (w w' : W) :
    start_offline id w = (Ok tt, w') ->
    step (Build_session (PStartOffline id) wg g w) LStartOffline
         (Build_session PDeferred wg g w')
| step_close wg g (w w' : W) err :
    close_conn tp conn w = (Ok err, w') ->
    step (Build_session PDeferred wg g w) LClose
         (Build_session PReturned wg g w')
| step_online id p wg wg' (w w' : W) :
    onOnlineWrapper h id wg w = (Ok wg', w') ->
    step (Build_session p wg (Ready id) w) LOnlineDone
         (Build_session p wg' Finished w')
| step_env p wg g (w w' : W) :
    step (Build_session p wg g w) LEnv (Build_session p wg g w').

(** A run, with its labels in the order of the steps. *)
Inductive run : session App Net -> list label -> session App Net -> Prop :=
| run_nil s : run s [] s
| run_snoc s ls s1 l s2 : run s ls s1 -> step s1 l s2 -> run s (ls ++ [l]) s2.

(** [go w.handle(conn)] *)
Definition handle_start (req : Request) (w : W) : session App Net :=
  Build_session (PUpgrade req) 0%Z NotStarted w.

(** Where the goroutine of [handle] is with respect to the barrier. *)
Definition barrier_inv (ls : list label) (s : session App Net) : Prop :=
  preceded LOnlineDone LStartOffline ls
  ∧ match s_pc s with
    | PUpgrade _ | PUpsert _ | PStartOnline _ => s_online s = NotStarted
    | PLoop _ _ | PCheck _ | PDelete _ | PWait _ =>
        ((∃ id, s_online s = Ready id) ∧ s_wg s = 1%Z) ∨ LOnlineDone ∈ ls
    | PStartOffline _ => LOnlineDone ∈ ls
    | PDeferred | PReturned => True
    end.

(** Where the goroutine of [handle] is with respect to the test of line
    218. *)
Definition check_inv (ls : list label) (s : session App Net) : Prop :=
  preceded (LCheck true) LDelete ls
  ∧ preceded (LCheck true) LStartOffline ls
  ∧ (LCheck false ∈ ls → (LDelete ∉ ls) ∧ (LStartOffline ∉ ls))
  ∧ match s_pc s with
    | PUpgrade _ | PUpsert _ | PStartOnline _ | PLoop _ _ | PCheck _ =>
        (∀ b, LCheck b ∉ ls) ∧ (LDelete ∉ ls) ∧ (LStartOffline ∉ ls)
    | PDelete _ | PWait _ | PStartOffline _ =>
        LCheck true ∈ ls ∧ (LCheck false ∉ ls)
    | PDeferred | PReturned => True
    end.

End Handle.

(** ** The registry under the operations that act on it *)

(** What acts on [w.conns]: the upsert of a [handle], the test and delete at
    its end, the deferred close, and the two methods of [ConnController]. *)
Inductive operation : Type :=
| DoUpsert (id : uint) (conn : Conn)
| DoRemove (id : uint) (conn : Conn)
| DoClose (conn : Conn)
| DoWriteMessage (id : uint) (msg : bytes)
| DoCloseConnection (id : uint).

(** The registry a trace leaves behind. *)
Definition replay_event (m : gmap uint Conn) (e : event) : gmap uint Conn :=
  match e with
  | EvStore id conn => <[id:=conn]> m
  | EvDelete id => delete id m
  | _ => m
  end.

Definition replay (t : list event) : gmap uint Conn :=
  fold_left replay_event t ∅.

(** No entry is overwritten by another connection before it was closed. *)
Definition closed_before_overwrite (t : list event) : Prop :=
  ∀ t1 t2 id (c1 c2 : Conn),
    t = t1 ++ EvStore id c2 :: t2 →
    replay t1 !! id = Some c1 → c1 ≠ c2 → EvClose c1 ∈ t1.

(** An event that leaves the registry alone. *)
Definition quiet_event (e : event) : Prop :=
  match e with
  | EvStore _ _ | EvDelete _ => False
  | _ => True
  end.

(** What [upsert] logs for the error of the close. *)
Definition close_log (err : option error) : list event :=
  match err with
  | Some e => [EvPrint [AStr "Close connection err:"; AErr e]]
  | None => []
  end.

Section Registry.
Context {App Net : Type}.
Variable h : Handlers App.
Variable tp : Transport Net.

Abbreviation W := (World App Net).

(** Lines 218-221 *)
Definition remove_if_registered (id : uint) (conn : Conn) : M W bool :=
  b <- registered id conn;;
  if (b : bool) then remove id;; ret true else ret false.

Definition perform (o : operation) : M W unit :=
  match o with
  | DoUpsert id conn => upsert tp id conn
  | DoRemove id conn => remove_if_registered id conn;; ret tt
  | DoClose conn => close_conn tp conn;; ret tt
  | DoWriteMessage id msg => WriteMessage h tp id msg;; ret tt
  | DoCloseConnection id => CloseConnection tp id;; ret tt
  end.

Definition perform_all (os : list operation) (w : W) : W :=
  fold_left (fun w o => exec (perform o) w) os w.

(** [Start]: [conns: make(map[uint]net.Conn)] *)
Definition started (a : App) (n : Net) : W := Build_World ∅ a n [].

(** The two facts that hold of every world the operations reach. *)
Definition registry_inv (w : W) : Prop :=
  conns w = replay (trace w) ∧ closed_before_overwrite (trace w).

(** A computation that leaves the registry alone. *)
Definition quiet {A} (m : M W A) : Prop :=
  ∀ w, conns (exec m w) = conns w
       ∧ ∃ t, trace (exec m w) = trace w ++ t ∧ Forall quiet_event t.

End Registry.

(** ** [package debugger] *)

Module debugger.

(** The two servers a [wsserver.ConnController] can be: the one [New] starts
    with the [Debugger] as its handlers, which serves the observers, and the
    one the application starts with its replaced handlers ([*cfg.Handlers =
    &d.ws]), which serves the principals. *)
Inductive controller : Type :=
| DebugServer
| MainServer.

(** What leaves the package: a call of a method of [appHandlers], and the
    two [go] statements on a controller. *)
Inductive effect : Type :=
| App (cb : callback)
| GoWriteMessage (c : controller) (id : uint) (msg : bytes)
| GoCloseConnection (c : controller) (id : uint).

#[global] Instance controller_eq_dec : EqDecision controller.
Proof. solve_decision. Defined.
#[global] Instance effect_eq_dec : EqDecision effect.
Proof. solve_decision. Defined.

(** [Debugger] with its embedded [extHandlers] ([d.ws]), whose field [d]
    points back to it: the two receivers share this one state.  [cc] is
    [d.cc], [ws_cc] is [d.ws.cc], [devices] is [d.ws.devices]; [app] is the
    state the methods of [d.ws.appHandlers] run on. *)
Record Debugger (A : Type) : Type := {
  cc : option controller;
  ws_cc : option controller;
  devices : gmap uint bool;
  debuggers : gmap uint bool;
  app : A;
  effects : list effect
}.
Arguments cc {A} _.
Arguments ws_cc {A} _.
Arguments devices {A} _.
Arguments debuggers {A} _.
Arguments app {A} _.
Arguments effects {A} _.
Arguments Build_Debugger {A} _ _ _ _ _ _.

Section Overlay.
Context {A : Type}.
Variable appHandlers : Handlers A.

Abbreviation D := (Debugger A).

Definition set_cc (c : option controller) (d : D) : D :=
  Build_Debugger c (ws_cc d) (devices d) (debuggers d) (app d) (effects d).
Definition set_ws_cc (c : option controller) (d : D) : D :=
  Build_Debugger (cc d) c (devices d) (debuggers d) (app d) (effects d).
Definition set_devices (f : gmap uint bool -> gmap uint bool) (d : D) : D :=
  Build_Debugger (cc d) (ws_cc d) (f (devices d)) (debuggers d) (app d)
    (effects d).
Definition set_debuggers (f : gmap uint bool -> gmap uint bool) (d : D) : D :=
  Build_Debugger (cc d) (ws_cc d) (devices d) (f (debuggers d)) (app d)
    (effects d).
Definition set_app (a : A) (d : D) : D :=
  Build_Debugger (cc d) (ws_cc d) (devices d) (debuggers d) a (effects d).
Definition record (e : effect) (d : D) : D :=
  Build_Debugger (cc d) (ws_cc d) (devices d) (debuggers d) (app d)
    (effects d ++ [e]).

(** The state after a call of a method of [appHandlers] that left the
    application in [a]. *)
Definition called (cb : callback) (a : A) (d : D) : D :=
  Build_Debugger (cc d) (ws_cc d) (devices d) (debuggers d) a
    (effects d ++ [App cb]).

(** A call of a method of [appHandlers]. *)
Definition call {R} (cb : callback) (f : A -> outcome R * A) : M D R :=
  fun d => let d1 := record (App cb) d in
           let (r, a) := f (app d1) in (r, set_app a d1).

(** [go c.WriteMessage(id, msg)] and [go c.CloseConnection(id)]: a method
    value of a nil interface panics in the goroutine that runs the [go]
    statement. *)
Definition go_WriteMessage (c : option controller) (id : uint) (msg : bytes)
  : M D unit :=
  match c with
  | Some c => modify (record (GoWriteMessage c id msg))
  | None => panic "invalid memory address or nil pointer dereference"
  end.

Definition go_CloseConnection (c : option controller) (id : uint) : M D unit :=
  match c with
  | Some c => modify (record (GoCloseConnection c id))
  | None => panic "invalid memory address or nil pointer dereference"
  end.

(** [_, ok := m[id]] *)
Definition has (m : gmap uint bool) (id : uint) : bool :=
  bool_decide (is_Some (m !! id)).

(** [func (d *Debugger) SetConnCtrlr(ctrlr wsserver.ConnController)] *)
Definition Debugger_SetConnCtrlr (ctrlr : controller) : M D unit :=
  modify (set_cc (Some ctrlr)).

(** [func (d *Debugger) OnAuth(token string) (id uint, ok bool)] *)
Definition Debugger_OnAuth (token : string) : M D (uint * bool) :=
  call (CbOnAuth token) (OnAuth appHandlers token).

(** [func (d *Debugger) OnOnline(id uint)] *)
Definition Debugger_OnOnline (id : uint) : M D unit :=
  ds <- gets debuggers;;
  if negb (has ds id) then
    modify (set_debuggers (insert id true));;
    dv <- gets devices;;
    if negb (has dv id) then call (CbOnOnline id) (OnOnline appHandlers id)
    else ret tt
  else ret tt.

(** [func (d *Debugger) OnText(id uint, msg []byte)] *)
Definition Debugger_OnText (id : uint) (msg : bytes) : M D unit :=
  ds <- gets debuggers;;
  (if has ds id then c <- gets cc;; go_WriteMessage c id msg else ret tt);;
  dv <- gets devices;;
  (if has dv id then c <- gets ws_cc;; go_WriteMessage c id msg else ret tt);;
  call (CbOnText id msg) (OnText appHandlers id msg).

(** [func (d *Debugger) OnSend(id uint, msg []byte) (ok bool)] *)
Definition Debugger_OnSend (id : uint) (msg : bytes) : M D bool := ret true.

(** [func (d *Debugger) OnOffline(id uint)] *)
Definition Debugger_OnOffline (id : uint) : M D unit :=
  ds <- gets debuggers;;
  if has ds id then
    modify (set_debuggers (delete id));;
    dv <- gets devices;;
    if negb (has dv id) then call (CbOnOffline id) (OnOffline appHandlers id)
    else ret tt
  else ret tt.

(** [func (e *extHandlers) SetConnCtrlr(ctrlr wsserver.ConnController)];
    the call [e.appHandlers.SetConnCtrlr(e)] hands the application the
    overlay as its controller and changes nothing here. *)
Definition extHandlers_SetConnCtrlr (ctrlr : controller) : M D unit :=
  modify (set_ws_cc (Some ctrlr)).

(** [func (e *extHandlers) OnAuth(token string) (id uint, ok bool)] *)
Definition extHandlers_OnAuth (token : string) : M D (uint * bool) :=
  call (CbOnAuth token) (OnAuth appHandlers token).

(** [func (e *extHandlers) OnOnline(id uint)] *)
Definition extHandlers_OnOnline (id : uint) : M D unit :=
  dv <- gets devices;;
  if negb (has dv id) then
    modify (set_devices (insert id true));;
    ds <- gets debuggers;;
    if negb (has ds id) then call (CbOnOnline id) (OnOnline appHandlers id)
    else ret tt
  else ret tt.

(** [func (e *extHandlers) OnText(id uint, msg []byte)] *)
Definition extHandlers_OnText (id : uint) (msg : bytes) : M D unit :=
  ds <- gets debuggers;;
  (if has ds id then c <- gets cc;; go_WriteMessage c id msg else ret tt);;
  call (CbOnText id msg) (OnText appHandlers id msg).

(** [func (e *extHandlers) OnSend(id uint, msg []byte) (ok bool)] *)
Definition extHandlers_OnSend (id : uint) (msg : bytes) : M D bool := ret true.

(** [func (e *extHandlers) OnOffline(id uint)] *)
Definition extHandlers_OnOffline (id : uint) : M D unit :=
  dv <- gets devices;;
  if has dv id then
    modify (set_devices (delete id));;
    ds <- gets debuggers;;
    if negb (has ds id) then call (CbOnOffline id) (OnOffline appHandlers id)
    else ret tt
  else ret tt.

(** [func (e *extHandlers) WriteMessage(id uint, msg []byte) (err error)] *)
Definition extHandlers_WriteMessage (id : uint) (msg : bytes)
  : M D (option error) :=
  ds <- gets debuggers;;
  (if has ds id then c <- gets cc;; go_WriteMessage c id msg else ret tt);;
  dv <- gets devices;;
  (if has dv id then c <- gets ws_cc;; go_WriteMessage c id msg else ret tt);;
  call (CbOnSend id msg) (OnSend appHandlers id msg);;
  ret None.

(** [func (e *extHandlers) CloseConnection(id uint) (err error)] *)
Definition extHandlers_CloseConnection (id : uint) : M D (option error) :=
  ds <- gets debuggers;;
  (if has ds id then c <- gets cc;; go_CloseConnection c id else ret tt);;
  dv <- gets devices;;
  (if has dv id then c <- gets ws_cc;; go_CloseConnection c id else ret tt);;
  ret None.

(** [New]: the two empty maps; the [Start] inside [New] sets [d.cc], the
    [Start] of the application's own server sets [d.ws.cc]. *)
Definition New (a : A) : D :=
  exec (Debugger_SetConnCtrlr DebugServer)
    (Build_Debugger None None ∅ ∅ a []).

Definition wired (a : A) : D :=
  exec (extHandlers_SetConnCtrlr MainServer) (New a).

(** What reaches the overlay, in the order it does: the callbacks of the
    server of the observers (on the [Debugger]), the callbacks of the server
    of the principals (on the [extHandlers]), and the calls of the
    application on the controller it was handed.  A callback that panics
    keeps the state it reached (the wrapper of the server recovers). *)
Inductive incoming : Type :=
| ObserverOnline (id : uint)
| ObserverOffline (id : uint)
| PrincipalOnline (id : uint)
| PrincipalOffline (id : uint)
| ObserverAuth (token : string)
| ObserverText (id : uint) (msg : bytes)
| ObserverSend (id : uint) (msg : bytes)
| PrincipalAuth (token : string)
| PrincipalText (id : uint) (msg : bytes)
| PrincipalSend (id : uint) (msg : bytes)
| AppWriteMessage (id : uint) (msg : bytes)
| AppCloseConnection (id : uint).

(** Whether [c] is one of the four lifecycle callbacks. *)
Definition is_lifecycle (c : incoming) : bool :=
  match c with
  | ObserverOnline _ | ObserverOffline _
  | PrincipalOnline _ | PrincipalOffline _ => true
  | _ => false
  end.

Definition deliver (c : incoming) : M D unit :=
  match c with
  | ObserverOnline id => Debugger_OnOnline id
  | ObserverOffline id => Debugger_OnOffline id
  | PrincipalOnline id => extHandlers_OnOnline id
  | PrincipalOffline id => extHandlers_OnOffline id
  | ObserverAuth token => Debugger_OnAuth token;; ret tt
  | ObserverText id msg => Debugger_OnText id msg
  | ObserverSend id msg => Debugger_OnSend id msg;; ret tt
  | PrincipalAuth token => extHandlers_OnAuth token;; ret tt
  | PrincipalText id msg => extHandlers_OnText id msg
  | PrincipalSend id msg => extHandlers_OnSend id msg;; ret tt
  | AppWriteMessage id msg => extHandlers_WriteMessage id msg;; ret tt
  | AppCloseConnection id => extHandlers_CloseConnection id;; ret tt
  end.

Definition deliver_all (cs : list incoming) (d : D) : D :=
  fold_left (fun d c => exec (deliver c) d) cs d.

(** Both controllers are set, each to its server. *)
Definition wiring (d : D) : Prop :=
  cc d = Some DebugServer ∧ ws_cc d = Some MainServer.

End Overlay.

(** The lifecycle events the application sees for [id]: [true] for
    [OnOnline(id)], [false] for [OnOffline(id)]. *)
Definition lifecycle_of (id : uint) (e : effect) : option bool :=
  match e with
  | App (CbOnOnline i) => if decide (i = id) then Some true else None
  | App (CbOnOffline i) => if decide (i = id) then Some false else None
  | _ => None
  end.

Definition seen (id : uint) (t : list effect) : list bool :=
  omap (lifecycle_of id) t.

(** From the state [online], the events toggle it one after the other: an
    online event only when offline, an offline event only when online. *)
Fixpoint alternates (online : bool) (l : list bool) : bool :=
  match l with
  | [] => true
  | b :: l' => bool_decide (b = negb online) && alternates b l'
  end.

(** What a text callback forwards to a controller [c] when [attached]. *)
Definition forwarded (attached : bool) (c : controller) (id : uint)
    (msg : bytes) : list effect :=
  if attached then [GoWriteMessage c id msg] else [].

(** An effect that is no [OnOnline] and no [OnOffline] of the
    application. *)
Definition silent_effect (e : effect) : Prop :=
  match e with
  | App (CbOnOnline _) | App (CbOnOffline _) => False
  | _ => True
  end.

(** A computation that attaches and detaches nobody, leaves the controllers
    alone and makes no lifecycle call. *)
Definition silent {A R} (m : M (Debugger A) R) : Prop :=
  ∀ d, cc (exec m d) = cc d ∧ ws_cc (exec m d) = ws_cc d
       ∧ devices (exec m d) = devices d
       ∧ debuggers (exec m d) = debuggers d
       ∧ ∃ t, effects (exec m d) = effects d ++ t ∧ Forall silent_effect t.

(** Whether the application has last seen [id] come online. *)
Definition app_online {A} (id : uint) (d : Debugger A) : bool :=
  default false (last (seen id (effects d))).

(** The application has seen [id] come online exactly when one of the two
    sides has it attached, and its events for [id] alternate. *)
Definition overlay_inv {A} (id : uint) (d : Debugger A) : Prop :=
  alternates false (seen id (effects d)) = true
  ∧ app_online id d = has (debuggers d) id || has (devices d) id.

End debugger.

(** ** Instances

    The handlers of the package's tests, [THandlers], which append the name
    of each callback that runs to [runned]; variants of them that answer
    otherwise or panic; a network that remembers the connections it has
    closed; a parser of request targets of the form [path?token=value]. *)

Definition scripted (auth : outcome (uint * bool)) (send : outcome bool)
    (other : outcome unit) : Handlers (list string) :=
  {| OnAuth := λ _ runned, (auth, runned ++ ["OnAuth"]);
     OnOnline := λ _ runned, (other, runned ++ ["OnOnline"]);
     OnText := λ _ _ runned, (other, runned ++ ["OnText"]);
     OnSend := λ _ _ runned, (send, runned ++ ["OnSend"]);
     OnOffline := λ _ runned, (other, runned ++ ["OnOffline"]) |}.

Definition THandlers : Handlers (list string) :=
  scripted (Ok (1%N, true)) (Ok true) (Ok tt).

Definition Anonymous : Handlers (list string) :=
  scripted (Ok (0%N, true)) (Ok false) (Ok tt).

Definition Panicking : Handlers (list string) :=
  scripted (Fault "boom") (Fault "boom") (Fault "boom").

(** The connections closed so far. *)
Definition TNet : Transport (list Conn) :=
  {| WriteServerMessage := λ conn _ _ closed,
       if bool_decide (conn ∈ closed)
       then (Some (ErrOther "use of closed network connection"), closed)
       else (None, closed);
     Close := λ conn closed,
       if bool_decide (conn ∈ closed)
       then (Some (ErrOther "use of closed network connection"), closed)
       else (None, conn :: closed) |}.

Definition TUrl : UrlPkg :=
  {| Parse := λ u,
       match String.index 0 "?" u with
       | Some i =>
           Some {| RawQuery :=
                     String.substring (S i) (String.length u - S i) u |}
       | None => Some {| RawQuery := "" |}
       end;
     ParseQuery := λ q,
       if String.prefix "token=" q
       then Some {[ "token" :=
                      [String.substring 6 (String.length q - 6) q] ]}
       else Some ∅ |}.

Definition TWorld : World (list string) (list Conn) := started [] [].

(** The request of the tests' [setWSConnection], the one of
    [TestConnectWithAuthorizationHeader], and the one of
    [TestConnectWithoutAuth]. *)
Definition with_token : Request :=
  {| uri := "/?token=123456"; headers := [("Origin", "http://localhost:6008")] |}.

Definition with_header : Request :=
  {| uri := "/";
     headers := [("Origin", "http://localhost:6008");
                 ("Authorization", "Bearer 123456")] |}.

Definition without_auth : Request :=
  {| uri := "/"; headers := [("Origin", "http://localhost:6008")] |}.

(** A server on which connection [10] and then connection [11] have
    registered as identity [1], and [CloseConnection(1)] was called. *)
Definition reconnected : World (list string) (list Conn) :=
  perform_all THandlers TNet
    [DoUpsert 1%N 10; DoUpsert 1%N 11; DoCloseConnection 1%N] TWorld.

(** C5 on a server with connection [10] registered as identity [1]: a
    message to [1], a message to [2], and a message the application
    vetoes. *)
Definition one_client : World (list string) (list Conn) :=
  exec (upsert TNet 1%N 10) TWorld.

(** The loop waiting for a pong, and a close frame read without error. *)
Definition awaiting_pong : loop :=
  {| afterPing := true; to := Armed TimeoutClose |}.

Definition close_frame : Message := readMessage (inl OpClose) None ([], None).

(** A read that fails: the peer has gone. *)
Definition eof : Message := readMessage (inr (ErrOther "EOF")) None ([], None).

(** The steps of a [handle] whose peer disconnects right after the
    handshake, while [onOnlineWrapper] has not run yet. *)
Definition immediate_disconnect : list label :=
  [LUpgrade; LUpsert; LStartOnline; LIterate (FromChMsg eof); LCheck true;
   LDelete; LOnlineDone; LWait; LStartOffline; LClose].


(** The steps of a [handle] whose identity another connection, [11], takes
    over between the test of line 218 and the delete. *)
Definition overtaken : list label :=
  [LUpgrade; LUpsert; LStartOnline; LOnlineDone; LIterate (FromChMsg eof);
   LCheck true; LEnv; LDelete].

(** An observer and a principal of identity [7]: the principal alone, both
    attached, and both gone again. *)
Definition principal_only : debugger.Debugger (list string) :=
  debugger.deliver_all THandlers [debugger.PrincipalOnline 7%N] (debugger.wired []).

Definition paired : debugger.Debugger (list string) :=
  debugger.deliver_all THandlers [debugger.PrincipalOnline 7%N; debugger.ObserverOnline 7%N] (debugger.wired []).

Definition both_gone : debugger.Debugger (list string) :=
  debugger.deliver_all THandlers
    [debugger.PrincipalOnline 7%N; debugger.ObserverOnline 7%N; debugger.ObserverOnline 7%N;
     debugger.PrincipalOffline 7%N; debugger.ObserverOffline 7%N] (debugger.wired []).

(** ** Further notions

    What the statements on [CloseConnection], [readMessage], the read loop,
    the runs of [handle] and the controller of the overlay are phrased
    with. *)

(** The events the read loop of the connection [conn] can add to the trace:
    the [go] statements of lines 183, 194 and 208, the calls of the logger,
    and the close frame of line 213. *)
Definition loop_event (conn : Conn) (e : event) : Prop :=
  match e with
  | EvGo (GoReadMessage c) => c = conn
  | EvGo (GoOnTextWrapper _ _) => True
  | EvGo (GoWriteServerMessage c op payload) =>
      c = conn ∧ op = OpPing ∧ payload = []
  | EvPrintf _ _ => True
  | EvWrite c op payload => c = conn ∧ op = OpClose ∧ payload = [x03; xea]
  | _ => False
  end.

(** How many [readMessage] goroutines a trace starts on [conn]. *)
Definition readers (conn : Conn) (t : list event) : nat :=
  count_occ event_eq_dec t (EvGo (GoReadMessage conn)).

(** The events a handshake can add to the trace: calls of [OnAuth], and the
    log of [onAuthWrapper] after a panic. *)
Definition auth_event (e : event) : Prop :=
  match e with
  | EvCall (CbOnAuth _) => True
  | EvPrintf format [ARecovered _] =>
      format = "[Recovery OnAuth] panic recovered:\n%s\n\n"
  | _ => False
  end.

(** The place of a statement of [handle] in the order of the source. *)
Definition rank (p : pc) : nat :=
  match p with
  | PUpgrade _ => 0
  | PUpsert _ => 1
  | PStartOnline _ => 2
  | PLoop _ _ => 3
  | PCheck _ => 4
  | PDelete _ => 5
  | PWait _ => 6
  | PStartOffline _ => 7
  | PDeferred => 8
  | PReturned => 9
  end.

(** The statement a step of [handle] is made at; [None] for an iteration of
    the loop, which is made as often as the loop goes on, and for the steps
    of other goroutines. *)
Definition fires_at (l : label) : option nat :=
  match l with
  | LUpgrade => Some 0
  | LUpsert => Some 1
  | LStartOnline => Some 2
  | LCheck _ => Some 4
  | LDelete => Some 5
  | LWait => Some 6
  | LStartOffline => Some 7
  | LClose => Some 8
  | LIterate _ | LOnlineDone | LEnv => None
  end.

(** [a] is a step of a statement before that of [b], when both are steps of
    statements. *)
Definition in_order (a b : label) : Prop :=
  match fires_at a, fires_at b with
  | Some n, Some m => (n < m)%nat
  | _, _ => True
  end.

(** A computation that only asks [OnAuth]: it leaves the registry and the
    network alone, and what it adds to the trace are calls of [OnAuth] and
    logs of their recovery. *)
Definition auth_only {App Net A} (m : M (World App Net) A) : Prop :=
  ∀ w, conns (exec m w) = conns w ∧ net (exec m w) = net w
       ∧ ∃ t, trace (exec m w) = trace w ++ t ∧ Forall auth_event t.

(** An identity the [OnAuth] of the application has answered with [ok],
    for some credential in some state. *)
Definition vouched {App} (h : Handlers App) (id : uint) : Prop :=
  ∃ token a a', OnAuth h token a = (Ok (id, true), a').

(** The local [id] of [handle] at a statement after the upgrade. *)
Definition identity (p : pc) : option uint :=
  match p with
  | PUpsert id | PStartOnline id | PLoop id _ | PCheck id | PDelete id
  | PWait id | PStartOffline id => Some id
  | PUpgrade _ | PDeferred | PReturned => None
  end.

(** The counter of the wait group against the goroutine of
    [onOnlineWrapper]: [1] exactly while the goroutine is started and has
    not run to its end; the goroutine is started when [handle] is in or past
    its loop. *)
Definition online_inv {App Net} (s : session App Net) : Prop :=
  match s_online s with
  | NotStarted =>
      s_wg s = 0%Z
      ∧ match s_pc s with
        | PUpgrade _ | PUpsert _ | PStartOnline _ | PDeferred | PReturned =>
            True
        | _ => False
        end
  | Ready id => s_wg s = 1%Z ∧ id ≠ 0%N
  | Finished => s_wg s = 0%Z
  end.

(** Every identity [handle] works with is resolved. *)
Definition resolved_inv {App Net} (s : session App Net) : Prop :=
  ∀ id, identity (s_pc s) = Some id → id ≠ 0%N.

(** Handlers none of whose callbacks panics. *)
Definition returns {App} (h : Handlers App) : Prop :=
  ∀ a : App,
    (∀ token, ∃ v a', OnAuth h token a = (Ok v, a'))
    ∧ (∀ id, ∃ a', OnOnline h id a = (Ok tt, a'))
    ∧ (∀ id msg, ∃ a', OnText h id msg a = (Ok tt, a'))
    ∧ (∀ id msg, ∃ v a', OnSend h id msg a = (Ok v, a'))
    ∧ (∀ id, ∃ a', OnOffline h id a = (Ok tt, a')).

(** [*Debugger] and [*extHandlers] as values of the interface
    [wsserver.Handlers]: the handlers of the server of the observers
    ([Handlers: d] in [New]) and of the server of the principals
    ([*cfg.Handlers = &d.ws]).  Their state is the overlay. *)
Definition Debugger_Handlers {A} (appHandlers : Handlers A)
  : Handlers (debugger.Debugger A) :=
  {| OnAuth := debugger.Debugger_OnAuth appHandlers;
     OnOnline := debugger.Debugger_OnOnline appHandlers;
     OnText := debugger.Debugger_OnText appHandlers;
     OnSend := debugger.Debugger_OnSend;
     OnOffline := debugger.Debugger_OnOffline appHandlers |}.

Definition extHandlers_Handlers {A} (appHandlers : Handlers A)
  : Handlers (debugger.Debugger A) :=
  {| OnAuth := debugger.extHandlers_OnAuth appHandlers;
     OnOnline := debugger.extHandlers_OnOnline appHandlers;
     OnText := debugger.extHandlers_OnText appHandlers;
     OnSend := debugger.extHandlers_OnSend;
     OnOffline := debugger.extHandlers_OnOffline appHandlers |}.

(** A call the application makes on the controller it was handed: it runs
    on the state of the handlers of the server. *)
Definition on_app {App Net R} (m : M App R) : M (World App Net) R :=
  fun w => let (r, a) := m (app w) in (r, set_app a w).

(** What [extHandlers.CloseConnection] starts on a controller [c] when
    [attached]. *)
Definition closing (attached : bool) (c : debugger.controller) (id : uint)
  : list debugger.effect :=
  if attached then [debugger.GoCloseConnection c id] else [].

(** The world of a server whose handlers are the overlay, seen as the world
    of a server of the application alone. *)
Definition direct {A Net} (w : World (debugger.Debugger A) Net) : World A Net :=
  Build_World (conns w) (debugger.app (app w)) (net w) (trace w).

(** [m1], on a server whose handlers are the overlay, returns what [m2]
    returns on a server of the application alone and does to the registry,
    the application, the network and the trace what [m2] does, and it
    leaves the controllers and the attachments of the overlay as they
    are. *)
Definition transparent {A Net R}
    (m1 : M (World (debugger.Debugger A) Net) R) (m2 : M (World A Net) R)
  : Prop :=
  ∀ w, result m1 w = result m2 (direct w)
       ∧ direct (exec m1 w) = exec m2 (direct w)
       ∧ debugger.cc (app (exec m1 w)) = debugger.cc (app w)
       ∧ debugger.ws_cc (app (exec m1 w)) = debugger.ws_cc (app w)
       ∧ debugger.devices (app (exec m1 w)) = debugger.devices (app w)
       ∧ debugger.debuggers (app (exec m1 w)) = debugger.debuggers (app w).

(** A server with connection [10] registered as identity [1] on which
    [CloseConnection(1)] was called. *)
Definition closed_once : World (list string) (list Conn) :=
  exec (CloseConnection TNet 1%N) one_client.

(** The handlers of the tests with an [OnAuth] that refuses every
    credential, and with one that resolves only the credential [abc]. *)
Definition Refusing : Handlers (list string) :=
  scripted (Ok (5%N, false)) (Ok true) (Ok tt).

Definition Selective : Handlers (list string) :=
  {| OnAuth := λ token runned,
       (Ok (if bool_decide (token = "abc") then 3%N else 0%N, true),
        runned ++ ["OnAuth"]);
     OnOnline := λ _ runned, (Ok tt, runned ++ ["OnOnline"]);
     OnText := λ _ _ runned, (Ok tt, runned ++ ["OnText"]);
     OnSend := λ _ _ runned, (Ok true, runned ++ ["OnSend"]);
     OnOffline := λ _ runned, (Ok tt, runned ++ ["OnOffline"]) |}.

(** A request with a token and an [Authorization] header. *)
Definition with_both : Request :=
  {| uri := "/?token=123456";
     headers := [("Origin", "http://localhost:6008");
                 ("Authorization", "Basic abc")] |}.

(** A request with two [Authorization] headers. *)
Definition with_two_headers : Request :=
  {| uri := "/";
     headers := [("Authorization", "Bearer 123456");
                 ("Origin", "http://localhost:6008");
                 ("Authorization", "Basic abc")] |}.

(** The steps of a [handle] up to its loop. *)
Definition in_the_loop : list label := [LUpgrade; LUpsert; LStartOnline].

(** The server of the principals under the overlay, with connection [10]
    registered as identity [7] and the principal attached. *)
Definition overlaid : World (debugger.Debugger (list string)) (list Conn) :=
  exec (upsert TNet 7%N 10) (started principal_only []).

(** A server of the overlay that has just started. *)
Definition overlay_server : World (debugger.Debugger (list string)) (list Conn) :=
  started (debugger.wired []) [].

(** * Properties *)

(** Unfolding of the monad and of the primitive actions. *)
Ltac unfold_go :=
  unfold write_message, close_conn, store, remove, index_or_panic, wg_Done,
    Printf, Print, go, emit, call, transport, with_recover, bind, ret, gets,
    modify, panic, exec, result in *.

(** An element that differs in its constructor from every element of an
    explicit list is not in it. *)
Ltac not_in_list :=
  repeat (apply not_elem_of_cons; split; [discriminate |]);
  apply not_elem_of_nil.

(** ** The recovering wrappers *)

Section WrapperFacts.
Context {App Net : Type}.
Variable h : Handlers App.

Abbreviation W := (World App Net).

Lemma onAuthWrapper_returns token (w : W) v a :
  OnAuth h token (app w) = (Ok v, a) →
  onAuthWrapper h token w = (Ok v, returned w (CbOnAuth token) a).
Proof.
  intros H. unfold onAuthWrapper. unfold_go. simpl. rewrite H. reflexivity.
Qed.

Lemma onAuthWrapper_recovers token (w : W) r a :
  OnAuth h token (app w) = (Fault r, a) →
  onAuthWrapper h token w
  = (Ok (0%N, false),
     recovered w (CbOnAuth token)
       "[Recovery OnAuth] panic recovered:\n%s\n\n" r a).
Proof.
  intros H. unfold onAuthWrapper, recovered. unfold_go. simpl. rewrite H.
  simpl. unfold record, set_app. simpl. by rewrite <- app_assoc.
Qed.

Lemma onSendWrapper_returns id msg (w : W) v a :
  OnSend h id msg (app w) = (Ok v, a) →
  onSendWrapper h id msg w = (Ok v, returned w (CbOnSend id msg) a).
Proof.
  intros H. unfold onSendWrapper. unfold_go. simpl. rewrite H. reflexivity.
Qed.

Lemma onSendWrapper_recovers id msg (w : W) r a :
  OnSend h id msg (app w) = (Fault r, a) →
  onSendWrapper h id msg w
  = (Ok false,
     recovered w (CbOnSend id msg)
       "[Recovery OnWriteText] panic recovered:\n%s\n\n" r a).
Proof.
  intros H. unfold onSendWrapper, recovered. unfold_go. simpl. rewrite H.
  simpl. unfold record, set_app. simpl. by rewrite <- app_assoc.
Qed.

Lemma onTextWrapper_returns id msg (w : W) a :
  OnText h id msg (app w) = (Ok tt, a) →
  onTextWrapper h id msg w = (Ok tt, returned w (CbOnText id msg) a).
Proof.
  intros H. unfold onTextWrapper. unfold_go. simpl. rewrite H. reflexivity.
Qed.

Lemma onTextWrapper_recovers id msg (w : W) r a :
  OnText h id msg (app w) = (Fault r, a) →
  onTextWrapper h id msg w
  = (Ok tt,
     recovered w (CbOnText id msg)
       "[Recovery OnText] panic recovered:\n%s\n\n" r a).
Proof.
  intros H. unfold onTextWrapper, recovered. unfold_go. simpl. rewrite H.
  simpl. unfold record, set_app. simpl. by rewrite <- app_assoc.
Qed.

Lemma onOfflineWrapper_returns id (w : W) a :
  OnOffline h id (app w) = (Ok tt, a) →
  onOfflineWrapper h id w = (Ok tt, returned w (CbOnOffline id) a).
Proof.
  intros H. unfold onOfflineWrapper. unfold_go. simpl. rewrite H. reflexivity.
Qed.

Lemma onOfflineWrapper_recovers id (w : W) r a :
  OnOffline h id (app w) = (Fault r, a) →
  onOfflineWrapper h id w
  = (Ok tt,
     recovered w (CbOnOffline id)
       "[Recovery OnOffline] panic recovered:\n%s\n\n" r a).
Proof.
  intros H. unfold onOfflineWrapper, recovered. unfold_go. simpl. rewrite H.
  simpl. unfold record, set_app. simpl. by rewrite <- app_assoc.
Qed.

Lemma onOnlineWrapper_returns id wg (w : W) a :
  (0 < wg)%Z →
  OnOnline h id (app w) = (Ok tt, a) →
  onOnlineWrapper h id wg w = (Ok (wg - 1)%Z, returned w (CbOnOnline id) a).
Proof.
  intros Hwg H. unfold onOnlineWrapper. unfold_go. simpl. rewrite H.
  case_decide; [lia | reflexivity].
Qed.

Lemma onOnlineWrapper_recovers id wg (w : W) r a :
  (0 < wg)%Z →
  OnOnline h id (app w) = (Fault r, a) →
  onOnlineWrapper h id wg w
  = (Ok (wg - 1)%Z,
     recovered w (CbOnOnline id)
       "[Recovery OnOnline] panic recovered:\n%s\n\n" r a).
Proof.
  intros Hwg H. unfold onOnlineWrapper, recovered. unfold_go. simpl.
  rewrite H. simpl. case_decide; [lia |].
  unfold record, set_app. simpl. by rewrite <- app_assoc.
Qed.

(** Whatever the callback does, the wrapper returns. *)
Lemma onAuthWrapper_total token (w : W) :
  ∃ v w', onAuthWrapper h token w = (Ok v, w')
          ∧ conns w' = conns w ∧ net w' = net w.
Proof.
  destruct (OnAuth h token (app w)) as [[v|r] a] eqn:E.
  - eexists _, _. split; [by apply onAuthWrapper_returns|done].
  - eexists _, _. split; [by apply onAuthWrapper_recovers|done].
Qed.

Lemma onSendWrapper_total id msg (w : W) :
  ∃ v w', onSendWrapper h id msg w = (Ok v, w')
          ∧ conns w' = conns w ∧ net w' = net w.
Proof.
  destruct (OnSend h id msg (app w)) as [[v|r] a] eqn:E.
  - eexists _, _. split; [by apply onSendWrapper_returns|done].
  - eexists _, _. split; [by apply onSendWrapper_recovers|done].
Qed.

Lemma onTextWrapper_total id msg (w : W) :
  ∃ w', onTextWrapper h id msg w = (Ok tt, w')
        ∧ conns w' = conns w ∧ net w' = net w.
Proof.
  destruct (OnText h id msg (app w)) as [[[]|r] a] eqn:E.
  - eexists. split; [by apply onTextWrapper_returns|done].
  - eexists. split; [by apply onTextWrapper_recovers|done].
Qed.

Lemma onOfflineWrapper_total id (w : W) :
  ∃ w', onOfflineWrapper h id w = (Ok tt, w')
        ∧ conns w' = conns w ∧ net w' = net w.
Proof.
  destruct (OnOffline h id (app w)) as [[[]|r] a] eqn:E.
  - eexists. split; [by apply onOfflineWrapper_returns|done].
  - eexists. split; [by apply onOfflineWrapper_recovers|done].
Qed.

Lemma onOnlineWrapper_total id wg (w : W) :
  (0 < wg)%Z →
  ∃ w', onOnlineWrapper h id wg w = (Ok (wg - 1)%Z, w')
        ∧ conns w' = conns w ∧ net w' = net w.
Proof.
  intros Hwg. destruct (OnOnline h id (app w)) as [[[]|r] a] eqn:E.
  - eexists. split; [by apply onOnlineWrapper_returns|done].
  - eexists. split; [by apply onOnlineWrapper_recovers|done].
Qed.

End WrapperFacts.

(** ** Strings *)

Lemma substring_all s : String.substring 0 (String.length s) s = s.
Proof. induction s as [|c s IH]; simpl; [done | by rewrite IH]. Qed.

Lemma append_cons c s r :
  String.append (String c s) r = String c (String.append s r).
Proof. reflexivity. Qed.

Lemma append_nil r : String.append "" r = r.
Proof. reflexivity. Qed.

Lemma HasPrefix_append v pre :
  HasPrefix v pre = true → ∃ rest, v = String.append pre rest.
Proof.
  unfold HasPrefix. revert v. induction pre as [|c pre IH]; intros v H.
  - by exists v.
  - destruct v as [|c' v]; simpl in H; [done |].
    destruct (ascii_dec c c') as [->|]; [| done].
    destruct (IH v H) as [rest ->]. by exists rest.
Qed.

Lemma HasPrefix_of_append pre rest :
  HasPrefix (String.append pre rest) pre = true.
Proof.
  unfold HasPrefix. induction pre as [|c pre IH]; simpl.
  - by destruct rest.
  - destruct (ascii_dec c c); [done | congruence].
Qed.

(** The second piece of the split is all that follows the scheme and its
    space, further spaces included. *)
Lemma SplitN_Bearer rest :
  SplitN (String.append "Bearer " rest) " " 2 = ["Bearer"; rest].
Proof.
  rewrite !append_cons, append_nil. unfold SplitN.
  replace (index 0 " " _) with (Some 6)
    by (destruct rest; vm_compute; reflexivity).
  simpl. by rewrite Nat.sub_0_r, substring_all.
Qed.

Lemma SplitN_Basic rest :
  SplitN (String.append "Basic " rest) " " 2 = ["Basic"; rest].
Proof.
  rewrite !append_cons, append_nil. unfold SplitN.
  replace (index 0 " " _) with (Some 5)
    by (destruct rest; vm_compute; reflexivity).
  simpl. by rewrite Nat.sub_0_r, substring_all.
Qed.

(** ** The handshake *)

Section HandshakeFacts.
Context {App Net : Type}.
Variable h : Handlers App.
Variable url : UrlPkg.

Abbreviation W := (World App Net).

Lemma OnRequest_no_token u id (w : W) :
  query_token url u = None →
  OnRequest h url u id w = (Ok (id, None), w).
Proof.
  unfold query_token, OnRequest. intros H.
  destruct (Parse url u) as [p|]; [| done].
  case_bool_decide; [| done].
  destruct (ParseQuery url (RawQuery p)) as [m|]; [| done].
  by rewrite H.
Qed.

Lemma OnRequest_token u id (w : W) t ts :
  query_token url u = Some (t :: ts) →
  OnRequest h url u id w = (res <- onAuthWrapper h t;; answer res) w.
Proof.
  unfold query_token, OnRequest. intros H.
  destruct (Parse url u) as [p|]; [| done].
  case_bool_decide; [| done].
  destruct (ParseQuery url (RawQuery p)) as [m|]; [| done].
  rewrite H. reflexivity.
Qed.

Lemma OnHeader_resolved key value id (w : W) :
  id ≠ 0%N → OnHeader h key value id w = (Ok (id, None), w).
Proof. intros H. unfold OnHeader. by rewrite bool_decide_eq_false_2. Qed.

Lemma OnHeader_other key value id (w : W) :
  key ≠ "Authorization" → OnHeader h key value id w = (Ok (id, None), w).
Proof.
  intros H. unfold OnHeader.
  by rewrite (bool_decide_eq_false_2 (key = _)), andb_false_r.
Qed.

Lemma OnHeader_bad value (w : W) :
  HasPrefix value "Bearer " = false → HasPrefix value "Basic " = false →
  OnHeader h "Authorization" value 0%N w
  = (Ok (0%N, Some ErrBadAuthHeader), w).
Proof. intros H1 H2. unfold OnHeader. simpl. by rewrite H1, H2. Qed.

Lemma OnHeader_scheme s cred (w : W) :
  scheme s →
  OnHeader h "Authorization" (String.append s cred) 0%N w
  = (res <- onAuthWrapper h cred;; answer res) w.
Proof.
  intros [-> | ->]; unfold OnHeader; simpl bool_decide; cbv iota; simpl andb.
  - rewrite HasPrefix_of_append. simpl orb. cbv iota.
    rewrite SplitN_Bearer. reflexivity.
  - rewrite HasPrefix_of_append, orb_true_r.
    rewrite SplitN_Basic. reflexivity.
Qed.

Lemma on_headers_resolved hs i id (w : W) :
  id ≠ 0%N → on_headers h hs i id w = (Ok (id, None), w).
Proof.
  intros H. revert i. induction hs as [|[k v] hs IH]; intros i; [done |].
  simpl. unfold bind at 1. rewrite OnHeader_resolved by done. simpl. apply IH.
Qed.

Lemma on_headers_no_authorization hs i id (w : W) :
  no_authorization hs → on_headers h hs i id w = (Ok (id, None), w).
Proof.
  intros H. revert i. induction H as [|[k v] hs Hk _ IH]; intros i; [done |].
  simpl. unfold bind at 1. rewrite OnHeader_other by done. simpl. apply IH.
Qed.

Lemma on_headers_skip pre hs i id (w : W) :
  no_authorization pre →
  on_headers h (pre ++ hs) i id w = on_headers h hs (i + length pre) id w.
Proof.
  intros H. revert i. induction H as [|[k v] pre Hk _ IH]; intros i.
  - simpl. by rewrite Nat.add_0_r.
  - simpl. unfold bind at 1. rewrite OnHeader_other by done. simpl.
    rewrite IH. f_equal. lia.
Qed.

(** The checkpoint, after hooks that returned no error. *)
Lemma Upgrade_after_hooks req (w w' : W) id :
  run_hooks h url req w = (Ok (id, None), w') →
  Upgrade h url req w
  = (Ok (id, if bool_decide (id = 0%N)
             then Some (AtBeforeUpgrade, ErrNotAuth) else None), w').
Proof.
  intros H. unfold Upgrade, bind. rewrite H. simpl.
  unfold OnBeforeUpgrade. by case_bool_decide.
Qed.

Lemma Upgrade_hook_error req (w w' : W) id e :
  run_hooks h url req w = (Ok (id, Some e), w') →
  Upgrade h url req w = (Ok (id, Some e), w').
Proof. intros H. unfold Upgrade, bind. by rewrite H. Qed.

(** The hooks on a request whose target carries the token [t]. *)
Lemma run_hooks_token req (w : W) t ts :
  query_token url (uri req) = Some (t :: ts) →
  run_hooks h url req w
  = match onAuthWrapper h t w with
    | (Ok (id, true), w') => on_headers h (headers req) 0 id w'
    | (Ok (id, false), w') => (Ok (id, Some (AtRequest, ErrAuthFailed)), w')
    | (Fault r, w') => (Fault r, w')
    end.
Proof.
  intros H. unfold run_hooks. unfold bind at 1.
  rewrite (OnRequest_token _ _ _ _ _ H). unfold bind at 1.
  destruct (onAuthWrapper h t w) as [[[id [|]]|r] w']; reflexivity.
Qed.

(** The hooks on a request without token whose first [Authorization] header
    is [v]. *)
Lemma run_hooks_header req (w : W) pre v post :
  query_token url (uri req) = None →
  headers req = pre ++ ("Authorization", v) :: post →
  no_authorization pre →
  run_hooks h url req w
  = (r <- OnHeader h "Authorization" v 0%N;;
     match snd r with
     | Some err => ret (fst r, Some (AtHeader (length pre), err))
     | None => on_headers h post (S (length pre)) (fst r)
     end) w.
Proof.
  intros Hq Hh Hpre. unfold run_hooks. unfold bind at 1.
  rewrite OnRequest_no_token by done. simpl.
  rewrite Hh, on_headers_skip by done. reflexivity.
Qed.

End HandshakeFacts.

Section HandshakeClaims.
Context {App Net : Type}.
Variable h : Handlers App.
Variable url : UrlPkg.

Abbreviation W := (World App Net).

(** C6.  A handshake whose hooks have all passed without resolving an
    identity ([id] still [0] at [OnBeforeUpgrade]) is refused there with
    [ErrNotAuth], and no handshake is accepted with identity [0].  An
    [OnAuth] that answers [(0, true)], for the token of the request target
    or for the credential of the [Authorization] header, leaves the
    handshake unauthenticated: it is refused at that checkpoint.  A request
    with no token and no [Authorization] header passes every earlier hook,
    without a call of the application, and is refused at the checkpoint
    only. *)
Theorem unresolved_identity_rejected_at_checkpoint :
  (∀ req (w w' : W),
      run_hooks h url req w = (Ok (0%N, None), w') →
      Upgrade h url req w
      = (Ok (0%N, Some (AtBeforeUpgrade, ErrNotAuth)), w'))
  ∧ (∀ req (w w' : W) id,
      Upgrade h url req w = (Ok (id, None), w') → id ≠ 0%N)
  ∧ (∀ req (w : W) t ts a,
      query_token url (uri req) = Some (t :: ts) →
      no_authorization (headers req) →
      OnAuth h t (app w) = (Ok (0%N, true), a) →
      Upgrade h url req w
      = (Ok (0%N, Some (AtBeforeUpgrade, ErrNotAuth)),
         returned w (CbOnAuth t) a))
  ∧ (∀ req (w : W) pre s cred post a,
      query_token url (uri req) = None →
      headers req = pre ++ ("Authorization", String.append s cred) :: post →
      no_authorization pre → no_authorization post → scheme s →
      OnAuth h cred (app w) = (Ok (0%N, true), a) →
      Upgrade h url req w
      = (Ok (0%N, Some (AtBeforeUpgrade, ErrNotAuth)),
         returned w (CbOnAuth cred) a))
  ∧ (∀ req (w : W),
      query_token url (uri req) = None →
      no_authorization (headers req) →
      run_hooks h url req w = (Ok (0%N, None), w)
      ∧ Upgrade h url req w
        = (Ok (0%N, Some (AtBeforeUpgrade, ErrNotAuth)), w)).
Proof.
  split_and!.
  - intros req w w' H. by rewrite (Upgrade_after_hooks _ _ _ _ _ _ H).
  - intros req w w' id H. unfold Upgrade, bind, ret, OnBeforeUpgrade in H.
    destruct (run_hooks h url req w) as [[[id' [e|]]|r] w1]; simpl in H;
      try congruence.
    case_bool_decide; simpl in H; congruence.
  - intros req w t ts a Hq Hh Ha.
    apply (Upgrade_after_hooks h url req w _ 0%N).
    rewrite (run_hooks_token _ _ _ _ _ _ Hq).
    rewrite (onAuthWrapper_returns _ _ _ _ _ Ha).
    by apply on_headers_no_authorization.
  - intros req w pre s cred post a Hq Hh Hpre Hpost Hs Ha.
    apply (Upgrade_after_hooks h url req w _ 0%N).
    rewrite (run_hooks_header _ _ _ _ _ _ _ Hq Hh Hpre).
    unfold bind at 1. rewrite OnHeader_scheme by done.
    unfold bind at 1. rewrite (onAuthWrapper_returns _ _ _ _ _ Ha). simpl.
    by apply on_headers_no_authorization.
  - intros req w Hq Hh.
    assert (run_hooks h url req w = (Ok (0%N, None), w)) as H.
    { unfold run_hooks. unfold bind at 1. rewrite OnRequest_no_token by done.
      simpl. by apply on_headers_no_authorization. }
    split; [done |]. by rewrite (Upgrade_after_hooks _ _ _ _ _ _ H).
Qed.

(** C7.  The sources of the credential are tried in the order the handshake
    presents them and the first that resolves an identity wins.  (1) The
    query parameter [token] comes first: when [OnAuth] resolves it the
    handshake is accepted with that identity after this one call, whatever
    the headers are.  (2) Without token, the first [Authorization] header
    with scheme [Bearer ] or [Basic ] gives the rest of its value, as it
    stands, to [OnAuth]; later headers are ignored.  (3) Without token, a
    first [Authorization] header with neither scheme is refused with
    [ErrBadAuthHeader] and the application is not called.  (4) [OnHeader]
    ignores every header once the identity is resolved, and (5) refuses an
    [Authorization] header with neither scheme while it is not. *)
Theorem credential_sources_first_match :
  (∀ req (w : W) t ts id a,
      query_token url (uri req) = Some (t :: ts) →
      OnAuth h t (app w) = (Ok (id, true), a) → id ≠ 0%N →
      Upgrade h url req w = (Ok (id, None), returned w (CbOnAuth t) a))
  ∧ (∀ req (w : W) pre s cred post id a,
      query_token url (uri req) = None →
      headers req = pre ++ ("Authorization", String.append s cred) :: post →
      no_authorization pre → scheme s →
      OnAuth h cred (app w) = (Ok (id, true), a) → id ≠ 0%N →
      Upgrade h url req w = (Ok (id, None), returned w (CbOnAuth cred) a))
  ∧ (∀ req (w : W) pre v post,
      query_token url (uri req) = None →
      headers req = pre ++ ("Authorization", v) :: post →
      no_authorization pre →
      HasPrefix v "Bearer " = false → HasPrefix v "Basic " = false →
      Upgrade h url req w
      = (Ok (0%N, Some (AtHeader (length pre), ErrBadAuthHeader)), w))
  ∧ (∀ key value id (w : W),
      id ≠ 0%N → OnHeader h key value id w = (Ok (id, None), w))
  ∧ (∀ value (w : W),
      HasPrefix value "Bearer " = false → HasPrefix value "Basic " = false →
      OnHeader h "Authorization" value 0%N w
      = (Ok (0%N, Some ErrBadAuthHeader), w)).
Proof.
  split_and!.
  - intros req w t ts id a Hq Ha Hid.
    rewrite (Upgrade_after_hooks h url req w (returned w (CbOnAuth t) a) id).
    + by rewrite bool_decide_eq_false_2.
    + rewrite (run_hooks_token _ _ _ _ _ _ Hq).
      rewrite (onAuthWrapper_returns _ _ _ _ _ Ha).
      by apply on_headers_resolved.
  - intros req w pre s cred post id a Hq Hh Hpre Hs Ha Hid.
    rewrite (Upgrade_after_hooks h url req w (returned w (CbOnAuth cred) a) id).
    + by rewrite bool_decide_eq_false_2.
    + rewrite (run_hooks_header _ _ _ _ _ _ _ Hq Hh Hpre).
      unfold bind at 1. rewrite OnHeader_scheme by done.
      unfold bind at 1. rewrite (onAuthWrapper_returns _ _ _ _ _ Ha). simpl.
      by apply on_headers_resolved.
  - intros req w pre v post Hq Hh Hpre H1 H2.
    apply Upgrade_hook_error.
    rewrite (run_hooks_header _ _ _ _ _ _ _ Hq Hh Hpre).
    unfold bind at 1. by rewrite OnHeader_bad.
  - intros. by apply OnHeader_resolved.
  - intros. by apply OnHeader_bad.
Qed.

End HandshakeClaims.

Section FaultClaims.
Context {App Net : Type}.
Variable h : Handlers App.
Variable url : UrlPkg.

Abbreviation W := (World App Net).

(** C10.  Every call of an application callback goes through its wrapper,
    and a wrapper returns whatever the callback does: no panic of a callback
    leaves it, and the registry and the network are as the callback found
    them.  When the callback panics with [r], the wrapper logs [r] and
    returns the default: [(0, false)] for [OnAuth], [false] for [OnSend],
    nothing for [OnOnline] (whose wait group is still released), [OnText]
    and [OnOffline].  In the handshake an [OnAuth] that panics, on the token
    of the request target or on the credential of the [Authorization]
    header, therefore refuses the upgrade with [ErrAuthFailed]. *)
Theorem callback_panics_are_contained :
  (∀ token (w : W), ∃ v w',
      onAuthWrapper h token w = (Ok v, w')
      ∧ conns w' = conns w ∧ net w' = net w)
  ∧ (∀ id wg (w : W), (0 < wg)%Z → ∃ w',
      onOnlineWrapper h id wg w = (Ok (wg - 1)%Z, w')
      ∧ conns w' = conns w ∧ net w' = net w)
  ∧ (∀ id msg (w : W), ∃ w',
      onTextWrapper h id msg w = (Ok tt, w')
      ∧ conns w' = conns w ∧ net w' = net w)
  ∧ (∀ id msg (w : W), ∃ v w',
      onSendWrapper h id msg w = (Ok v, w')
      ∧ conns w' = conns w ∧ net w' = net w)
  ∧ (∀ id (w : W), ∃ w',
      onOfflineWrapper h id w = (Ok tt, w')
      ∧ conns w' = conns w ∧ net w' = net w)
  ∧ (∀ token (w : W) r a,
      OnAuth h token (app w) = (Fault r, a) →
      onAuthWrapper h token w
      = (Ok (0%N, false),
         recovered w (CbOnAuth token)
           "[Recovery OnAuth] panic recovered:\n%s\n\n" r a))
  ∧ (∀ id wg (w : W) r a,
      (0 < wg)%Z →
      OnOnline h id (app w) = (Fault r, a) →
      onOnlineWrapper h id wg w
      = (Ok (wg - 1)%Z,
         recovered w (CbOnOnline id)
           "[Recovery OnOnline] panic recovered:\n%s\n\n" r a))
  ∧ (∀ id msg (w : W) r a,
      OnText h id msg (app w) = (Fault r, a) →
      onTextWrapper h id msg w
      = (Ok tt,
         recovered w (CbOnText id msg)
           "[Recovery OnText] panic recovered:\n%s\n\n" r a))
  ∧ (∀ id msg (w : W) r a,
      OnSend h id msg (app w) = (Fault r, a) →
      onSendWrapper h id msg w
      = (Ok false,
         recovered w (CbOnSend id msg)
           "[Recovery OnWriteText] panic recovered:\n%s\n\n" r a))
  ∧ (∀ id (w : W) r a,
      OnOffline h id (app w) = (Fault r, a) →
      onOfflineWrapper h id w
      = (Ok tt,
         recovered w (CbOnOffline id)
           "[Recovery OnOffline] panic recovered:\n%s\n\n" r a))
  ∧ (∀ req (w : W) t ts r a,
      query_token url (uri req) = Some (t :: ts) →
      OnAuth h t (app w) = (Fault r, a) →
      Upgrade h url req w
      = (Ok (0%N, Some (AtRequest, ErrAuthFailed)),
         recovered w (CbOnAuth t)
           "[Recovery OnAuth] panic recovered:\n%s\n\n" r a))
  ∧ (∀ req (w : W) pre s cred post r a,
      query_token url (uri req) = None →
      headers req = pre ++ ("Authorization", String.append s cred) :: post →
      no_authorization pre → scheme s →
      OnAuth h cred (app w) = (Fault r, a) →
      Upgrade h url req w
      = (Ok (0%N, Some (AtHeader (length pre), ErrAuthFailed)),
         recovered w (CbOnAuth cred)
           "[Recovery OnAuth] panic recovered:\n%s\n\n" r a)).
Proof.
  split_and!.
  - apply onAuthWrapper_total.
  - apply onOnlineWrapper_total.
  - apply onTextWrapper_total.
  - apply onSendWrapper_total.
  - apply onOfflineWrapper_total.
  - apply onAuthWrapper_recovers.
  - apply onOnlineWrapper_recovers.
  - apply onTextWrapper_recovers.
  - apply onSendWrapper_recovers.
  - apply onOfflineWrapper_recovers.
  - intros req w t ts r a Hq Ha. apply Upgrade_hook_error.
    rewrite (run_hooks_token _ _ _ _ _ _ Hq).
    by rewrite (onAuthWrapper_recovers _ _ _ _ _ Ha).
  - intros req w pre s cred post r a Hq Hh Hpre Hs Ha.
    apply Upgrade_hook_error.
    rewrite (run_hooks_header _ _ _ _ _ _ _ Hq Hh Hpre).
    unfold bind at 1. rewrite OnHeader_scheme by done.
    unfold bind at 1. by rewrite (onAuthWrapper_recovers _ _ _ _ _ Ha).
Qed.

End FaultClaims.

(** ** The registry *)

Lemma replay_snoc t e : replay (t ++ [e]) = replay_event (replay t) e.
Proof. unfold replay. by rewrite fold_left_app. Qed.

Lemma replay_quiet t t' : Forall quiet_event t' → replay (t ++ t') = replay t.
Proof.
  intros H. revert t. induction H as [|e t' He _ IH]; intros t.
  - by rewrite app_nil_r.
  - rewrite (cons_middle e t t'), app_assoc, IH, replay_snoc.
    by destruct e.
Qed.

Lemma closed_before_overwrite_nil : closed_before_overwrite [].
Proof. intros [|? ?] ? ? ? ? H; discriminate H. Qed.

Lemma closed_before_overwrite_snoc t e :
  closed_before_overwrite t →
  (∀ id (c1 c2 : Conn),
      e = EvStore id c2 → replay t !! id = Some c1 → c1 ≠ c2 →
      EvClose c1 ∈ t) →
  closed_before_overwrite (t ++ [e]).
Proof.
  intros Ht He t1 t2 id c1 c2 Heq Hr Hne.
  destruct (decide (t2 = [])) as [-> | Hnil].
  - apply app_inj_tail in Heq as [-> ->]. by eapply He.
  - destruct (exists_last Hnil) as (t2' & x & ->).
    rewrite app_comm_cons, app_assoc in Heq.
    apply app_inj_tail in Heq as [-> _]. by eapply Ht.
Qed.

Lemma closed_before_overwrite_quiet t t' :
  closed_before_overwrite t → Forall quiet_event t' →
  closed_before_overwrite (t ++ t').
Proof.
  intros Ht H. revert t Ht. induction H as [|e t' He _ IH]; intros t Ht.
  - by rewrite app_nil_r.
  - rewrite (cons_middle e t t'), app_assoc. apply IH.
    apply closed_before_overwrite_snoc; [done |].
    intros id c1 c2 ->. destruct He.
Qed.

Section RegistryFacts.
Context {App Net : Type}.
Variable h : Handlers App.
Variable tp : Transport Net.

Abbreviation W := (World App Net).

Lemma upsert_fresh id conn (w : W) :
  conns w !! id = None →
  upsert tp id conn w
  = (Ok tt, Build_World (<[id:=conn]> (conns w)) (app w) (net w)
              (trace w ++ [EvStore id conn])).
Proof. intros H. unfold upsert. unfold_go. simpl. by rewrite H. Qed.

Lemma upsert_same id conn (w : W) :
  conns w !! id = Some conn →
  upsert tp id conn w
  = (Ok tt, Build_World (<[id:=conn]> (conns w)) (app w) (net w)
              (trace w ++ [EvStore id conn])).
Proof.
  intros H. unfold upsert. unfold_go. simpl. rewrite H.
  by rewrite bool_decide_eq_false_2 by naive_solver.
Qed.

Lemma upsert_evicts id conn existConn (w : W) err n :
  conns w !! id = Some existConn → existConn ≠ conn →
  Close tp existConn (net w) = (err, n) →
  upsert tp id conn w
  = (Ok tt, Build_World (<[id:=conn]> (conns w)) (app w) n
              (trace w ++ (EvClose existConn :: close_log err)
                 ++ [EvStore id conn])).
Proof.
  intros H Hne Hc. unfold upsert. unfold_go. simpl. rewrite H.
  rewrite bool_decide_eq_true_2 by done. simpl. rewrite Hc.
  destruct err; simpl; unfold record, set_conns; simpl;
    by rewrite <- ?app_assoc.
Qed.

Lemma registry_inv_quiet (w w' : W) t :
  registry_inv w → conns w' = conns w → trace w' = trace w ++ t →
  Forall quiet_event t → registry_inv w'.
Proof.
  intros [H1 H2] Hc Ht Hq. split.
  - by rewrite Hc, Ht, replay_quiet.
  - rewrite Ht. by apply closed_before_overwrite_quiet.
Qed.

Lemma registry_inv_upsert id conn (w : W) :
  registry_inv w → registry_inv (exec (upsert tp id conn) w).
Proof.
  intros [H1 H2].
  destruct (conns w !! id) as [c|] eqn:E;
    [destruct (decide (c = conn)) as [-> | Hne] |].
  - unfold exec. rewrite upsert_same by done. simpl. split; simpl.
    + by rewrite replay_snoc, <- H1.
    + apply closed_before_overwrite_snoc; [done |].
      intros i c1 c2 [= -> ->] Hr Hne. congruence.
  - destruct (Close tp c (net w)) as [err n] eqn:Hc.
    unfold exec. rewrite (upsert_evicts _ _ _ _ _ _ E Hne Hc).
    unfold registry_inv. cbn [snd conns trace].
    set (q := EvClose c :: close_log err).
    assert (Forall quiet_event q) as Hq.
    { subst q. destruct err; repeat constructor. }
    rewrite (app_assoc (trace w) q). split.
    + rewrite replay_snoc, replay_quiet by done. by rewrite <- H1.
    + apply closed_before_overwrite_snoc.
      * by apply closed_before_overwrite_quiet.
      * intros i c1 c2 [= -> ->] Hr Hne'.
        rewrite replay_quiet in Hr by done.
        rewrite <- H1, E in Hr. injection Hr as <-.
        apply elem_of_app. right. subst q. apply list_elem_of_here.
  - unfold exec. rewrite upsert_fresh by done. simpl. split; simpl.
    + by rewrite replay_snoc, <- H1.
    + apply closed_before_overwrite_snoc; [done |].
      intros i c1 c2 [= -> ->] Hr Hne. congruence.
Qed.

End RegistryFacts.

Section RegistryClaims.
Context {App Net : Type}.
Variable h : Handlers App.
Variable tp : Transport Net.

Abbreviation W := (World App Net).

Lemma quiet_ret {A} (a : A) : @quiet App Net _ (ret a).
Proof. intros w. split; [done |]. exists []. by rewrite app_nil_r. Qed.

Lemma quiet_bind {A B} (m : M W A) (k : A → M W B) :
  quiet m → (∀ a, @quiet App Net _ (k a)) → @quiet App Net _ (bind m k).
Proof.
  intros Hm Hk w. destruct (Hm w) as (Hc & t & Ht & Hq).
  unfold exec, bind in *. destruct (m w) as [[a|r] w1]; simpl in *.
  - destruct (Hk a w1) as (Hc' & t' & Ht' & Hq'). unfold exec in *. split.
    + congruence.
    + exists (t ++ t'). rewrite Ht', Ht, app_assoc. split; [done |].
      by apply Forall_app.
  - split; [done |]. by exists t.
Qed.

Lemma quiet_emit e : quiet_event e → @quiet App Net _ (emit e).
Proof. intros He w. split; [done |]. exists [e]. split; [done |]. by constructor. Qed.

Lemma quiet_gets {A} (f : W → A) : @quiet App Net _ (gets f).
Proof. intros w. split; [done |]. exists []. by rewrite app_nil_r. Qed.

Lemma quiet_call {A} cb (f : App → outcome A * App) : @quiet App Net _ (call cb f).
Proof.
  intros w. unfold exec, call. simpl. destruct (f (app w)) as [r a]. simpl.
  split; [done |]. exists [EvCall cb]. split; [done |]. by repeat constructor.
Qed.

Lemma quiet_transport {A} e (f : Net → A * Net) :
  quiet_event e → @quiet App Net _ (transport e f).
Proof.
  intros He w. unfold exec, transport. simpl. destruct (f (net w)) as [r n].
  simpl. split; [done |]. exists [e]. split; [done |]. by constructor.
Qed.

Lemma quiet_with_recover {A} (zero : A) body deferred :
  quiet body → (∀ r a, @quiet App Net _ (deferred r a)) →
  @quiet App Net _ (with_recover zero body deferred).
Proof.
  intros Hb Hd w. destruct (Hb w) as (Hc & t & Ht & Hq).
  unfold exec, with_recover in *. destruct (body w) as [[a|r] w1]; simpl in *.
  - split; [done |]. by exists t.
  - destruct (Hd r zero w1) as (Hc' & t' & Ht' & Hq'). unfold exec in *. split.
    + congruence.
    + exists (t ++ t'). rewrite Ht', Ht, app_assoc. split; [done |].
      by apply Forall_app.
Qed.

Lemma quiet_onSendWrapper id msg : @quiet App Net _ (onSendWrapper h id msg).
Proof.
  apply quiet_with_recover; [apply quiet_call |].
  intros r a. apply quiet_bind; [by apply quiet_emit | intros; apply quiet_ret].
Qed.

Lemma quiet_WriteMessage id msg : @quiet App Net _ (WriteMessage h tp id msg).
Proof.
  apply quiet_bind; [apply quiet_onSendWrapper |]. intros [|]; [| apply quiet_ret].
  apply quiet_bind; [apply quiet_gets |]. intros cs.
  destruct (cs !! id) as [c|].
  - apply quiet_bind; [by apply quiet_transport |]. intros err.
    apply quiet_bind; [| intros; apply quiet_ret].
    destruct err; [by apply quiet_emit | apply quiet_ret].
  - apply quiet_bind; [by apply quiet_emit | intros; apply quiet_ret].
Qed.

Lemma quiet_CloseConnection id : @quiet App Net _ (CloseConnection tp id).
Proof.
  apply quiet_bind; [apply quiet_gets |]. intros cs.
  destruct (cs !! id) as [c|].
  - apply quiet_bind; [by apply quiet_transport |]. intros _.
    by apply quiet_transport.
  - apply quiet_bind; [by apply quiet_emit | intros; apply quiet_ret].
Qed.

Lemma remove_if_registered_matched id conn (w : W) :
  conns w !! id = Some conn →
  remove_if_registered id conn w
  = (Ok true, Build_World (delete id (conns w)) (app w) (net w)
                (trace w ++ [EvDelete id])).
Proof.
  intros H. unfold remove_if_registered, registered. unfold_go. simpl.
  by rewrite bool_decide_eq_true_2.
Qed.

Lemma remove_if_registered_superseded id conn (w : W) :
  conns w !! id ≠ Some conn →
  remove_if_registered id conn w = (Ok false, w).
Proof.
  intros H. unfold remove_if_registered, registered. unfold_go. simpl.
  by rewrite bool_decide_eq_false_2.
Qed.

Lemma registry_inv_perform o (w : W) :
  registry_inv w → registry_inv (exec (perform h tp o) w).
Proof.
  intros Hw. destruct o as [id c | id c | c | id msg | id]; simpl.
  - by apply registry_inv_upsert.
  - destruct (decide (conns w !! id = Some c)) as [E | E].
    + unfold exec, bind. rewrite remove_if_registered_matched by done. simpl.
      destruct Hw as [H1 H2]. split; simpl.
      * by rewrite replay_snoc, <- H1.
      * apply closed_before_overwrite_snoc; [done |]. by intros.
    + unfold exec, bind. by rewrite remove_if_registered_superseded.
  - assert (@quiet App Net _ (close_conn tp c;; ret tt)) as Hq.
    { apply quiet_bind; [by apply quiet_transport | intros; apply quiet_ret]. }
    destruct (Hq w) as (Hc & t & Ht & Hqt). by eapply registry_inv_quiet.
  - assert (@quiet App Net _ (WriteMessage h tp id msg;; ret tt)) as Hq.
    { apply quiet_bind; [apply quiet_WriteMessage | intros; apply quiet_ret]. }
    destruct (Hq w) as (Hc & t & Ht & Hqt). by eapply registry_inv_quiet.
  - assert (@quiet App Net _ (CloseConnection tp id;; ret tt)) as Hq.
    { apply quiet_bind; [apply quiet_CloseConnection | intros; apply quiet_ret]. }
    destruct (Hq w) as (Hc & t & Ht & Hqt). by eapply registry_inv_quiet.
Qed.

Lemma registry_inv_perform_all os (w : W) :
  registry_inv w → registry_inv (perform_all h tp os w).
Proof.
  revert w. induction os as [|o os IH]; intros w Hw; [done |].
  simpl. apply IH. by apply registry_inv_perform.
Qed.

(** C1.  In every world the operations on the registry reach from a started
    server: the registry maps an identity to at most one connection; it is
    what the stores and deletes of the trace leave; and no entry was ever
    overwritten by a different connection that was not closed before.
    [upsert] keeps this: when the identity is mapped to a different
    connection it closes that connection first, logs the error of the close
    if there is one, and then stores the new connection, returning normally
    in both cases; otherwise it only stores. *)
Theorem upsert_evicts_prior_connection :
  ∀ (os : list operation) (a : App) (n : Net),
    let w := perform_all h tp os (started a n) in
    (∀ id (c1 c2 : Conn),
        conns w !! id = Some c1 → conns w !! id = Some c2 → c1 = c2)
    ∧ conns w = replay (trace w)
    ∧ closed_before_overwrite (trace w)
    ∧ (∀ id conn existConn err n',
        conns w !! id = Some existConn → existConn ≠ conn →
        Close tp existConn (net w) = (err, n') →
        upsert tp id conn w
        = (Ok tt, Build_World (<[id:=conn]> (conns w)) (app w) n'
                    (trace w ++ (EvClose existConn :: close_log err)
                       ++ [EvStore id conn])))
    ∧ (∀ id conn,
        conns w !! id = None ∨ conns w !! id = Some conn →
        upsert tp id conn w
        = (Ok tt, Build_World (<[id:=conn]> (conns w)) (app w) (net w)
                    (trace w ++ [EvStore id conn]))).
Proof.
  intros os a n w.
  assert (registry_inv w) as [H1 H2].
  { apply registry_inv_perform_all. split; [done |].
    apply closed_before_overwrite_nil. }
  split_and!; try done.
  - congruence.
  - intros. by apply upsert_evicts.
  - intros id conn [H | H]; [by apply upsert_fresh | by apply upsert_same].
Qed.

End RegistryClaims.

(** ** [WriteMessage] *)

Section WriteMessageClaims.
Context {App Net : Type}.
Variable h : Handlers App.
Variable tp : Transport Net.

Abbreviation W := (World App Net).

Lemma WriteMessage_vetoed id msg (w : W) a :
  OnSend h id msg (app w) = (Ok false, a) →
  WriteMessage h tp id msg w = (Ok None, returned w (CbOnSend id msg) a).
Proof.
  intros H. unfold WriteMessage. unfold bind at 1.
  by rewrite (onSendWrapper_returns _ _ _ _ _ _ H).
Qed.

Lemma WriteMessage_panicked id msg (w : W) r a :
  OnSend h id msg (app w) = (Fault r, a) →
  WriteMessage h tp id msg w
  = (Ok None,
     recovered w (CbOnSend id msg)
       "[Recovery OnWriteText] panic recovered:\n%s\n\n" r a).
Proof.
  intros H. unfold WriteMessage. unfold bind at 1.
  by rewrite (onSendWrapper_recovers _ _ _ _ _ _ H).
Qed.

Lemma WriteMessage_not_found id msg (w : W) a :
  OnSend h id msg (app w) = (Ok true, a) →
  conns w !! id = None →
  WriteMessage h tp id msg w
  = (Ok (Some ErrConnNotFound),
     Build_World (conns w) a (net w)
       (trace w ++ [EvCall (CbOnSend id msg);
                    EvPrintf "Connection not found for device: %d\n"
                      [AUint id]])).
Proof.
  intros H Hc. unfold WriteMessage. unfold bind at 1.
  rewrite (onSendWrapper_returns _ _ _ _ _ _ H). unfold_go. simpl.
  rewrite Hc. simpl. unfold record. simpl. by rewrite <- app_assoc.
Qed.

Lemma WriteMessage_sent id msg (w : W) a conn err n :
  OnSend h id msg (app w) = (Ok true, a) →
  conns w !! id = Some conn →
  WriteServerMessage tp conn OpText msg (net w) = (err, n) →
  WriteMessage h tp id msg w
  = (Ok err,
     Build_World (conns w) a n
       (trace w ++ [EvCall (CbOnSend id msg); EvWrite conn OpText msg]
          ++ write_log id err)).
Proof.
  intros H Hc Hw. unfold WriteMessage. unfold bind at 1.
  rewrite (onSendWrapper_returns _ _ _ _ _ _ H). unfold_go. simpl.
  rewrite Hc. simpl. rewrite Hw.
  destruct err; simpl; unfold record, set_net; simpl;
    by rewrite <- ?app_assoc.
Qed.

(** C5.  [WriteMessage(id, msg)] calls [OnSend(id, msg)] first and calls no
    callback after it.  When [OnSend] returns [false] the result is [nil]
    and nothing else happened: no write, no log.  When it returns [true] and
    the registry has no entry for [id], the result is [ErrConnNotFound] and
    nothing was written.  When it returns [true] and the registry maps [id]
    to [conn], one text frame with [msg] is written to [conn] and the result
    is the error of that write. *)
Theorem WriteMessage_asks_OnSend_first :
  ∀ id msg (w : W),
    (∃ t, trace (exec (WriteMessage h tp id msg) w)
          = trace w ++ EvCall (CbOnSend id msg) :: t
          ∧ ∀ cb, EvCall cb ∉ t)
    ∧ (∀ a, OnSend h id msg (app w) = (Ok false, a) →
        WriteMessage h tp id msg w
        = (Ok None, returned w (CbOnSend id msg) a))
    ∧ (∀ a, OnSend h id msg (app w) = (Ok true, a) →
        conns w !! id = None →
        WriteMessage h tp id msg w
        = (Ok (Some ErrConnNotFound),
           Build_World (conns w) a (net w)
             (trace w ++ [EvCall (CbOnSend id msg);
                          EvPrintf "Connection not found for device: %d\n"
                            [AUint id]])))
    ∧ (∀ a conn err n, OnSend h id msg (app w) = (Ok true, a) →
        conns w !! id = Some conn →
        WriteServerMessage tp conn OpText msg (net w) = (err, n) →
        WriteMessage h tp id msg w
        = (Ok err,
           Build_World (conns w) a n
             (trace w ++ [EvCall (CbOnSend id msg); EvWrite conn OpText msg]
                ++ write_log id err))).
Proof.
  intros id msg w. split_and!.
  - unfold exec.
    destruct (OnSend h id msg (app w)) as [[[|]|r] a] eqn:E.
    + destruct (conns w !! id) as [conn|] eqn:Ec.
      * destruct (WriteServerMessage tp conn OpText msg (net w))
          as [err n] eqn:Ew.
        rewrite (WriteMessage_sent _ _ _ _ _ _ _ E Ec Ew). simpl.
        eexists. split; [done |]. intros cb.
        destruct err; simpl; not_in_list.
      * rewrite (WriteMessage_not_found _ _ _ _ E Ec). simpl.
        eexists. split; [done |]. intros cb. not_in_list.
    + rewrite (WriteMessage_vetoed _ _ _ _ E). simpl.
      eexists. split; [done |]. intros cb. not_in_list.
    + rewrite (WriteMessage_panicked _ _ _ _ _ E). simpl.
      eexists. split; [done |]. intros cb. not_in_list.
  - apply WriteMessage_vetoed.
  - apply WriteMessage_not_found.
  - apply WriteMessage_sent.
Qed.

End WriteMessageClaims.

(** ** The read loop *)

Section LoopClaims.
Context {App Net : Type}.
Variable tp : Transport Net.

Abbreviation W := (World App Net).

Lemma iteration_timer_idle id conn l (w : W) :
  afterPing l = false →
  iteration tp id conn l FromTimer w
  = (Ok (Continue {| afterPing := true; to := Armed TimeoutClose |}),
     logged w (net w)
       [EvGo (GoReadMessage conn); EvGo (GoWriteServerMessage conn OpPing [])]).
Proof.
  intros H. unfold iteration, logged. unfold_go. simpl. rewrite H. simpl.
  unfold record. simpl. by rewrite <- app_assoc.
Qed.

Lemma iteration_timer_awaiting id conn l (w : W) err n :
  afterPing l = true →
  WriteServerMessage tp conn OpClose [x03; xea] (net w) = (err, n) →
  iteration tp id conn l FromTimer w
  = (Ok (BreakReadLoop {| afterPing := true; to := Expired |}),
     logged w n
       [EvGo (GoReadMessage conn);
        EvPrintf "[%d] Ping timeout...\n" [AUint id];
        EvWrite conn OpClose [x03; xea]]).
Proof.
  intros H Hw. unfold iteration, logged. unfold_go. simpl. rewrite H. simpl.
  rewrite Hw. unfold record, set_net. simpl. by rewrite <- !app_assoc.
Qed.

Lemma iteration_frame id conn l msg (w : W) :
  Err msg = None → Op msg ≠ OpClose →
  iteration tp id conn l (FromChMsg msg) w
  = (Ok (Continue {| afterPing := false; to := Armed TimeoutPing |}),
     logged w (net w) (EvGo (GoReadMessage conn) :: dispatched id msg)).
Proof.
  intros He Hop. unfold iteration, logged, dispatched. unfold_go. simpl.
  rewrite He. repeat case_bool_decide; simpl; try done;
    unfold record; simpl; by rewrite <- ?app_assoc.
Qed.

Lemma iteration_close_frame id conn l msg (w : W) :
  Err msg = None → Op msg = OpClose →
  iteration tp id conn l (FromChMsg msg) w
  = (Ok (BreakReadLoop {| afterPing := afterPing l; to := Stopped |}),
     logged w (net w) [EvGo (GoReadMessage conn)]).
Proof.
  intros He Hop. unfold iteration, logged. unfold_go. simpl.
  rewrite He, Hop. reflexivity.
Qed.

Lemma iteration_read_error id conn l msg (w : W) e :
  Err msg = Some e →
  iteration tp id conn l (FromChMsg msg) w
  = (Ok (BreakReadLoop {| afterPing := afterPing l; to := Stopped |}),
     logged w (net w)
       [EvGo (GoReadMessage conn);
        EvPrintf "[%d] read error: %s\n" [AUint id; AErr e]]).
Proof.
  intros He. unfold iteration, logged. unfold_go. simpl. rewrite He. simpl.
  unfold record. simpl. by rewrite <- app_assoc.
Qed.

(** C4, as the code has it.  The timer is armed for 30 seconds when the loop
    starts.  When it fires with no ping outstanding, the loop starts the
    write of a ping frame with empty payload, sets [afterPing] and arms the
    timer for 15 seconds.  When it fires with [afterPing] set, the loop
    writes a close frame with payload [0x03 0xEA] and is left.  A frame
    received without error whose opcode is not close clears [afterPing] and
    arms the timer for 30 seconds, whatever the opcode.  A close frame
    received without error ends the loop instead: [afterPing] keeps its
    value and the timer stays stopped. *)
Theorem heartbeat_state_machine :
  to loop_init = Armed 30000000000%Z ∧ afterPing loop_init = false
  ∧ (∀ id conn l (w : W),
      afterPing l = false →
      iteration tp id conn l FromTimer w
      = (Ok (Continue {| afterPing := true; to := Armed 15000000000%Z |}),
         logged w (net w)
           [EvGo (GoReadMessage conn);
            EvGo (GoWriteServerMessage conn OpPing [])]))
  ∧ (∀ id conn l (w : W) err n,
      afterPing l = true →
      WriteServerMessage tp conn OpClose [x03; xea] (net w) = (err, n) →
      iteration tp id conn l FromTimer w
      = (Ok (BreakReadLoop {| afterPing := true; to := Expired |}),
         logged w n
           [EvGo (GoReadMessage conn);
            EvPrintf "[%d] Ping timeout...\n" [AUint id];
            EvWrite conn OpClose [x03; xea]]))
  ∧ (∀ id conn l msg (w : W),
      Err msg = None → Op msg ≠ OpClose →
      iteration tp id conn l (FromChMsg msg) w
      = (Ok (Continue {| afterPing := false; to := Armed 30000000000%Z |}),
         logged w (net w) (EvGo (GoReadMessage conn) :: dispatched id msg)))
  ∧ (∀ id conn l msg (w : W),
      Err msg = None → Op msg = OpClose →
      iteration tp id conn l (FromChMsg msg) w
      = (Ok (BreakReadLoop {| afterPing := afterPing l; to := Stopped |}),
         logged w (net w) [EvGo (GoReadMessage conn)])).
Proof.
  split_and!; try done.
  - apply iteration_timer_idle.
  - apply iteration_timer_awaiting.
  - apply iteration_frame.
  - apply iteration_close_frame.
Qed.

End LoopClaims.

(** ** The order of the steps of [handle] *)

Lemma preceded_nil a b : preceded a b [].
Proof. intros [|? ?] ? H; discriminate H. Qed.

Lemma preceded_snoc a b ls l :
  preceded a b ls → (l = b → a ∈ ls) → preceded a b (ls ++ [l]).
Proof.
  intros Hls Hl l1 l2 Heq.
  destruct (decide (l2 = [])) as [-> | Hnil].
  - apply app_inj_tail in Heq as [-> ->]. by apply Hl.
  - destruct (exists_last Hnil) as (l2' & x & ->).
    rewrite app_comm_cons, app_assoc in Heq.
    apply app_inj_tail in Heq as [-> _]. by eapply Hls.
Qed.

Lemma preceded_absent a b ls : b ∉ ls → preceded a b ls.
Proof.
  intros H l1 l2 ->. exfalso. apply H.
  apply elem_of_app. right. apply list_elem_of_here.
Qed.

Section HandleClaims.
Context {App Net : Type}.
Variable h : Handlers App.
Variable tp : Transport Net.
Variable url : UrlPkg.
Variable conn : Conn.

Abbreviation W := (World App Net).
Abbreviation step' := (step h tp url conn).
Abbreviation run' := (run h tp url conn).

Lemma run_cons (s s1 s2 : session App Net) l ls :
  step' s l s1 → run' s1 ls s2 → run' s (l :: ls) s2.
Proof.
  intros Hs Hr. induction Hr as [s1 | s1 ls s2 l' s3 Hr IH Hs'].
  - apply (run_snoc _ _ _ _ s [] s l s1); [constructor | done].
  - rewrite app_comm_cons. eapply run_snoc; [by apply IH | done].
Qed.

Lemma barrier_inv_step ls s l s' :
  barrier_inv ls s → step' s l s' → barrier_inv (ls ++ [l]) s'.
Proof.
  intros [Hp Hs] Hstep.
  assert (∀ x, x ∈ ls → x ∈ ls ++ [l]) as Hin.
  { intros x Hx. apply elem_of_app. by left. }
  assert (l ∈ ls ++ [l]) as Hl.
  { apply elem_of_app. right. apply list_elem_of_here. }
  assert (l ≠ LStartOffline → preceded LOnlineDone LStartOffline (ls ++ [l]))
    as Hpre.
  { intros Hne. by apply preceded_snoc. }
  destruct Hstep as
    [ req wg g w w' id Hu
    | req wg g w w' w'' id st err Hu Hlog
    | id wg g w w' Hu
    | id wg wg' g w w' Hu
    | id lp sel n wg g w w' Hu
    | id b wg g w w' Hu
    | id wg g w w' Hu
    | id wg g w Hwg
    | id wg g w w' Hu
    | wg g w w' err Hu
    | id p wg wg' w w' Hu
    | p wg g w w' ]; simpl in *.
  - split; [by apply Hpre | done].
  - split; [by apply Hpre | done].
  - split; [by apply Hpre | done].
  - split; [by apply Hpre |]. left. split; [by eexists |].
    unfold start_online in Hu. unfold_go. injection Hu as <- _. reflexivity.
  - split; [by apply Hpre |].
    destruct n; simpl; (destruct Hs as [Hs | Hs]; [by left | right; by apply Hin]).
  - split; [by apply Hpre |].
    destruct b; [| done]. destruct Hs as [Hs | Hs]; [by left | right; by apply Hin].
  - split; [by apply Hpre |].
    destruct Hs as [Hs | Hs]; [by left | right; by apply Hin].
  - split; [by apply Hpre |].
    destruct Hs as [[_ Hs] | Hs]; [exfalso; lia | by apply Hin].
  - split; [| done]. by apply preceded_snoc.
  - split; [by apply Hpre | done].
  - split; [by apply Hpre |].
    destruct p; simpl in *; try done; by right.
  - split; [by apply Hpre |].
    destruct p; simpl in *; try done;
      try (destruct Hs as [Hs | Hs]; [by left | right; by apply Hin]).
    by apply Hin.
Qed.

Lemma elem_of_snoc (x l : label) ls : x ∈ ls ++ [l] ↔ x ∈ ls ∨ x = l.
Proof. by rewrite elem_of_app, list_elem_of_singleton. Qed.

Lemma check_inv_step ls s l s' :
  check_inv ls s → step' s l s' → check_inv (ls ++ [l]) s'.
Proof.
  intros (H1 & H2 & H3 & Hs) Hstep.
  assert (l ≠ LDelete → preceded (LCheck true) LDelete (ls ++ [l])) as P1.
  { intros Hne. by apply preceded_snoc. }
  assert (l ≠ LStartOffline →
          preceded (LCheck true) LStartOffline (ls ++ [l])) as P2.
  { intros Hne. by apply preceded_snoc. }
  assert (l ≠ LCheck false → l ≠ LDelete → l ≠ LStartOffline →
          LCheck false ∈ ls ++ [l] →
          (LDelete ∉ ls ++ [l]) ∧ (LStartOffline ∉ ls ++ [l])) as P3.
  { intros N1 N2 N3. rewrite !elem_of_snoc. intuition congruence. }
  assert (l ≠ LDelete → l ≠ LStartOffline → (∀ b, l ≠ LCheck b) →
          (∀ b, LCheck b ∉ ls) ∧ (LDelete ∉ ls) ∧ (LStartOffline ∉ ls) →
          (∀ b, LCheck b ∉ ls ++ [l])
          ∧ (LDelete ∉ ls ++ [l]) ∧ (LStartOffline ∉ ls ++ [l])) as P4.
  { intros N1 N2 N3 (A & B & C). split_and!; [intros b |..];
      rewrite elem_of_snoc.
    - intros [H | H]; [by apply (A b) | by apply (N3 b)].
    - intuition congruence.
    - intuition congruence. }
  assert (l ≠ LCheck false → LCheck true ∈ ls ∧ (LCheck false ∉ ls) →
          LCheck true ∈ ls ++ [l] ∧ (LCheck false ∉ ls ++ [l])) as P5.
  { intros N1 (A & B). rewrite !elem_of_snoc. intuition congruence. }
  destruct Hstep as
    [ req wg g w w' id Hu
    | req wg g w w' w'' id st err Hu Hlog
    | id wg g w w' Hu
    | id wg wg' g w w' Hu
    | id lp sel n wg g w w' Hu
    | id b wg g w w' Hu
    | id wg g w w' Hu
    | id wg g w Hwg
    | id wg g w w' Hu
    | wg g w w' err Hu
    | id p wg wg' w w' Hu
    | p wg g w w' ]; simpl in *.
  - split_and!; [by apply P1 | by apply P2 | by apply P3 | by apply P4].
  - split_and!; [by apply P1 | by apply P2 | by apply P3 | done].
  - split_and!; [by apply P1 | by apply P2 | by apply P3 | by apply P4].
  - split_and!; [by apply P1 | by apply P2 | by apply P3 | by apply P4].
  - split_and!; [by apply P1 | by apply P2 | by apply P3 |].
    destruct n; simpl; by apply P4.
  - destruct Hs as (A & B & C).
    split_and!; [by apply P1 | by apply P2 | |].
    + intros _. rewrite !elem_of_snoc. intuition congruence.
    + destruct b; simpl; [| done].
      split; [apply elem_of_snoc; by right |]. rewrite elem_of_snoc.
      intros [H | H]; [by apply (A false) | done].
  - destruct Hs as (A & B).
    split_and!; [| by apply P2 | | by apply P5].
    + by apply preceded_snoc.
    + rewrite elem_of_snoc. intuition congruence.
  - split_and!; [by apply P1 | by apply P2 | by apply P3 | by apply P5].
  - destruct Hs as (A & B).
    split_and!; [by apply P1 | | | done].
    + by apply preceded_snoc.
    + rewrite elem_of_snoc. intuition congruence.
  - split_and!; [by apply P1 | by apply P2 | by apply P3 | done].
  - split_and!; [by apply P1 | by apply P2 | by apply P3 |].
    destruct p; simpl in *; try done; (by apply P4) || (by apply P5).
  - split_and!; [by apply P1 | by apply P2 | by apply P3 |].
    destruct p; simpl in *; try done; (by apply P4) || (by apply P5).
Qed.

Lemma handle_start_inv req (w : W) :
  barrier_inv [] (handle_start req w) ∧ check_inv [] (handle_start req w).
Proof.
  split.
  - split; [apply preceded_nil | done].
  - split_and!; try apply preceded_nil.
    + intros H. by apply not_elem_of_nil in H.
    + simpl. split_and!; [intros b |..]; apply not_elem_of_nil.
Qed.

Lemma run_inv req (w : W) ls s :
  run' (handle_start req w) ls s → barrier_inv ls s ∧ check_inv ls s.
Proof.
  intros Hr. remember (handle_start req w) as s0 eqn:E.
  induction Hr as [s0 | s0 ls s1 l s2 Hr IH Hs]; subst.
  - apply handle_start_inv.
  - destruct (IH eq_refl) as [Hb Hc]. split.
    + by eapply barrier_inv_step.
    + by eapply check_inv_step.
Qed.

Lemma upsert_conns id c (w : W) :
  conns (exec (upsert tp id c) w) = <[id:=c]> (conns w).
Proof.
  destruct (conns w !! id) as [c'|] eqn:E;
    [destruct (decide (c' = c)) as [-> | Hne] |]; unfold exec.
  - by rewrite upsert_same.
  - destruct (Close tp c' (net w)) as [err n] eqn:Hc.
    by rewrite (upsert_evicts _ _ _ _ _ _ _ E Hne Hc).
  - by rewrite upsert_fresh.
Qed.

Lemma registered_spec id (w : W) :
  registered id conn w
  = (Ok (bool_decide (conns w !! id = Some conn)), w).
Proof. reflexivity. Qed.

(** C3.  In every run of [handle], under every interleaving with its
    [onOnlineWrapper] goroutine and with whatever other goroutines do to the
    world, the start of [onOfflineWrapper] comes after the end of
    [onOnlineWrapper]: the wait of line 223 cannot be passed while the
    counter of the wait group is [1], and only the end of [onOnlineWrapper]
    (its call of [OnOnline] returned, or panicked and recovered) lowers it.
    This holds however early the loop is left.  Once the goroutine has run,
    the wait is passed and [onOfflineWrapper] is started. *)
Theorem OnOffline_starts_after_OnOnline_ended :
  (∀ req (w : W) ls s,
      run' (handle_start req w) ls s →
      preceded LOnlineDone LStartOffline ls)
  ∧ (∀ id g (w : W) s',
      ¬ step' (Build_session (PWait id) 1%Z g w) LWait s')
  ∧ (∀ s s',
      step' s LOnlineDone s' →
      ∃ id, s_online s = Ready id ∧ s_online s' = Finished
            ∧ onOnlineWrapper h id (s_wg s) (s_world s)
              = (Ok (s_wg s'), s_world s'))
  ∧ (∀ s s',
      step' s LStartOffline s' →
      ∃ id, s_pc s = PStartOffline id
            ∧ s_world s'
              = logged (s_world s) (net (s_world s))
                  [EvGo (GoOnOfflineWrapper id)])
  ∧ (∀ id (w : W), ∃ w',
      run' (Build_session (PWait id) 1%Z (Ready id) w)
        [LOnlineDone; LWait; LStartOffline]
        (Build_session PDeferred 0%Z Finished w')).
Proof.
  split_and!.
  - intros req w ls s Hr. by destruct (run_inv _ _ _ _ Hr) as [[? _] _].
  - intros id g w s' Hs. inversion Hs. lia.
  - intros s s' Hs. inversion Hs; subst; simpl. by eexists.
  - intros s s' Hs. inversion Hs; subst; simpl. eexists. split; [done |].
    match goal with H : start_offline _ _ = _ |- _ =>
      unfold start_offline in H; unfold_go; by injection H as <- end.
  - intros id w.
    destruct (onOnlineWrapper_total h id 1%Z w) as (w' & Hw & _); [lia |].
    eexists. eapply run_cons; [by apply step_online |].
    eapply run_cons; [by apply step_wait |].
    eapply run_cons; [by apply step_start_offline |]. constructor.
Qed.


End HandleClaims.

(** ** The overlay *)

Module overlay.
Import debugger.

Lemma last_cons_default (x b0 : bool) l :
  default x (last l) = default b0 (last (x :: l)).
Proof.
  destruct l as [|y l]; [done |].
  assert (∃ z, last (y :: l) = Some z) as [z Hz].
  { clear. revert y. induction l as [|y' l IH]; intros y; [by eexists |].
    apply (IH y'). }
  change (last (x :: y :: l)) with (last (y :: l)). by rewrite Hz.
Qed.

Lemma alternates_snoc b0 l b :
  alternates b0 (l ++ [b])
  = alternates b0 l && bool_decide (b = negb (default b0 (last l))).
Proof.
  revert b0. induction l as [|x l IH]; intros b0.
  - simpl. by rewrite andb_true_r.
  - change ((x :: l) ++ [b]) with (x :: (l ++ [b])). cbn [alternates].
    by rewrite IH, andb_assoc, (last_cons_default x b0).
Qed.

Lemma seen_snoc id t e :
  seen id (t ++ [e]) = seen id t ++ option_list (lifecycle_of id e).
Proof.
  unfold seen. rewrite omap_app. simpl. by destruct (lifecycle_of id e).
Qed.

Lemma has_insert (m : gmap uint bool) id v : has (<[id:=v]> m) id = true.
Proof. unfold has. rewrite lookup_insert_eq. by apply bool_decide_eq_true_2. Qed.

Lemma has_insert_ne (m : gmap uint bool) id id' v :
  id ≠ id' → has (<[id:=v]> m) id' = has m id'.
Proof. intros H. unfold has. by rewrite lookup_insert_ne. Qed.

Lemma has_delete (m : gmap uint bool) id : has (delete id m) id = false.
Proof.
  unfold has. rewrite lookup_delete_eq. apply bool_decide_eq_false_2.
  by intros [? ?].
Qed.

Lemma has_delete_ne (m : gmap uint bool) id id' :
  id ≠ id' → has (delete id m) id' = has m id'.
Proof. intros H. unfold has. by rewrite lookup_delete_ne. Qed.

Ltac has_simpl :=
  repeat first
    [ rewrite has_insert | rewrite has_delete
    | rewrite has_insert_ne by done | rewrite has_delete_ne by done ].

Section OverlayFacts.
Context {A : Type}.
Variable appHandlers : Handlers A.

Abbreviation D := (Debugger A).

Lemma Debugger_OnOnline_exec id (d : D) :
  exec (Debugger_OnOnline appHandlers id) d
  = if has (debuggers d) id then d
    else let d1 := set_debuggers (insert id true) d in
         if has (devices d) id then d1
         else called (CbOnOnline id) (OnOnline appHandlers id (app d)).2 d1.
Proof.
  unfold Debugger_OnOnline, exec, bind, gets, modify, call, ret. simpl.
  destruct (has (debuggers d) id); simpl; [done |].
  destruct (has (devices d) id); simpl; [done |].
  by destruct (OnOnline appHandlers id (app d)).
Qed.

Lemma Debugger_OnOffline_exec id (d : D) :
  exec (Debugger_OnOffline appHandlers id) d
  = if has (debuggers d) id then
      let d1 := set_debuggers (delete id) d in
      if has (devices d) id then d1
      else called (CbOnOffline id) (OnOffline appHandlers id (app d)).2 d1
    else d.
Proof.
  unfold Debugger_OnOffline, exec, bind, gets, modify, call, ret. simpl.
  destruct (has (debuggers d) id); simpl; [| done].
  destruct (has (devices d) id); simpl; [done |].
  by destruct (OnOffline appHandlers id (app d)).
Qed.

Lemma extHandlers_OnOnline_exec id (d : D) :
  exec (extHandlers_OnOnline appHandlers id) d
  = if has (devices d) id then d
    else let d1 := set_devices (insert id true) d in
         if has (debuggers d) id then d1
         else called (CbOnOnline id) (OnOnline appHandlers id (app d)).2 d1.
Proof.
  unfold extHandlers_OnOnline, exec, bind, gets, modify, call, ret. simpl.
  destruct (has (devices d) id); simpl; [done |].
  destruct (has (debuggers d) id); simpl; [done |].
  by destruct (OnOnline appHandlers id (app d)).
Qed.

Lemma extHandlers_OnOffline_exec id (d : D) :
  exec (extHandlers_OnOffline appHandlers id) d
  = if has (devices d) id then
      let d1 := set_devices (delete id) d in
      if has (debuggers d) id then d1
      else called (CbOnOffline id) (OnOffline appHandlers id (app d)).2 d1
    else d.
Proof.
  unfold extHandlers_OnOffline, exec, bind, gets, modify, call, ret. simpl.
  destruct (has (devices d) id); simpl; [| done].
  destruct (has (debuggers d) id); simpl; [done |].
  by destruct (OnOffline appHandlers id (app d)).
Qed.

Lemma overlay_inv_called_other id cb a (d d1 : D) :
  lifecycle_of id (App cb) = None →
  effects d1 = effects d →
  has (debuggers d1) id = has (debuggers d) id →
  has (devices d1) id = has (devices d) id →
  overlay_inv id d → overlay_inv id (called cb a d1).
Proof.
  intros Hl He H1 H2 [Ha Ho]. unfold overlay_inv, app_online in *. simpl.
  rewrite seen_snoc, Hl, app_nil_r, He. simpl. by rewrite H1, H2.
Qed.

Lemma overlay_inv_same id (d d1 : D) :
  effects d1 = effects d →
  has (debuggers d1) id || has (devices d1) id
  = has (debuggers d) id || has (devices d) id →
  overlay_inv id d → overlay_inv id d1.
Proof.
  intros He H [Ha Ho]. unfold overlay_inv, app_online in *.
  by rewrite He, H.
Qed.

Lemma overlay_inv_toggle id cb b a (d d1 : D) :
  lifecycle_of id (App cb) = Some b →
  effects d1 = effects d →
  has (debuggers d) id || has (devices d) id = negb b →
  has (debuggers d1) id || has (devices d1) id = b →
  overlay_inv id d → overlay_inv id (called cb a d1).
Proof.
  intros Hl He H1 H2 [Ha Ho]. unfold overlay_inv, app_online in *. simpl.
  rewrite seen_snoc, Hl, He. simpl. split.
  - rewrite alternates_snoc, Ha, Ho, H1. simpl.
    apply bool_decide_eq_true_2. by destruct b.
  - by rewrite last_snoc, H2.
Qed.

Lemma lifecycle_of_online id i :
  lifecycle_of id (App (CbOnOnline i))
  = if decide (i = id) then Some true else None.
Proof. reflexivity. Qed.

Lemma lifecycle_of_offline id i :
  lifecycle_of id (App (CbOnOffline i))
  = if decide (i = id) then Some false else None.
Proof. reflexivity. Qed.

Lemma seen_silent id t t' :
  Forall silent_effect t' → seen id (t ++ t') = seen id t.
Proof.
  intros H. unfold seen. rewrite omap_app.
  induction H as [|e t' He _ IH]; [by rewrite app_nil_r |].
  simpl. by destruct e as [[] | |].
Qed.

Lemma silent_ret {R} (r : R) : @silent A R (ret r).
Proof. intros d. split_and!; try done. exists []. by rewrite app_nil_r. Qed.

Lemma silent_panic {R} r : @silent A R (panic r).
Proof. intros d. split_and!; try done. exists []. by rewrite app_nil_r. Qed.

Lemma silent_gets {R} (f : D → R) : silent (gets f).
Proof. intros d. split_and!; try done. exists []. by rewrite app_nil_r. Qed.

Lemma silent_record e : silent_effect e → @silent A unit (modify (record e)).
Proof.
  intros He d. split_and!; try done. exists [e]. split; [done |].
  by constructor.
Qed.

Lemma silent_bind {R S} (m : M D R) (k : R → M D S) :
  silent m → (∀ r, silent (k r)) → silent (bind m k).
Proof.
  intros Hm Hk d. destruct (Hm d) as (H1 & H2 & H3 & H4 & t & Ht & Hq).
  unfold exec, bind in *. destruct (m d) as [[r|r] d1]; simpl in *.
  - destruct (Hk r d1) as (K1 & K2 & K3 & K4 & t' & Ht' & Hq').
    unfold exec in *. split_and!; try congruence.
    exists (t ++ t'). rewrite Ht', Ht, app_assoc. split; [done |].
    by apply Forall_app.
  - split_and!; try done. by exists t.
Qed.

Lemma silent_call {R} cb (f : A → outcome R * A) :
  silent_effect (App cb) → silent (call cb f).
Proof.
  intros He d. unfold exec, call. simpl. destruct (f (app d)) as [r a].
  simpl. split_and!; try done. exists [App cb]. split; [done |].
  by constructor.
Qed.

Lemma silent_go_WriteMessage c id msg : @silent A unit (go_WriteMessage c id msg).
Proof.
  destruct c; simpl; [by apply silent_record | apply silent_panic].
Qed.

Lemma silent_go_CloseConnection c id : @silent A unit (go_CloseConnection c id).
Proof.
  destruct c; simpl; [by apply silent_record | apply silent_panic].
Qed.

Lemma silent_forward (attached : bool) (c : D → option controller) id msg :
  @silent A unit
    (if attached then c' <- gets c;; go_WriteMessage c' id msg else ret tt).
Proof.
  destruct attached; [| apply silent_ret].
  apply silent_bind; [apply silent_gets |]. intros. apply silent_go_WriteMessage.
Qed.

Lemma silent_Debugger_OnText id msg :
  silent (Debugger_OnText appHandlers id msg).
Proof.
  apply silent_bind; [apply silent_gets |]. intros ds.
  apply silent_bind; [apply silent_forward |]. intros _.
  apply silent_bind; [apply silent_gets |]. intros dv.
  apply silent_bind; [apply silent_forward |]. intros _.
  by apply silent_call.
Qed.

Lemma silent_extHandlers_OnText id msg :
  silent (extHandlers_OnText appHandlers id msg).
Proof.
  apply silent_bind; [apply silent_gets |]. intros ds.
  apply silent_bind; [apply silent_forward |]. intros _.
  by apply silent_call.
Qed.

Lemma silent_extHandlers_WriteMessage id msg :
  silent (extHandlers_WriteMessage appHandlers id msg).
Proof.
  apply silent_bind; [apply silent_gets |]. intros ds.
  apply silent_bind; [apply silent_forward |]. intros _.
  apply silent_bind; [apply silent_gets |]. intros dv.
  apply silent_bind; [apply silent_forward |]. intros _.
  apply silent_bind; [by apply silent_call |]. intros _. apply silent_ret.
Qed.

Lemma silent_extHandlers_CloseConnection id :
  @silent A _ (extHandlers_CloseConnection id).
Proof.
  apply silent_bind; [apply silent_gets |]. intros ds.
  apply silent_bind.
  { destruct (has ds id); [| apply silent_ret].
    apply silent_bind; [apply silent_gets |]. intros.
    apply silent_go_CloseConnection. }
  intros _. apply silent_bind; [apply silent_gets |]. intros dv.
  apply silent_bind.
  { destruct (has dv id); [| apply silent_ret].
    apply silent_bind; [apply silent_gets |]. intros.
    apply silent_go_CloseConnection. }
  intros _. apply silent_ret.
Qed.

Lemma silent_deliver c :
  is_lifecycle c = false → silent (deliver appHandlers c).
Proof.
  destruct c; try discriminate; intros _; simpl.
  - apply silent_bind; [by apply silent_call | intros; apply silent_ret].
  - apply silent_Debugger_OnText.
  - apply silent_bind; [apply silent_ret | intros; apply silent_ret].
  - apply silent_bind; [by apply silent_call | intros; apply silent_ret].
  - apply silent_extHandlers_OnText.
  - apply silent_bind; [apply silent_ret | intros; apply silent_ret].
  - apply silent_bind; [apply silent_extHandlers_WriteMessage |].
    intros; apply silent_ret.
  - apply silent_bind; [apply silent_extHandlers_CloseConnection |].
    intros; apply silent_ret.
Qed.

Lemma overlay_inv_silent {R} id (m : M D R) (d : D) :
  silent m → overlay_inv id d → overlay_inv id (exec m d).
Proof.
  intros Hm [Ha Ho]. destruct (Hm d) as (_ & _ & H3 & H4 & t & Ht & Hq).
  unfold overlay_inv, app_online in *.
  by rewrite Ht, H3, H4, seen_silent.
Qed.

Lemma wiring_deliver c (d : D) :
  wiring d → wiring (exec (deliver appHandlers c) d).
Proof.
  intros [H1 H2]. destruct (is_lifecycle c) eqn:E.
  - destruct c; try discriminate; simpl;
      rewrite ?Debugger_OnOnline_exec, ?Debugger_OnOffline_exec,
        ?extHandlers_OnOnline_exec, ?extHandlers_OnOffline_exec;
      repeat match goal with |- context [if ?b then _ else _] =>
               destruct b end; by split.
  - destruct (silent_deliver c E d) as (K1 & K2 & _). split; congruence.
Qed.

Lemma wiring_deliver_all cs (d : D) :
  wiring d → wiring (deliver_all appHandlers cs d).
Proof.
  revert d. induction cs as [|c cs IH]; intros d Hd; [done |].
  simpl. apply IH. by apply wiring_deliver.
Qed.

Lemma overlay_inv_deliver id c (d : D) :
  overlay_inv id d → overlay_inv id (exec (deliver appHandlers c) d).
Proof.
  intros Hd. destruct (is_lifecycle c) eqn:Hc;
    [| apply overlay_inv_silent; [by apply silent_deliver | done]].
  destruct c as [i | i | i | i | | | | | | | |]; try discriminate; simpl.
  - rewrite Debugger_OnOnline_exec.
    destruct (has (debuggers d) i) eqn:E1; [done |]. simpl.
    destruct (decide (i = id)) as [-> | Hne].
    + destruct (has (devices d) id) eqn:E2.
      * apply (overlay_inv_same id d); [done | | done]. simpl.
        has_simpl; by rewrite ?E1, ?E2.
      * eapply (overlay_inv_toggle id _ _ _ d); [| done | | | done].
        -- rewrite lifecycle_of_online. by rewrite decide_True.
        -- has_simpl; by rewrite ?E1, ?E2.
        -- simpl. has_simpl; by rewrite ?E1, ?E2.
    + destruct (has (devices d) i) eqn:E2.
      * apply (overlay_inv_same id d); [done | | done]. simpl.
        has_simpl; by rewrite ?E1, ?E2.
      * eapply (overlay_inv_called_other id _ _ d); [| done | | | done].
        -- rewrite lifecycle_of_online. by rewrite decide_False.
        -- simpl. has_simpl; by rewrite ?E1, ?E2.
        -- has_simpl; by rewrite ?E1, ?E2.
  - rewrite Debugger_OnOffline_exec.
    destruct (has (debuggers d) i) eqn:E1; [| done]. simpl.
    destruct (decide (i = id)) as [-> | Hne].
    + destruct (has (devices d) id) eqn:E2.
      * apply (overlay_inv_same id d); [done | | done]. simpl.
        has_simpl; by rewrite ?E1, ?E2.
      * eapply (overlay_inv_toggle id _ _ _ d); [| done | | | done].
        -- rewrite lifecycle_of_offline. by rewrite decide_True.
        -- has_simpl; by rewrite ?E1, ?E2.
        -- simpl. has_simpl; by rewrite ?E1, ?E2.
    + destruct (has (devices d) i) eqn:E2.
      * apply (overlay_inv_same id d); [done | | done]. simpl.
        has_simpl; by rewrite ?E1, ?E2.
      * eapply (overlay_inv_called_other id _ _ d); [| done | | | done].
        -- rewrite lifecycle_of_offline. by rewrite decide_False.
        -- simpl. has_simpl; by rewrite ?E1, ?E2.
        -- has_simpl; by rewrite ?E1, ?E2.
  - rewrite extHandlers_OnOnline_exec.
    destruct (has (devices d) i) eqn:E1; [done |]. simpl.
    destruct (decide (i = id)) as [-> | Hne].
    + destruct (has (debuggers d) id) eqn:E2.
      * apply (overlay_inv_same id d); [done | | done]. simpl.
        has_simpl; by rewrite ?E1, ?E2.
      * eapply (overlay_inv_toggle id _ _ _ d); [| done | | | done].
        -- rewrite lifecycle_of_online. by rewrite decide_True.
        -- has_simpl; by rewrite ?E1, ?E2.
        -- simpl. has_simpl; by rewrite ?E1, ?E2.
    + destruct (has (debuggers d) i) eqn:E2.
      * apply (overlay_inv_same id d); [done | | done]. simpl.
        has_simpl; by rewrite ?E1, ?E2.
      * eapply (overlay_inv_called_other id _ _ d); [| done | | | done].
        -- rewrite lifecycle_of_online. by rewrite decide_False.
        -- has_simpl; by rewrite ?E1, ?E2.
        -- simpl. has_simpl; by rewrite ?E1, ?E2.
  - rewrite extHandlers_OnOffline_exec.
    destruct (has (devices d) i) eqn:E1; [| done]. simpl.
    destruct (decide (i = id)) as [-> | Hne].
    + destruct (has (debuggers d) id) eqn:E2.
      * apply (overlay_inv_same id d); [done | | done]. simpl.
        has_simpl; by rewrite ?E1, ?E2.
      * eapply (overlay_inv_toggle id _ _ _ d); [| done | | | done].
        -- rewrite lifecycle_of_offline. by rewrite decide_True.
        -- has_simpl; by rewrite ?E1, ?E2.
        -- simpl. has_simpl; by rewrite ?E1, ?E2.
    + destruct (has (debuggers d) i) eqn:E2.
      * apply (overlay_inv_same id d); [done | | done]. simpl.
        has_simpl; by rewrite ?E1, ?E2.
      * eapply (overlay_inv_called_other id _ _ d); [| done | | | done].
        -- rewrite lifecycle_of_offline. by rewrite decide_False.
        -- has_simpl; by rewrite ?E1, ?E2.
        -- simpl. has_simpl; by rewrite ?E1, ?E2.
Qed.

Lemma overlay_inv_deliver_all id cs (d : D) :
  overlay_inv id d → overlay_inv id (deliver_all appHandlers cs d).
Proof.
  revert d. induction cs as [|c cs IH]; intros d Hd; [done |].
  simpl. apply IH. by apply overlay_inv_deliver.
Qed.

Lemma overlay_inv_wired id (a : A) : overlay_inv id (wired a).
Proof. done. Qed.

End OverlayFacts.
Section OverlayClaims.
Context {A : Type}.
Variable appHandlers : Handlers A.

Abbreviation D := (Debugger A).

(** C8.  After any sequence of callbacks from the two servers and of calls
    of the application on its controller, for every identity: the [OnOnline] and [OnOffline] calls the
    application has seen for it alternate, starting with [OnOnline], and the
    last one was [OnOnline] exactly when one of the two sides has the
    identity attached.  From such a state, a side that comes online or goes
    offline while the other side has the identity attached calls nothing;
    the first side to come online calls [OnOnline] once and the last side to
    go offline calls [OnOffline] once. *)
Theorem overlay_lifecycle_seen_once :
  ∀ (cs : list incoming) (a : A) (id : uint),
    let d := deliver_all appHandlers cs (wired a) in
    alternates false (seen id (effects d)) = true
    ∧ app_online id d = has (debuggers d) id || has (devices d) id
    ∧ (has (devices d) id = true →
        effects (exec (Debugger_OnOnline appHandlers id) d) = effects d
        ∧ effects (exec (Debugger_OnOffline appHandlers id) d) = effects d)
    ∧ (has (debuggers d) id = true →
        effects (exec (extHandlers_OnOnline appHandlers id) d) = effects d
        ∧ effects (exec (extHandlers_OnOffline appHandlers id) d)
          = effects d)
    ∧ (has (debuggers d) id = false → has (devices d) id = false →
        effects (exec (Debugger_OnOnline appHandlers id) d)
        = effects d ++ [App (CbOnOnline id)]
        ∧ effects (exec (extHandlers_OnOnline appHandlers id) d)
          = effects d ++ [App (CbOnOnline id)])
    ∧ (has (debuggers d) id = true → has (devices d) id = false →
        effects (exec (Debugger_OnOffline appHandlers id) d)
        = effects d ++ [App (CbOnOffline id)])
    ∧ (has (debuggers d) id = false → has (devices d) id = true →
        effects (exec (extHandlers_OnOffline appHandlers id) d)
        = effects d ++ [App (CbOnOffline id)]).
Proof.
  intros cs a id d.
  destruct (overlay_inv_deliver_all appHandlers id cs (wired a)
              (overlay_inv_wired id a)) as [H1 H2].
  split_and!; try done.
  - intros E. rewrite Debugger_OnOnline_exec, Debugger_OnOffline_exec.
    rewrite E. by destruct (has (debuggers d) id).
  - intros E. rewrite extHandlers_OnOnline_exec, extHandlers_OnOffline_exec.
    rewrite E. by destruct (has (devices d) id).
  - intros E1 E2. rewrite Debugger_OnOnline_exec, extHandlers_OnOnline_exec.
    by rewrite E1, E2.
  - intros E1 E2. rewrite Debugger_OnOffline_exec. by rewrite E1, E2.
  - intros E1 E2. rewrite extHandlers_OnOffline_exec. by rewrite E1, E2.
Qed.

(** C9.  In every state the overlay reaches from its start, both controllers
    are set.  In such a state: a text of a principal ([extHandlers.OnText])
    starts a [WriteMessage] on the server of the observers when the identity
    has an observer attached, and then calls the [OnText] of the application
    with the identity and the text, in every case.  A text of an observer
    ([Debugger.OnText]) starts a [WriteMessage] on the server of the
    principals when the identity has a principal attached (after one on the
    server of the observers when the identity has an observer attached), and
    then makes the same call of the [OnText] of the application as a text of
    the principal makes.  The forwards are [go] statements: their results
    reach nobody, and what the callback returns is what the [OnText] of the
    application returns.  Neither callback changes which identities are
    attached. *)
Theorem overlay_text_mirrored :
  (∀ (cs : list incoming) (a : A),
      wiring (deliver_all appHandlers cs (wired a)))
  ∧ (∀ (d : D) (id : uint) (msg : bytes),
      wiring d →
      let p := exec (extHandlers_OnText appHandlers id msg) d in
      let o := exec (Debugger_OnText appHandlers id msg) d in
      effects p
      = effects d ++ forwarded (has (debuggers d) id) DebugServer id msg
          ++ [App (CbOnText id msg)]
      ∧ effects o
        = effects d ++ forwarded (has (debuggers d) id) DebugServer id msg
            ++ forwarded (has (devices d) id) MainServer id msg
            ++ [App (CbOnText id msg)]
      ∧ app p = (OnText appHandlers id msg (app d)).2
      ∧ app o = (OnText appHandlers id msg (app d)).2
      ∧ result (extHandlers_OnText appHandlers id msg) d
        = (OnText appHandlers id msg (app d)).1
      ∧ result (Debugger_OnText appHandlers id msg) d
        = (OnText appHandlers id msg (app d)).1
      ∧ debuggers p = debuggers d ∧ devices p = devices d
      ∧ debuggers o = debuggers d ∧ devices o = devices d).
Proof.
  split.
  { intros cs a. by apply wiring_deliver_all. }
  intros [c1 c2 dv ds a0 t] id msg [Hcc Hws]. simpl in Hcc, Hws. subst c1 c2.
  unfold extHandlers_OnText, Debugger_OnText, go_WriteMessage, forwarded,
    exec, result, bind, gets, modify, call, ret, record.
  simpl.
  destruct (has ds id) eqn:E1; simpl; destruct (has dv id) eqn:E2; simpl;
    destruct (OnText appHandlers id msg a0) as [r a]; simpl;
    rewrite <- ?app_assoc; done.
Qed.

End OverlayClaims.
(** C8 at these states. *)
Lemma overlay_lifecycle_seen_once_witness :
  effects paired = [App (CbOnOnline 7%N)]
  ∧ effects both_gone = [App (CbOnOnline 7%N); App (CbOnOffline 7%N)]
  ∧ alternates false (seen 7%N (effects both_gone)) = true
  ∧ effects (exec (Debugger_OnOnline THandlers 7%N) principal_only)
    = effects principal_only
  ∧ effects (exec (extHandlers_OnOffline THandlers 7%N) paired)
    = effects paired
  ∧ effects (exec (Debugger_OnOnline THandlers 7%N) both_gone)
    = effects both_gone ++ [App (CbOnOnline 7%N)]
  ∧ effects (exec (extHandlers_OnOffline THandlers 7%N) principal_only)
    = effects principal_only ++ [App (CbOnOffline 7%N)].
Proof.
  pose proof (overlay_lifecycle_seen_once THandlers
                [PrincipalOnline 7%N] [] 7%N) as P.
  pose proof (overlay_lifecycle_seen_once THandlers
                [PrincipalOnline 7%N; ObserverOnline 7%N] [] 7%N) as Q.
  pose proof (overlay_lifecycle_seen_once THandlers
                [PrincipalOnline 7%N; ObserverOnline 7%N; ObserverOnline 7%N;
                 PrincipalOffline 7%N; ObserverOffline 7%N] [] 7%N) as R.
  cbv zeta in P, Q, R.
  destruct P as (_ & _ & P3 & _ & _ & _ & P7).
  destruct Q as (_ & _ & _ & Q4 & _).
  destruct R as (R1 & _ & _ & _ & R5 & _).
  split_and!.
  - reflexivity.
  - reflexivity.
  - exact R1.
  - by apply P3.
  - by apply Q4.
  - by apply R5.
  - by apply P7.
Defined.

(** C9 at the paired state, and with the principal alone. *)
Lemma overlay_text_mirrored_witness :
  effects (exec (extHandlers_OnText THandlers 7%N [x68; x69]) paired)
  = [App (CbOnOnline 7%N); GoWriteMessage DebugServer 7%N [x68; x69];
     App (CbOnText 7%N [x68; x69])]
  ∧ effects (exec (Debugger_OnText THandlers 7%N [x68; x69]) paired)
    = [App (CbOnOnline 7%N); GoWriteMessage DebugServer 7%N [x68; x69];
       GoWriteMessage MainServer 7%N [x68; x69];
       App (CbOnText 7%N [x68; x69])]
  ∧ effects (exec (extHandlers_OnText THandlers 7%N [x68; x69])
               principal_only)
    = [App (CbOnOnline 7%N); App (CbOnText 7%N [x68; x69])].
Proof.
  destruct (overlay_text_mirrored THandlers) as [W T].
  pose proof (T paired 7%N [x68; x69]
                (W [PrincipalOnline 7%N; ObserverOnline 7%N] [])) as P.
  pose proof (T principal_only 7%N [x68; x69]
                (W [PrincipalOnline 7%N] [])) as Q.
  cbv zeta in P, Q.
  destruct P as (P1 & P2 & _). destruct Q as (Q1 & _).
  split_and!.
  - rewrite P1. reflexivity.
  - rewrite P2. reflexivity.
  - rewrite Q1. reflexivity.
Defined.

End overlay.

(** * The properties at the instances *)

Lemma no_authorization_origin :
  no_authorization [("Origin", "http://localhost:6008")].
Proof. repeat constructor. discriminate. Defined.

(** C6 at [Anonymous], whose [OnAuth] answers [(0, true)], for the token and
    for the header, and at the request without credential. *)
Lemma unresolved_identity_rejected_at_checkpoint_witness :
  Upgrade Anonymous TUrl with_token TWorld
  = (Ok (0%N, Some (AtBeforeUpgrade, ErrNotAuth)),
     returned TWorld (CbOnAuth "123456") ["OnAuth"])
  ∧ Upgrade Anonymous TUrl with_header TWorld
    = (Ok (0%N, Some (AtBeforeUpgrade, ErrNotAuth)),
       returned TWorld (CbOnAuth "123456") ["OnAuth"])
  ∧ Upgrade THandlers TUrl without_auth TWorld
    = (Ok (0%N, Some (AtBeforeUpgrade, ErrNotAuth)), TWorld).
Proof.
  destruct (unresolved_identity_rejected_at_checkpoint
              (Net := list Conn) Anonymous TUrl) as (_ & _ & H3 & H4 & _).
  destruct (unresolved_identity_rejected_at_checkpoint
              (Net := list Conn) THandlers TUrl) as (_ & _ & _ & _ & H5).
  split_and!.
  - apply (H3 with_token TWorld "123456" []); [reflexivity | | reflexivity].
    apply no_authorization_origin.
  - apply (H4 with_header TWorld [("Origin", "http://localhost:6008")]
             "Bearer " "123456" []);
      [reflexivity | reflexivity | apply no_authorization_origin
      | constructor | by left | reflexivity].
  - apply (H5 without_auth TWorld); [reflexivity |].
    apply no_authorization_origin.
Defined.

(** C7 at [THandlers], for the token, for the header, and for a header with
    another scheme. *)
Lemma credential_sources_first_match_witness :
  Upgrade THandlers TUrl
    {| uri := "/?token=123456";
       headers := [("Authorization", "Digest 123456")] |} TWorld
  = (Ok (1%N, None), returned TWorld (CbOnAuth "123456") ["OnAuth"])
  ∧ Upgrade THandlers TUrl with_header TWorld
    = (Ok (1%N, None), returned TWorld (CbOnAuth "123456") ["OnAuth"])
  ∧ Upgrade THandlers TUrl
      {| uri := "/"; headers := [("Authorization", "Digest 123456")] |}
      TWorld
    = (Ok (0%N, Some (AtHeader 0, ErrBadAuthHeader)), TWorld)
  ∧ OnHeader THandlers "Authorization" "Digest 123456" 1%N TWorld
    = (Ok (1%N, None), TWorld).
Proof.
  destruct (credential_sources_first_match
              (Net := list Conn) THandlers TUrl) as (H1 & H2 & H3 & H4 & _).
  split_and!.
  - by apply (H1 _ TWorld "123456" []).
  - apply (H2 with_header TWorld [("Origin", "http://localhost:6008")]
             "Bearer " "123456" []);
      [reflexivity | reflexivity | apply no_authorization_origin
      | by left | reflexivity | done].
  - apply (H3 _ TWorld [] "Digest 123456" []);
      [reflexivity | reflexivity | constructor | reflexivity | reflexivity].
  - by apply H4.
Defined.

(** C10 at [Panicking], every callback of which panics. *)
Lemma callback_panics_are_contained_witness :
  onAuthWrapper Panicking "123456" TWorld
  = (Ok (0%N, false),
     recovered TWorld (CbOnAuth "123456")
       "[Recovery OnAuth] panic recovered:\n%s\n\n" "boom" ["OnAuth"])
  ∧ onOnlineWrapper Panicking 1%N 1%Z TWorld
    = (Ok 0%Z,
       recovered TWorld (CbOnOnline 1%N)
         "[Recovery OnOnline] panic recovered:\n%s\n\n" "boom" ["OnOnline"])
  ∧ onSendWrapper Panicking 1%N [] TWorld
    = (Ok false,
       recovered TWorld (CbOnSend 1%N [])
         "[Recovery OnWriteText] panic recovered:\n%s\n\n" "boom" ["OnSend"])
  ∧ Upgrade Panicking TUrl with_token TWorld
    = (Ok (0%N, Some (AtRequest, ErrAuthFailed)),
       recovered TWorld (CbOnAuth "123456")
         "[Recovery OnAuth] panic recovered:\n%s\n\n" "boom" ["OnAuth"])
  ∧ Upgrade Panicking TUrl with_header TWorld
    = (Ok (0%N, Some (AtHeader 1, ErrAuthFailed)),
       recovered TWorld (CbOnAuth "123456")
         "[Recovery OnAuth] panic recovered:\n%s\n\n" "boom" ["OnAuth"]).
Proof.
  destruct (callback_panics_are_contained (Net := list Conn) Panicking TUrl)
    as (_ & _ & _ & _ & _ & A & O & _ & S & _ & R & H).
  split_and!.
  - by apply A.
  - by apply (O 1%N 1%Z TWorld).
  - by apply S.
  - by apply (R with_token TWorld "123456" []).
  - apply (H with_header TWorld [("Origin", "http://localhost:6008")]
             "Bearer " "123456" []);
      [reflexivity | reflexivity | apply no_authorization_origin
      | by left | reflexivity].
Defined.

(** C1 at [reconnected]: connection [10] was closed before [11] replaced
    it; a third connection replaces [11], whose close now fails, and
    [upsert] logs the error and returns normally. *)
Lemma upsert_evicts_prior_connection_witness :
  trace reconnected
  = [EvStore 1%N 10; EvClose 10; EvStore 1%N 11;
     EvWrite 11 OpClose [x03; xea]; EvClose 11]
  ∧ conns reconnected !! 1%N = Some 11
  ∧ closed_before_overwrite (trace reconnected)
  ∧ upsert TNet 1%N 12 reconnected
    = (Ok tt,
       Build_World (<[1%N:=12]> (conns reconnected)) (app reconnected)
         [11; 10]
         (trace reconnected
            ++ (EvClose 11
                  :: close_log
                       (Some (ErrOther "use of closed network connection")))
            ++ [EvStore 1%N 12]))
  ∧ upsert TNet 2%N 12 reconnected
    = (Ok tt,
       Build_World (<[2%N:=12]> (conns reconnected)) (app reconnected)
         (net reconnected) (trace reconnected ++ [EvStore 2%N 12])).
Proof.
  pose proof (upsert_evicts_prior_connection THandlers TNet
                [DoUpsert 1%N 10; DoUpsert 1%N 11; DoCloseConnection 1%N]
                [] []) as H.
  cbv zeta in H. destruct H as (_ & _ & C & E & S).
  split_and!.
  - reflexivity.
  - reflexivity.
  - exact C.
  - apply (E 1%N 12 11); [reflexivity | done | reflexivity].
  - apply (S 2%N 12). by left.
Defined.

Lemma WriteMessage_asks_OnSend_first_witness :
  WriteMessage THandlers TNet 1%N [x68; x69] one_client
  = (Ok None,
     Build_World (conns one_client) ["OnSend"] []
       (trace one_client
          ++ [EvCall (CbOnSend 1%N [x68; x69]); EvWrite 10 OpText [x68; x69]]
          ++ write_log 1%N None))
  ∧ WriteMessage THandlers TNet 2%N [x68; x69] one_client
    = (Ok (Some ErrConnNotFound),
       Build_World (conns one_client) ["OnSend"] []
         (trace one_client
            ++ [EvCall (CbOnSend 2%N [x68; x69]);
                EvPrintf "Connection not found for device: %d\n"
                  [AUint 2%N]]))
  ∧ WriteMessage Anonymous TNet 1%N [x68; x69] one_client
    = (Ok None, returned one_client (CbOnSend 1%N [x68; x69]) ["OnSend"]).
Proof.
  destruct (WriteMessage_asks_OnSend_first THandlers TNet 1%N [x68; x69]
              one_client) as (_ & _ & _ & H4).
  destruct (WriteMessage_asks_OnSend_first THandlers TNet 2%N [x68; x69]
              one_client) as (_ & _ & H3 & _).
  destruct (WriteMessage_asks_OnSend_first Anonymous TNet 1%N [x68; x69]
              one_client) as (_ & H2 & _ & _).
  split_and!.
  - by apply (H4 ["OnSend"] 10 None []).
  - by apply H3.
  - by apply H2.
Defined.

(** C4 as stated fails on a close frame: it is received without error, and
    the iteration leaves the loop with [afterPing] still set and the timer
    stopped, instead of continuing with [afterPing] cleared and the timer
    armed for 30 seconds. *)
Lemma close_frame_does_not_rearm :
  Err close_frame = None
  ∧ result (iteration TNet 1%N 10 awaiting_pong (FromChMsg close_frame))
      one_client
    = Ok (BreakReadLoop {| afterPing := true; to := Stopped |})
  ∧ result (iteration TNet 1%N 10 awaiting_pong (FromChMsg close_frame))
      one_client
    ≠ Ok (Continue {| afterPing := false; to := Armed TimeoutPing |}).
Proof. split_and!; [reflexivity | reflexivity | discriminate]. Qed.

(** Thirty seconds of silence and fifteen more: a ping, then the close frame
    and the end of the loop. *)
Lemma silence_ends_the_loop :
  ReadLoop TNet 1%N 10 loop_init [FromTimer; FromTimer] one_client
  = (Ok (BreakReadLoop {| afterPing := true; to := Expired |}),
     logged one_client []
       [EvGo (GoReadMessage 10); EvGo (GoWriteServerMessage 10 OpPing []);
        EvGo (GoReadMessage 10);
        EvPrintf "[%d] Ping timeout...\n" [AUint 1%N];
        EvWrite 10 OpClose [x03; xea]]).
Proof. reflexivity. Qed.

(** C4 at the instances: thirty seconds of silence, fifteen more, and a
    pong in between. *)
Lemma heartbeat_state_machine_witness :
  result (iteration TNet 1%N 10 loop_init FromTimer) one_client
  = Ok (Continue awaiting_pong)
  ∧ result (iteration TNet 1%N 10 awaiting_pong FromTimer) one_client
    = Ok (BreakReadLoop {| afterPing := true; to := Expired |})
  ∧ trace (exec (iteration TNet 1%N 10 awaiting_pong FromTimer) one_client)
    = trace one_client
        ++ [EvGo (GoReadMessage 10);
            EvPrintf "[%d] Ping timeout...\n" [AUint 1%N];
            EvWrite 10 OpClose [x03; xea]]
  ∧ result (iteration TNet 1%N 10 awaiting_pong
              (FromChMsg (readMessage (inl OpPong) None ([], None))))
      one_client
    = Ok (Continue loop_init).
Proof.
  destruct (heartbeat_state_machine (App := list string) TNet)
    as (_ & _ & H1 & H2 & H3 & _).
  unfold result, exec. split_and!.
  - by rewrite (H1 1%N 10 loop_init one_client).
  - by rewrite (H2 1%N 10 awaiting_pong one_client None []).
  - by rewrite (H2 1%N 10 awaiting_pong one_client None []).
  - by rewrite (H3 1%N 10 awaiting_pong _ one_client).
Defined.

(** One more step of a run at the instances. *)
Tactic Notation "take" uconstr(c) :=
  eapply run_cons; [eapply c; vm_compute; reflexivity |].

(** The peer disconnects right after the handshake: the delete is made, the
    wait holds the goroutine until [onOnlineWrapper] has run, and only then
    is [onOfflineWrapper] started. *)
Lemma immediate_disconnect_runs :
  ∃ s, run THandlers TNet TUrl 10 (handle_start with_token TWorld)
         immediate_disconnect s
       ∧ s_pc s = PReturned
       ∧ trace (s_world s)
         = [EvCall (CbOnAuth "123456"); EvStore 1%N 10;
            EvGo (GoOnOnlineWrapper 1%N); EvGo (GoReadMessage 10);
            EvPrintf "[%d] read error: %s\n" [AUint 1%N; AErr (ErrOther "EOF")];
            EvDelete 1%N; EvCall (CbOnOnline 1%N);
            EvGo (GoOnOfflineWrapper 1%N); EvClose 10].
Proof.
  eexists. split.
  - unfold immediate_disconnect, handle_start.
    take step_upgrade.
    take step_upsert.
    take step_start_online.
    take step_iterate.
    take (step_check _ _ _ _ _ true).
    take step_delete.
    take step_online.
    take step_wait.
    take step_start_offline.
    take step_close.
    apply run_nil.
  - split; reflexivity.
Defined.

(** C3 at that run. *)
Lemma OnOffline_starts_after_OnOnline_ended_witness :
  preceded LOnlineDone LStartOffline immediate_disconnect.
Proof.
  destruct (OnOffline_starts_after_OnOnline_ended THandlers TNet TUrl 10)
    as (H & _).
  destruct immediate_disconnect_runs as (s & Hr & _).
  exact (H with_token TWorld immediate_disconnect s Hr).
Defined.


(** The test of line 218 is made before the mutex is taken.  When the
    upsert of another connection comes between the test and the delete, the
    delete removes the entry of that connection. *)
Lemma overtaken_runs :
  ∃ s, run THandlers TNet TUrl 10 (handle_start with_token TWorld)
         overtaken s
       ∧ conns (s_world s) !! 1%N = None
       ∧ trace (s_world s)
         = [EvCall (CbOnAuth "123456"); EvStore 1%N 10;
            EvGo (GoOnOnlineWrapper 1%N); EvCall (CbOnOnline 1%N);
            EvGo (GoReadMessage 10);
            EvPrintf "[%d] read error: %s\n" [AUint 1%N; AErr (ErrOther "EOF")];
            EvClose 10; EvStore 1%N 11; EvDelete 1%N].
Proof.
  eexists. split.
  - unfold overtaken, handle_start.
    take step_upgrade.
    take step_upsert.
    take step_start_online.
    take step_online.
    take step_iterate.
    take (step_check _ _ _ _ _ true).
    eapply run_cons;
      [lazymatch goal with
       | |- step _ _ _ _ (Build_session _ _ _ ?w) _ _ =>
           apply (step_env _ _ _ _ _ _ _ w (exec (upsert TNet 1%N 11) w))
       end |].
    take step_delete.
    apply run_nil.
  - split; reflexivity.
Qed.


(** * Further properties *)

(** ** [CloseConnection] *)

Section CloseConnectionFacts.
Context {App Net : Type}.
Variable tp : Transport Net.

Abbreviation W := (World App Net).

Lemma CloseConnection_found id conn (w : W) werr n1 cerr n2 :
  conns w !! id = Some conn →
  WriteServerMessage tp conn OpClose [x03; xea] (net w) = (werr, n1) →
  Close tp conn n1 = (cerr, n2) →
  CloseConnection tp id w
  = (Ok cerr,
     Build_World (conns w) (app w) n2
       (trace w ++ [EvWrite conn OpClose [x03; xea]; EvClose conn])).
Proof.
  intros Hc Hw Hcl. unfold CloseConnection. unfold_go. simpl.
  rewrite Hc. simpl. rewrite Hw. simpl. rewrite Hcl.
  unfold record, set_net. simpl. by rewrite <- app_assoc.
Qed.

Lemma CloseConnection_not_found id (w : W) :
  conns w !! id = None →
  CloseConnection tp id w
  = (Ok (Some ErrConnNotFound),
     logged w (net w)
       [EvPrintf "Connection not found for device: %d\n" [AUint id]]).
Proof.
  intros Hc. unfold CloseConnection. unfold_go. simpl. by rewrite Hc.
Qed.

(** X1.  [CloseConnection(id)] on an identity the registry maps to [conn]
    writes one close frame with payload [0x03 0xEA] to [conn], closes
    [conn], and returns the error of the close; the error of the write is
    dropped, neither returned nor logged.  On an identity without entry it
    logs and returns [ErrConnNotFound], and nothing is written or closed.
    In both cases it asks no callback of the application and leaves the
    registry as it is: the entry of a closed connection stays, so the test
    at the end of the [handle] of that connection still succeeds, and a
    second [CloseConnection(id)] writes and closes again. *)
Theorem CloseConnection_closes_and_keeps_entry :
  ∀ id (w : W),
    (∀ conn werr n1 cerr n2,
        conns w !! id = Some conn →
        WriteServerMessage tp conn OpClose [x03; xea] (net w) = (werr, n1) →
        Close tp conn n1 = (cerr, n2) →
        CloseConnection tp id w
        = (Ok cerr,
           Build_World (conns w) (app w) n2
             (trace w ++ [EvWrite conn OpClose [x03; xea]; EvClose conn])))
    ∧ (conns w !! id = None →
        CloseConnection tp id w
        = (Ok (Some ErrConnNotFound),
           logged w (net w)
             [EvPrintf "Connection not found for device: %d\n" [AUint id]]))
    ∧ conns (exec (CloseConnection tp id) w) = conns w
    ∧ app (exec (CloseConnection tp id) w) = app w
    ∧ (∃ t, trace (exec (CloseConnection tp id) w) = trace w ++ t
            ∧ ∀ cb, EvCall cb ∉ t)
    ∧ (∀ conn,
        conns w !! id = Some conn →
        registered id conn (exec (CloseConnection tp id) w)
        = (Ok true, exec (CloseConnection tp id) w)
        ∧ ∃ t, trace (exec (CloseConnection tp id)
                        (exec (CloseConnection tp id) w))
               = trace w ++ t
                   ++ [EvWrite conn OpClose [x03; xea]; EvClose conn]).
Proof.
  intros id w.
  destruct (conns w !! id) as [conn|] eqn:Hc.
  - destruct (WriteServerMessage tp conn OpClose [x03; xea] (net w))
      as [werr n1] eqn:Hw.
    destruct (Close tp conn n1) as [cerr n2] eqn:Hcl.
    pose proof (CloseConnection_found _ _ _ _ _ _ _ Hc Hw Hcl) as E.
    unfold exec. rewrite E. simpl. split_and!; try done.
    + intros c werr' n1' cerr' n2' [= <-] Hw' Hcl'.
      rewrite Hw in Hw'. injection Hw' as <- <-.
      rewrite Hcl in Hcl'. by injection Hcl' as <- <-.
    + eexists. split; [done |]. intros cb. not_in_list.
    + intros c [= <-]. split.
      * unfold registered. unfold_go. simpl.
        by rewrite Hc, bool_decide_eq_true_2.
      * destruct (WriteServerMessage tp conn OpClose [x03; xea] n2)
          as [werr' n1'] eqn:Hw'.
        destruct (Close tp conn n1') as [cerr' n2'] eqn:Hcl'.
        erewrite CloseConnection_found; [| exact Hc | exact Hw' | exact Hcl'].
        simpl. exists [EvWrite conn OpClose [x03; xea]; EvClose conn].
        by rewrite <- app_assoc.
  - pose proof (CloseConnection_not_found _ _ Hc) as E.
    unfold exec. rewrite E. simpl. split_and!; try done.
    eexists. split; [done |]. intros cb. not_in_list.
Qed.

End CloseConnectionFacts.

(** X1 at the server with one client: the first call closes connection
    [10]; the second writes and closes again, and returns the error of
    closing a closed connection; the entry is still there. *)
Lemma CloseConnection_closes_and_keeps_entry_witness :
  CloseConnection TNet 1%N one_client
  = (Ok None,
     Build_World (conns one_client) (app one_client) [10]
       (trace one_client ++ [EvWrite 10 OpClose [x03; xea]; EvClose 10]))
  ∧ CloseConnection TNet 1%N closed_once
    = (Ok (Some (ErrOther "use of closed network connection")),
       Build_World (conns closed_once) (app closed_once) [10]
         (trace closed_once ++ [EvWrite 10 OpClose [x03; xea]; EvClose 10]))
  ∧ CloseConnection TNet 2%N one_client
    = (Ok (Some ErrConnNotFound),
       logged one_client []
         [EvPrintf "Connection not found for device: %d\n" [AUint 2%N]])
  ∧ conns closed_once !! 1%N = Some 10.
Proof.
  destruct (CloseConnection_closes_and_keeps_entry
              (App := list string) TNet 1%N one_client) as (H1 & _).
  destruct (CloseConnection_closes_and_keeps_entry
              (App := list string) TNet 1%N closed_once) as (H2 & _).
  destruct (CloseConnection_closes_and_keeps_entry
              (App := list string) TNet 2%N one_client) as (_ & H3 & _).
  split_and!.
  - by apply (H1 10 None [] None [10]).
  - by apply (H2 10 (Some (ErrOther "use of closed network connection")) [10]
                (Some (ErrOther "use of closed network connection")) [10]).
  - by apply H3.
  - reflexivity.
Defined.

(** ** [readMessage] and what the loop does with its message *)

Section FrameFacts.
Context {App Net : Type}.
Variable tp : Transport Net.

Abbreviation W := (World App Net).

Lemma readMessage_Err hdr ch payload :
  Err (readMessage hdr ch payload)
  = match hdr with
    | inr e => Some e
    | inl op => if IsControl op then ch else snd payload
    end.
Proof.
  destruct hdr as [op|e]; simpl; [| done].
  destruct (IsControl op); [by destruct ch | done].
Qed.

Lemma readMessage_Op op ch payload :
  Err (readMessage (inl op) ch payload) = None →
  Op (readMessage (inl op) ch payload) = op.
Proof. simpl. destruct (IsControl op); [by destruct ch | done]. Qed.

Lemma readMessage_Body op ch payload :
  Body (readMessage (inl op) ch payload)
  = if IsControl op then [] else fst payload.
Proof. simpl. destruct (IsControl op); [by destruct ch | done]. Qed.

(** X2.  What one iteration of the loop does with the message [readMessage]
    sends, for every way the read can go.  A text frame whose payload was
    read to its end starts [onTextWrapper] once, with the identity and that
    payload, and the loop goes on with the heartbeat reset.  A read that
    fails (the header cannot be read, the handler of control frames
    returns an error, or the payload of a data frame cannot be read to its
    end) is logged and ends the loop, and nothing is dispatched, not even
    the part of a text frame that was read.  Ping and pong frames are only
    a sign of life.  A close frame ends the loop without a log.  Every other
    frame (binary, continuation, a reserved opcode) is logged as unknown and
    is dropped; it still resets the heartbeat. *)
Theorem only_complete_text_frames_reach_OnText :
  ∀ id conn l (w : W) ch payload,
    let it hdr :=
      iteration tp id conn l (FromChMsg (readMessage hdr ch payload)) w in
    let ended e :=
      (Ok (BreakReadLoop {| afterPing := afterPing l; to := Stopped |}),
       logged w (net w)
         [EvGo (GoReadMessage conn);
          EvPrintf "[%d] read error: %s\n" [AUint id; AErr e]]) in
    (snd payload = None →
        it (inl OpText)
        = (Ok (Continue loop_init),
           logged w (net w)
             [EvGo (GoReadMessage conn);
              EvGo (GoOnTextWrapper id (fst payload))]))
    ∧ (∀ e, it (inr e) = ended e)
    ∧ (∀ op e, IsControl op = true → ch = Some e → it (inl op) = ended e)
    ∧ (∀ op e,
        IsControl op = false → snd payload = Some e → it (inl op) = ended e)
    ∧ (∀ op,
        op = OpPing ∨ op = OpPong → ch = None →
        it (inl op)
        = (Ok (Continue loop_init),
           logged w (net w) [EvGo (GoReadMessage conn)]))
    ∧ (ch = None →
        it (inl OpClose)
        = (Ok (BreakReadLoop {| afterPing := afterPing l; to := Stopped |}),
           logged w (net w) [EvGo (GoReadMessage conn)]))
    ∧ (∀ op,
        op ≠ OpPing → op ≠ OpPong → op ≠ OpText → op ≠ OpClose →
        (if IsControl op then ch else snd payload) = None →
        it (inl op)
        = (Ok (Continue loop_init),
           logged w (net w)
             [EvGo (GoReadMessage conn);
              EvPrintf "[%d] Unknown received, OpCode: %v\n"
                [AUint id; AOp op]])).
Proof.
  intros id conn l w ch payload it ended. subst it ended. cbv beta.
  split_and!.
  - intros Hp. rewrite iteration_frame; [| by rewrite readMessage_Err | done].
    reflexivity.
  - intros e. by apply iteration_read_error.
  - intros op e Hop ->. apply iteration_read_error.
    by rewrite readMessage_Err, Hop.
  - intros op e Hop Hp. apply iteration_read_error.
    by rewrite readMessage_Err, Hop.
  - intros op [-> | ->] ->; by rewrite iteration_frame.
  - intros ->. by rewrite iteration_close_frame.
  - intros op N1 N2 N3 N4 He.
    assert (Err (readMessage (inl op) ch payload) = None) as He'
      by by rewrite readMessage_Err.
    pose proof (readMessage_Op _ _ _ He') as Hop.
    rewrite iteration_frame; [| done | by rewrite Hop].
    unfold dispatched. rewrite Hop.
    by rewrite !bool_decide_eq_false_2.
Qed.

End FrameFacts.

(** X2 at the frames of the tests: a text frame [hi], the same frame with
    the connection lost in its payload, and a binary frame. *)
Lemma only_complete_text_frames_reach_OnText_witness :
  iteration TNet 1%N 10 loop_init
    (FromChMsg (readMessage (inl OpText) None ([x68; x69], None))) one_client
  = (Ok (Continue loop_init),
     logged one_client []
       [EvGo (GoReadMessage 10); EvGo (GoOnTextWrapper 1%N [x68; x69])])
  ∧ iteration TNet 1%N 10 loop_init
      (FromChMsg (readMessage (inl OpText) None
                    ([x68], Some (ErrOther "unexpected EOF")))) one_client
    = (Ok (BreakReadLoop {| afterPing := false; to := Stopped |}),
       logged one_client []
         [EvGo (GoReadMessage 10);
          EvPrintf "[%d] read error: %s\n"
            [AUint 1%N; AErr (ErrOther "unexpected EOF")]])
  ∧ iteration TNet 1%N 10 awaiting_pong
      (FromChMsg (readMessage (inl OpBinary) None ([x68; x69], None)))
      one_client
    = (Ok (Continue loop_init),
       logged one_client []
         [EvGo (GoReadMessage 10);
          EvPrintf "[%d] Unknown received, OpCode: %v\n"
            [AUint 1%N; AOp OpBinary]]).
Proof.
  split_and!.
  - by apply (only_complete_text_frames_reach_OnText
                (App := list string) TNet 1%N 10 loop_init one_client None
                ([x68; x69], None)).
  - by apply (only_complete_text_frames_reach_OnText
                (App := list string) TNet 1%N 10 loop_init one_client None
                ([x68], Some (ErrOther "unexpected EOF"))).
  - by apply (only_complete_text_frames_reach_OnText
                (App := list string) TNet 1%N 10 awaiting_pong one_client None
                ([x68; x69], None)).
Defined.

(** ** The read loop as a whole *)

Lemma readers_app conn t1 t2 :
  readers conn (t1 ++ t2) = readers conn t1 + readers conn t2.
Proof. apply count_occ_app. Qed.

Section LoopFacts.
Context {App Net : Type}.
Variable tp : Transport Net.

Abbreviation W := (World App Net).

(** Where the loop waits after an iteration that took the case [s]. *)
Lemma iteration_spec id conn l s (w : W) :
  ∃ n w' t,
    iteration tp id conn l s w = (Ok n, w')
    ∧ conns w' = conns w ∧ app w' = app w
    ∧ trace w' = trace w ++ t
    ∧ Forall (loop_event conn) t
    ∧ readers conn t = 1
    ∧ match n with
      | Continue l' =>
          l' = match s with
               | FromTimer => awaiting_pong
               | FromChMsg _ => loop_init
               end
          ∧ net w' = net w
          ∧ ∀ c op payload, EvWrite c op payload ∉ t
      | BreakReadLoop l' =>
          to l' = Stopped ∨ (to l' = Expired ∧ afterPing l' = true)
      end.
Proof.
  assert (∀ e, e ≠ EvGo (GoReadMessage conn) →
               readers conn [EvGo (GoReadMessage conn); e] = 1) as R2.
  { intros e He. unfold readers.
    rewrite count_occ_cons_eq by done. by rewrite count_occ_cons_neq. }
  destruct s as [msg|].
  - destruct (Err msg) as [e|] eqn:He.
    + rewrite (iteration_read_error _ _ _ _ _ _ _ He).
      eexists _, _, _. split; [done |]. split_and!; try done.
      * by repeat constructor.
      * by apply R2.
      * by left.
    + destruct (decide (Op msg = OpClose)) as [Hop | Hop].
      * rewrite iteration_close_frame by done.
        eexists _, _, _. split; [done |]. split_and!; try done.
        -- by repeat constructor.
        -- unfold readers. by rewrite count_occ_cons_eq.
        -- by left.
      * rewrite iteration_frame by done.
        eexists _, _, _. split; [done |].
        unfold dispatched. split_and!; try done.
        -- repeat case_bool_decide; by repeat constructor.
        -- repeat case_bool_decide;
             (by apply R2)
             || (unfold readers; by rewrite count_occ_cons_eq).
        -- intros c op payload. repeat case_bool_decide; not_in_list.
  - destruct (afterPing l) eqn:Ha.
    + destruct (WriteServerMessage tp conn OpClose [x03; xea] (net w))
        as [err n] eqn:Hw.
      rewrite (iteration_timer_awaiting _ _ _ _ _ _ _ Ha Hw).
      eexists _, _, _. split; [done |]. split_and!; try done.
      * by repeat constructor.
      * unfold readers. rewrite count_occ_cons_eq by done.
        by rewrite !count_occ_cons_neq.
      * by right.
    + rewrite iteration_timer_idle by done.
      eexists _, _, _. split; [done |]. split_and!; try done.
      * by repeat constructor.
      * by apply R2.
      * intros c op payload. not_in_list.
Qed.

Lemma ReadLoop_app id conn ss1 ss2 l (w : W) :
  ReadLoop tp id conn l (ss1 ++ ss2) w
  = match ReadLoop tp id conn l ss1 w with
    | (Ok (Continue l'), w') => ReadLoop tp id conn l' ss2 w'
    | r => r
    end.
Proof.
  revert l w. induction ss1 as [|s ss1 IH]; intros l w; [done |].
  simpl. unfold bind.
  destruct (iteration tp id conn l s w) as [[[l'|l']|r] w']; [apply IH |..];
    done.
Qed.

Lemma ReadLoop_spec id conn l ss (w : W) :
  ∃ n w' t,
    ReadLoop tp id conn l ss w = (Ok n, w')
    ∧ conns w' = conns w ∧ app w' = app w
    ∧ trace w' = trace w ++ t
    ∧ Forall (loop_event conn) t
    ∧ (readers conn t ≤ length ss)%nat
    ∧ match n with
      | Continue l' =>
          l' = match last ss with
               | Some FromTimer => awaiting_pong
               | Some (FromChMsg _) => loop_init
               | None => l
               end
          ∧ net w' = net w
          ∧ readers conn t = length ss
          ∧ ∀ c op payload, EvWrite c op payload ∉ t
      | BreakReadLoop l' =>
          to l' = Stopped ∨ (to l' = Expired ∧ afterPing l' = true)
      end.
Proof.
  revert l w. induction ss as [|s ss IH]; intros l w.
  - exists (Continue l), w, []. simpl. rewrite app_nil_r.
    split_and!; try done. intros c op payload. apply not_elem_of_nil.
  - destruct (iteration_spec id conn l s w)
      as (n1 & w1 & t1 & E1 & C1 & A1 & T1 & F1 & R1 & N1).
    simpl. unfold bind. rewrite E1. destruct n1 as [l1 | l1].
    + destruct N1 as (L1 & Net1 & W1).
      destruct (IH l1 w1) as (n & w' & t & E & C & A & T & F & R & N).
      exists n, w', (t1 ++ t). rewrite E.
      split_and!; try congruence.
      * by rewrite T, T1, app_assoc.
      * by apply Forall_app.
      * rewrite readers_app, R1. simpl. lia.
      * destruct n as [l' | l']; [| done].
        destruct N as (L & Net' & R' & W'). split_and!.
        -- rewrite L. destruct ss as [|s' ss']; [rewrite L1; by destruct s |].
           change (last (s :: s' :: ss')) with (last (s' :: ss')).
           destruct (last (s' :: ss')) as [x|] eqn:El; [done |].
           by apply last_None in El.
        -- congruence.
        -- rewrite readers_app, R1, R'. done.
        -- intros c op payload. rewrite elem_of_app.
           intros [H | H]; [by apply (W1 c op payload) | by apply (W' c op payload)].
    + exists (BreakReadLoop l1), w1, t1. split_and!; try done.
      rewrite R1. simpl. lia.
Qed.

(** X3.  The loop never panics, and the state it is in follows from the last
    case its [select] took alone.  While it waits, the timer is armed: for
    15 seconds with a ping outstanding when the last case was the timer,
    for 30 seconds with no ping outstanding otherwise; no other state is
    ever waited in.  When it is left, the timer is not armed: it is stopped
    after a message, and expired with the ping unanswered after the second
    timeout. *)
Theorem loop_waits_with_the_timer_armed :
  ∀ id conn ss (w : W),
    (∃ n, result (ReadLoop tp id conn loop_init ss) w = Ok n)
    ∧ (∀ l',
        result (ReadLoop tp id conn loop_init ss) w = Ok (Continue l') →
        l' = match last ss with
             | Some FromTimer => {| afterPing := true; to := Armed TimeoutClose |}
             | _ => {| afterPing := false; to := Armed TimeoutPing |}
             end)
    ∧ (∀ l',
        result (ReadLoop tp id conn loop_init ss) w = Ok (BreakReadLoop l') →
        to l' = Stopped ∨ (to l' = Expired ∧ afterPing l' = true)).
Proof.
  intros id conn ss w.
  destruct (ReadLoop_spec id conn loop_init ss w)
    as (n & w' & t & E & _ & _ & _ & _ & _ & N).
  unfold result. rewrite E. simpl. split_and!.
  - by exists n.
  - intros l' [= ->]. destruct N as (-> & _).
    by destruct (last ss) as [[|]|].
  - by intros l' [= ->].
Qed.

(** X4.  The loop ends at the first iteration that breaks: the cases that
    would follow are never taken, whatever they are, and a loop that goes
    on composes.  Two timeouts in a row always end it, in whatever state
    it was, and so does one timeout while a ping is outstanding and one
    failed read: without a frame from the peer the loop lasts at most one
    ping. *)
Theorem loop_ends_at_the_first_break :
  ∀ id conn,
    (∀ ss1 ss2 l (w : W) l' w',
        ReadLoop tp id conn l ss1 w = (Ok (BreakReadLoop l'), w') →
        ReadLoop tp id conn l (ss1 ++ ss2) w = (Ok (BreakReadLoop l'), w'))
    ∧ (∀ ss1 ss2 l (w : W) l' w',
        ReadLoop tp id conn l ss1 w = (Ok (Continue l'), w') →
        ReadLoop tp id conn l (ss1 ++ ss2) w = ReadLoop tp id conn l' ss2 w')
    ∧ (∀ ss l (w : W), ∃ w',
        ReadLoop tp id conn l (FromTimer :: FromTimer :: ss) w
        = (Ok (BreakReadLoop {| afterPing := true; to := Expired |}), w')
        ∧ last (trace w') = Some (EvWrite conn OpClose [x03; xea]))
    ∧ (∀ ss l (w : W),
        afterPing l = true → ∃ w',
        ReadLoop tp id conn l (FromTimer :: ss) w
        = (Ok (BreakReadLoop {| afterPing := true; to := Expired |}), w')
        ∧ last (trace w') = Some (EvWrite conn OpClose [x03; xea]))
    ∧ (∀ ss l (w : W) msg e,
        Err msg = Some e → ∃ w',
        ReadLoop tp id conn l (FromChMsg msg :: ss) w
        = (Ok (BreakReadLoop {| afterPing := afterPing l; to := Stopped |}),
           w')).
Proof.
  intros id conn.
  assert (∀ ss l (w : W),
            afterPing l = true → ∃ w',
            ReadLoop tp id conn l (FromTimer :: ss) w
            = (Ok (BreakReadLoop {| afterPing := true; to := Expired |}), w')
            ∧ last (trace w') = Some (EvWrite conn OpClose [x03; xea])) as H1.
  { intros ss l w Ha.
    destruct (WriteServerMessage tp conn OpClose [x03; xea] (net w))
      as [err n] eqn:Hw.
    simpl. unfold bind.
    rewrite (iteration_timer_awaiting _ _ _ _ _ _ _ Ha Hw).
    eexists. split; [done |]. simpl.
    by rewrite last_app. }
  split_and!.
  - intros ss1 ss2 l w l' w' H. by rewrite ReadLoop_app, H.
  - intros ss1 ss2 l w l' w' H. by rewrite ReadLoop_app, H.
  - intros ss l w. destruct (afterPing l) eqn:Ha; [by apply H1 |].
    change (FromTimer :: FromTimer :: ss) with ([FromTimer] ++ FromTimer :: ss).
    rewrite ReadLoop_app. simpl. unfold bind at 1.
    rewrite iteration_timer_idle by done. simpl. by apply H1.
  - exact H1.
  - intros ss l w msg e He. simpl. unfold bind.
    rewrite (iteration_read_error _ _ _ _ _ _ _ He). by eexists.
Qed.

(** X5.  However long the loop runs and however it ends, it leaves the
    registry and the state of the application as they are and calls no
    callback itself: it starts goroutines (one [readMessage] per iteration,
    [onTextWrapper] for a text frame, the write of a ping), it logs, and
    the only frame it writes itself is the close frame [0x03 0xEA] on its
    own connection.  While it goes on it has written nothing and left the
    network as it was, and it has started as many [readMessage] goroutines
    as it made iterations, the iterations that took the timer included. *)
Theorem loop_leaves_registry_and_application_alone :
  ∀ id conn l ss (w : W),
    let w' := exec (ReadLoop tp id conn l ss) w in
    conns w' = conns w ∧ app w' = app w
    ∧ ∃ t, trace w' = trace w ++ t
           ∧ Forall (loop_event conn) t
           ∧ (readers conn t ≤ length ss)%nat
           ∧ (∀ l',
               result (ReadLoop tp id conn l ss) w = Ok (Continue l') →
               net w' = net w
               ∧ readers conn t = length ss
               ∧ ∀ c op payload, EvWrite c op payload ∉ t).
Proof.
  intros id conn l ss w.
  destruct (ReadLoop_spec id conn l ss w)
    as (n & w' & t & E & C & A & T & F & R & N).
  unfold exec, result. rewrite E. simpl. split_and!; try done.
  exists t. split_and!; try done.
  intros l' [= ->]. by destruct N as (_ & ? & ? & ?).
Qed.

End LoopFacts.

(** X4 at the server with one client: a pong between two timeouts keeps
    the loop going, and the third timeout after it only sends a ping; two
    timeouts in a row end the loop although a pong would follow. *)
Lemma loop_ends_at_the_first_break_witness :
  result (ReadLoop TNet 1%N 10 loop_init
            [FromTimer; FromChMsg (readMessage (inl OpPong) None ([], None));
             FromTimer]) one_client
  = Ok (Continue awaiting_pong)
  ∧ (∃ w', ReadLoop TNet 1%N 10 awaiting_pong
             [FromTimer; FromChMsg (readMessage (inl OpPong) None ([], None))]
             one_client
           = (Ok (BreakReadLoop {| afterPing := true; to := Expired |}), w')
           ∧ last (trace w') = Some (EvWrite 10 OpClose [x03; xea]))
  ∧ (∃ w', ReadLoop TNet 1%N 10 loop_init [FromChMsg eof; FromTimer] one_client
           = (Ok (BreakReadLoop {| afterPing := false; to := Stopped |}), w')).
Proof.
  destruct (loop_ends_at_the_first_break (App := list string) TNet 1%N 10)
    as (_ & H2 & _ & H4 & H5).
  split_and!.
  - pose proof (H2 [FromTimer]
                  [FromChMsg (readMessage (inl OpPong) None ([], None));
                   FromTimer] loop_init one_client awaiting_pong
                  (exec (ReadLoop TNet 1%N 10 loop_init [FromTimer]) one_client)
                  eq_refl) as E.
    unfold result. etransitivity; [exact (f_equal fst E) | reflexivity].
  - by apply (H4 _ awaiting_pong one_client).
  - by apply (H5 _ loop_init one_client eof (ErrOther "EOF")).
Defined.

(** ** The handshake as a whole *)

Section HandshakeEffects.
Context {App Net : Type}.
Variable h : Handlers App.
Variable url : UrlPkg.

Abbreviation W := (World App Net).

Lemma auth_only_ret {A} (a : A) : @auth_only App Net A (ret a).
Proof. intros w. split_and!; try done. exists []. by rewrite app_nil_r. Qed.

Lemma auth_only_panic {A} r : @auth_only App Net A (panic r).
Proof. intros w. split_and!; try done. exists []. by rewrite app_nil_r. Qed.

Lemma auth_only_bind {A B} (m : M W A) (k : A → M W B) :
  auth_only m → (∀ a, auth_only (k a)) → auth_only (bind m k).
Proof.
  intros Hm Hk w. destruct (Hm w) as (Hc & Hn & t & Ht & Hq).
  unfold exec, bind in *. destruct (m w) as [[a|r] w1]; simpl in *.
  - destruct (Hk a w1) as (Hc' & Hn' & t' & Ht' & Hq'). unfold exec in *.
    split_and!; try congruence.
    exists (t ++ t'). rewrite Ht', Ht, app_assoc. split; [done |].
    by apply Forall_app.
  - split_and!; try done. by exists t.
Qed.

Lemma auth_only_onAuthWrapper token :
  @auth_only App Net _ (onAuthWrapper h token).
Proof.
  intros w. unfold exec.
  destruct (OnAuth h token (app w)) as [[v|r] a] eqn:E.
  - rewrite (onAuthWrapper_returns _ _ _ _ _ E). simpl.
    split_and!; try done. eexists. split; [done |]. by repeat constructor.
  - rewrite (onAuthWrapper_recovers _ _ _ _ _ E). simpl.
    split_and!; try done. eexists. split; [done |]. by repeat constructor.
Qed.

Lemma auth_only_index_or_panic {A} (l : list A) i :
  @auth_only App Net A (index_or_panic l i).
Proof.
  unfold index_or_panic. destruct (l !! i);
    [apply auth_only_ret | apply auth_only_panic].
Qed.

Lemma auth_only_asked (m : M W (uint * bool)) :
  auth_only m →
  auth_only (res <- m;;
             if negb (snd res) then ret (fst res, Some ErrAuthFailed)
             else ret (fst res, None)).
Proof.
  intros Hm. apply auth_only_bind; [done |]. intros res.
  destruct (negb (snd res)); apply auth_only_ret.
Qed.

Lemma auth_only_OnRequest u id : @auth_only App Net _ (OnRequest h url u id).
Proof.
  unfold OnRequest. destruct (Parse url u) as [p|]; [| apply auth_only_ret].
  case_bool_decide; [| apply auth_only_ret].
  destruct (ParseQuery url (RawQuery p)) as [m|]; [| apply auth_only_ret].
  destruct (m !! AuthTokenKey) as [token|]; [| apply auth_only_ret].
  apply auth_only_bind; [apply auth_only_index_or_panic |]. intros t0.
  apply auth_only_asked, auth_only_onAuthWrapper.
Qed.

Lemma auth_only_OnHeader key value id :
  @auth_only App Net _ (OnHeader h key value id).
Proof.
  unfold OnHeader.
  destruct (bool_decide (id = 0%N) && bool_decide (key = "Authorization"));
    [| apply auth_only_ret].
  destruct (HasPrefix value "Bearer " || HasPrefix value "Basic ");
    [| apply auth_only_ret].
  apply auth_only_bind; [apply auth_only_index_or_panic |]. intros cred.
  apply auth_only_asked, auth_only_onAuthWrapper.
Qed.

Lemma auth_only_on_headers hs i id :
  @auth_only App Net _ (on_headers h hs i id).
Proof.
  revert i id. induction hs as [|[key value] hs IH]; intros i id;
    [apply auth_only_ret |].
  simpl. apply auth_only_bind; [apply auth_only_OnHeader |]. intros r.
  destruct (snd r); [apply auth_only_ret | apply IH].
Qed.

Lemma auth_only_Upgrade req : @auth_only App Net _ (Upgrade h url req).
Proof.
  apply auth_only_bind.
  - apply auth_only_bind; [apply auth_only_OnRequest |]. intros r.
    destruct (snd r); [apply auth_only_ret | apply auth_only_on_headers].
  - intros r. destruct (snd r); [apply auth_only_ret |].
    destruct (OnBeforeUpgrade (fst r)); apply auth_only_ret.
Qed.

(** What a hook does with a credential: it asks [OnAuth], and passes only
    with an identity [OnAuth] has answered with [ok]. *)
Lemma asked_spec t (w : W) :
  ∃ id e w',
    (res <- onAuthWrapper h t;; answer res) w = (Ok (id, e), w')
    ∧ (e = None → vouched h id).
Proof.
  unfold bind, answer.
  destruct (OnAuth h t (app w)) as [[[id ok]|r] a] eqn:E.
  - rewrite (onAuthWrapper_returns _ _ _ _ _ E).
    destruct ok; simpl; eexists _, _, _; (split; [done |]); [| done].
    intros _. by exists t, (app w), a.
  - rewrite (onAuthWrapper_recovers _ _ _ _ _ E). simpl.
    by eexists _, _, _.
Qed.

Lemma OnRequest_spec u id (w : W) :
  query_token url u ≠ Some [] →
  ∃ id' e w',
    OnRequest h url u id w = (Ok (id', e), w')
    ∧ (e = None → id' = id ∨ vouched h id').
Proof.
  intros Hq. destruct (query_token url u) as [[|t ts]|] eqn:E; [done | |].
  - rewrite (OnRequest_token _ _ _ _ _ _ _ E).
    destruct (asked_spec t w) as (id' & e & w' & H & Hv).
    exists id', e, w'. split; [done |]. intros He. right. by apply Hv.
  - rewrite OnRequest_no_token by done. exists id, None, w. split; [done |].
    by left.
Qed.

Lemma OnRequest_empty u id (w : W) :
  query_token url u = Some [] →
  OnRequest h url u id w = (Fault "index out of range", w).
Proof.
  unfold query_token, OnRequest. intros H.
  destruct (Parse url u) as [p|]; [| done].
  case_bool_decide; [| done].
  destruct (ParseQuery url (RawQuery p)) as [m|]; [| done].
  by rewrite H.
Qed.

Lemma OnHeader_spec key value id (w : W) :
  ∃ id' e w',
    OnHeader h key value id w = (Ok (id', e), w')
    ∧ (e = None → id' = id ∨ vouched h id').
Proof.
  destruct (decide (id = 0%N)) as [-> | Hid];
    [| rewrite OnHeader_resolved by done; exists id, None, w; by split; [| left]].
  destruct (decide (key = "Authorization")) as [-> | Hk];
    [| rewrite OnHeader_other by done; exists 0%N, None, w; by split; [| left]].
  destruct (HasPrefix value "Bearer ") eqn:H1.
  { apply HasPrefix_append in H1 as [rest ->].
    rewrite OnHeader_scheme by by left.
    destruct (asked_spec rest w) as (id' & e & w' & H & Hv).
    exists id', e, w'. split; [done |]. intros He. right. by apply Hv. }
  destruct (HasPrefix value "Basic ") eqn:H2.
  { apply HasPrefix_append in H2 as [rest ->].
    rewrite OnHeader_scheme by by right.
    destruct (asked_spec rest w) as (id' & e & w' & H & Hv).
    exists id', e, w'. split; [done |]. intros He. right. by apply Hv. }
  rewrite OnHeader_bad by done. by eexists _, _, _.
Qed.

Lemma on_headers_spec hs i id (w : W) :
  ∃ id' e w',
    on_headers h hs i id w = (Ok (id', e), w')
    ∧ (e = None → id' = id ∨ vouched h id').
Proof.
  revert i id w. induction hs as [|[key value] hs IH]; intros i id w.
  - exists id, None, w. split; [done |]. by left.
  - simpl. unfold bind.
    destruct (OnHeader_spec key value id w) as (id1 & e1 & w1 & H1 & V1).
    rewrite H1. simpl. destruct e1 as [err|].
    + by eexists _, _, _.
    + destruct (IH (S i) id1 w1) as (id' & e & w' & H & V).
      exists id', e, w'. split; [done |]. intros He.
      destruct (V He) as [-> | Hv]; [by apply V1 | by right].
Qed.

Lemma Upgrade_spec req (w : W) :
  query_token url (uri req) ≠ Some [] →
  ∃ id e w',
    Upgrade h url req w = (Ok (id, e), w')
    ∧ (e = None → id ≠ 0%N ∧ vouched h id).
Proof.
  intros Hq. unfold Upgrade, run_hooks. unfold bind.
  destruct (OnRequest_spec (uri req) 0%N w Hq) as (id1 & e1 & w1 & H1 & V1).
  rewrite H1. simpl. destruct e1 as [err|]; [by eexists _, _, _ |].
  destruct (on_headers_spec (headers req) 0 id1 w1)
    as (id2 & e2 & w2 & H2 & V2).
  rewrite H2. simpl. destruct e2 as [err|]; [by eexists _, _, _ |].
  unfold OnBeforeUpgrade. case_bool_decide as Hid; simpl.
  - by eexists _, _, _.
  - eexists _, _, _. split; [done |]. intros _. split; [done |].
    destruct (V2 eq_refl) as [-> | Hv]; [| done].
    destruct (V1 eq_refl) as [-> | Hv]; done.
Qed.

(** X6.  The handshake acts on the application only: it leaves the registry
    and the network as they are, and what it adds to the trace are calls of
    [OnAuth] and the logs of their recovered panics.  It returns, with an
    identity and possibly an error, unless the query parameter [token] is
    present with an empty list of values: then [token[0]] panics, outside
    every wrapper.  An accepted handshake carries an identity that is not
    [0] and that [OnAuth] has answered with [ok]: the server makes up no
    identity. *)
Theorem handshake_only_asks_OnAuth :
  ∀ req (w : W),
    conns (exec (Upgrade h url req) w) = conns w
    ∧ net (exec (Upgrade h url req) w) = net w
    ∧ (∃ t, trace (exec (Upgrade h url req) w) = trace w ++ t
            ∧ Forall auth_event t)
    ∧ (query_token url (uri req) ≠ Some [] →
        ∃ r, result (Upgrade h url req) w = Ok r)
    ∧ (query_token url (uri req) = Some [] →
        ∃ r, Upgrade h url req w = (Fault r, w))
    ∧ (∀ id w',
        Upgrade h url req w = (Ok (id, None), w') →
        id ≠ 0%N ∧ vouched h id).
Proof.
  intros req w. destruct (auth_only_Upgrade req w) as (Hc & Hn & Ht).
  split_and!; try done.
  - intros Hq. destruct (Upgrade_spec req w Hq) as (id & e & w' & H & _).
    unfold result. rewrite H. by eexists.
  - intros Hq. exists "index out of range". unfold Upgrade, run_hooks, bind.
    by rewrite OnRequest_empty.
  - intros id w' H.
    destruct (decide (query_token url (uri req) = Some [])) as [Hq | Hq].
    + unfold Upgrade, run_hooks, bind in H.
      by rewrite OnRequest_empty in H.
    + destruct (Upgrade_spec req w Hq) as (id' & e & w'' & H' & V).
      rewrite H in H'. injection H' as <- <- <-. by apply V.
Qed.

End HandshakeEffects.

(** X6 at the handlers of the tests: the handshake with the token is
    accepted with the identity [OnAuth] answers. *)
Lemma handshake_only_asks_OnAuth_witness :
  Upgrade THandlers TUrl with_token TWorld
  = (Ok (1%N, None), returned TWorld (CbOnAuth "123456") ["OnAuth"])
  ∧ 1%N ≠ 0%N ∧ vouched THandlers 1%N.
Proof.
  split; [reflexivity |].
  destruct (handshake_only_asks_OnAuth (Net := list Conn) THandlers TUrl
              with_token TWorld) as (_ & _ & _ & _ & _ & H).
  by apply (H 1%N (returned TWorld (CbOnAuth "123456") ["OnAuth"])).
Defined.

(** ** The runs of [handle], further *)

Section HandleFacts.
Context {App Net : Type}.
Variable h : Handlers App.
Variable tp : Transport Net.
Variable url : UrlPkg.
Variable conn : Conn.

Abbreviation W := (World App Net).
Abbreviation step' := (step h tp url conn).
Abbreviation run' := (run h tp url conn).

Lemma onOnlineWrapper_wg id wg (w w' : W) wg' :
  onOnlineWrapper h id wg w = (Ok wg', w') → (0 < wg)%Z ∧ wg' = (wg - 1)%Z.
Proof.
  intros H. destruct (decide (0 < wg)%Z) as [Hwg | Hwg].
  - destruct (onOnlineWrapper_total h id wg w Hwg) as (w1 & H1 & _).
    rewrite H in H1. by injection H1 as -> _.
  - exfalso. unfold onOnlineWrapper, bind, wg_Done in H.
    destruct (with_recover _ _ _ w) as [[[]|r] w1]; [| done].
    case_decide; [done | lia].
Qed.

Lemma upsert_total id c (w : W) : ∃ w', upsert tp id c w = (Ok tt, w').
Proof.
  destruct (conns w !! id) as [c'|] eqn:E;
    [destruct (decide (c' = c)) as [-> | Hne] |].
  - rewrite upsert_same by done. by eexists.
  - destruct (Close tp c' (net w)) as [err n] eqn:Hc.
    rewrite (upsert_evicts _ _ _ _ _ _ _ E Hne Hc). by eexists.
  - rewrite upsert_fresh by done. by eexists.
Qed.

Lemma close_conn_total c (w : W) :
  ∃ err w', close_conn tp c w = (Ok err, w') ∧ conns w' = conns w.
Proof.
  unfold close_conn, transport. simpl. destruct (Close tp c (net w)).
  by eexists _, _.
Qed.

Lemma Upgrade_accepted req (w w' : W) id :
  Upgrade h url req w = (Ok (id, None), w') → id ≠ 0%N.
Proof.
  intros H. unfold Upgrade, bind, ret, OnBeforeUpgrade in H.
  destruct (run_hooks h url req w) as [[[id' [e|]]|r] w1]; simpl in H;
    try congruence.
  case_bool_decide; simpl in H; congruence.
Qed.

Lemma resolved_inv_step s l s' :
  resolved_inv s → step' s l s' → resolved_inv s'.
Proof.
  intros Hs Hstep i. unfold resolved_inv in Hs.
  destruct Hstep as
    [ req wg g w w' id Hu
    | req wg g w w' w'' id st err Hu Hlog
    | id wg g w w' Hu
    | id wg wg' g w w' Hu
    | id lp sel n wg g w w' Hu
    | id b wg g w w' Hu
    | id wg g w w' Hu
    | id wg g w Hwg
    | id wg g w w' Hu
    | wg g w w' err Hu
    | id p wg wg' w w' Hu
    | p wg g w w' ]; simpl in *; try done; try (intros [= <-]; by apply Hs).
  - intros [= <-]. by eapply Upgrade_accepted.
  - destruct n; simpl; intros [= <-]; by apply Hs.
  - destruct b; simpl; [| done]. intros [= <-]. by apply Hs.
  - by apply Hs.
  - by apply Hs.
Qed.

Lemma online_inv_step s l s' :
  resolved_inv s → online_inv s → step' s l s' → online_inv s'.
Proof.
  intros Hr Hs Hstep. unfold online_inv, resolved_inv in *.
  destruct Hstep as
    [ req wg g w w' id Hu
    | req wg g w w' w'' id st err Hu Hlog
    | id wg g w w' Hu
    | id wg wg' g w w' Hu
    | id lp sel n wg g w w' Hu
    | id b wg g w w' Hu
    | id wg g w w' Hu
    | id wg g w Hwg
    | id wg g w w' Hu
    | wg g w w' err Hu
    | id p wg wg' w w' Hu
    | p wg g w w' ]; simpl in *.
  - destruct g; simpl in *; intuition done.
  - destruct g; simpl in *; intuition done.
  - destruct g; simpl in *; intuition done.
  - split; [| by apply Hr].
    unfold start_online in Hu. unfold_go. by injection Hu as <- _.
  - destruct g; simpl in *; [by destruct Hs | done | done].
  - destruct g; simpl in *; [by destruct Hs | done | done].
  - destruct g; simpl in *; [by destruct Hs | done | done].
  - destruct g; simpl in *; [by destruct Hs | done | done].
  - destruct g; simpl in *; [by destruct Hs | done | done].
  - destruct g; simpl in *; intuition done.
  - apply onOnlineWrapper_wg in Hu as [_ ->]. by destruct Hs as [-> _].
  - done.
Qed.

Lemma run_resolved_online req (w : W) ls s :
  run' (handle_start req w) ls s → resolved_inv s ∧ online_inv s.
Proof.
  intros Hr. remember (handle_start req w) as s0 eqn:E.
  induction Hr as [s0 | s0 ls s1 l s2 Hr IH Hs]; subst.
  - split; [by intros id | done].
  - destruct (IH eq_refl) as [H1 H2]. split.
    + by eapply resolved_inv_step.
    + by eapply online_inv_step.
Qed.

(** The registry under the steps of [handle]. *)
Lemma step_conns s l s' :
  step' s l s' →
  match l with
  | LUpsert =>
      ∃ id, s_pc s = PUpsert id
            ∧ conns (s_world s') = <[id:=conn]> (conns (s_world s))
  | LDelete =>
      ∃ id, s_pc s = PDelete id
            ∧ conns (s_world s') = delete id (conns (s_world s))
  | LEnv => True
  | _ => conns (s_world s') = conns (s_world s)
  end.
Proof.
  intros Hstep.
  destruct Hstep as
    [ req wg g w w' id Hu
    | req wg g w w' w'' id st err Hu Hlog
    | id wg g w w' Hu
    | id wg wg' g w w' Hu
    | id lp sel n wg g w w' Hu
    | id b wg g w w' Hu
    | id wg g w w' Hu
    | id wg g w Hwg
    | id wg g w w' Hu
    | wg g w w' err Hu
    | id p wg wg' w w' Hu
    | p wg g w w' ]; simpl.
  - pose proof (auth_only_Upgrade h url req w) as (Hc & _).
    unfold exec in Hc. by rewrite Hu in Hc.
  - pose proof (auth_only_Upgrade h url req w) as (Hc & _).
    unfold exec in Hc. rewrite Hu in Hc. simpl in Hc.
    unfold log_upgrade_error in Hlog. unfold_go. by injection Hlog as <-.
  - exists id. split; [done |].
    pose proof (upsert_conns tp id conn w) as Hc.
    unfold exec in Hc. by rewrite Hu in Hc.
  - unfold start_online in Hu. unfold_go. by injection Hu as _ <-.
  - destruct (iteration_spec tp id conn lp sel w)
      as (n' & w1 & t & E & Hc & _).
    rewrite Hu in E. by injection E as -> ->.
  - rewrite registered_spec in Hu. by injection Hu as _ <-.
  - exists id. split; [done |]. unfold_go. by injection Hu as <-.
  - done.
  - unfold start_offline in Hu. unfold_go. by injection Hu as <-.
  - destruct (close_conn_total conn w) as (e' & w1 & E & Hc).
    rewrite Hu in E. by injection E as _ ->.
  - pose proof Hu as Hu'. apply onOnlineWrapper_wg in Hu' as [Hwg _].
    destruct (onOnlineWrapper_total h id wg w Hwg) as (w1 & E & Hc & _).
    rewrite Hu in E. by injection E as _ ->.
  - done.
Qed.

(** X7.  In every run of [handle], under every interleaving: the identity
    [handle] works with after the upgrade is never [0], at every statement
    and in its [onOnlineWrapper] goroutine, so [OnOnline], [OnText] and
    [OnOffline] are never started for the identity [0] and the registry
    never gets the key [0] from it.  [handle] changes the registry in two
    steps only: the upsert, which maps its identity to its own connection
    and leaves every other entry alone, and the delete of its identity.
    No other step of it, and no step of its goroutine, changes the
    registry. *)
Theorem handle_works_with_a_resolved_identity :
  ∀ req (w : W) ls s,
    run' (handle_start req w) ls s →
    (∀ id, identity (s_pc s) = Some id → id ≠ 0%N)
    ∧ (∀ id, s_online s = Ready id → id ≠ 0%N)
    ∧ (∀ s', step' s LUpsert s' →
        ∃ id, id ≠ 0%N ∧ s_pc s = PUpsert id
              ∧ conns (s_world s') !! id = Some conn
              ∧ ∀ id', id' ≠ id →
                  conns (s_world s') !! id' = conns (s_world s) !! id')
    ∧ (∀ s', step' s LDelete s' →
        ∃ id, id ≠ 0%N ∧ s_pc s = PDelete id
              ∧ conns (s_world s') = delete id (conns (s_world s)))
    ∧ (∀ l s', step' s l s' → l ≠ LUpsert → l ≠ LDelete → l ≠ LEnv →
        conns (s_world s') = conns (s_world s)).
Proof.
  intros req w ls s Hr.
  destruct (run_resolved_online _ _ _ _ Hr) as [H1 H2].
  split_and!.
  - exact H1.
  - intros id Hg. unfold online_inv in H2. rewrite Hg in H2. by destruct H2.
  - intros s' Hs. destruct (step_conns _ _ _ Hs) as (id & Hpc & Hc).
    exists id. split_and!; try done.
    + apply H1. by rewrite Hpc.
    + by rewrite Hc, lookup_insert_eq.
    + intros id' Hne. by rewrite Hc, lookup_insert_ne.
  - intros s' Hs. destruct (step_conns _ _ _ Hs) as (id & Hpc & Hc).
    exists id. split_and!; try done. apply H1. by rewrite Hpc.
  - intros l s' Hs N1 N2 N3. pose proof (step_conns _ _ _ Hs) as Hc.
    by destruct l.
Qed.

(** From a statement after the upgrade, [handle] can always run to its
    end, on its own and with its goroutine. *)
Lemma returns_from_deferred wg g (w : W) :
  ∃ ls s', run' (Build_session PDeferred wg g w) ls s'
           ∧ s_pc s' = PReturned ∧ (LEnv ∉ ls).
Proof.
  destruct (close_conn_total conn w) as (err & w' & E & _).
  exists [LClose]. eexists. split_and!.
  - eapply run_cons; [by eapply step_close | constructor].
  - done.
  - not_in_list.
Qed.

Lemma returns_after l s s1 :
  step' s l s1 → l ≠ LEnv →
  (∃ ls s', run' s1 ls s' ∧ s_pc s' = PReturned ∧ (LEnv ∉ ls)) →
  ∃ ls s', run' s ls s' ∧ s_pc s' = PReturned ∧ (LEnv ∉ ls).
Proof.
  intros Hs Hl (ls & s' & Hr & Hp & Hn). exists (l :: ls), s'.
  split_and!; [by eapply run_cons | done |].
  apply not_elem_of_cons. split; [congruence | done].
Qed.

Lemma returns_from_start_offline id wg g (w : W) :
  ∃ ls s', run' (Build_session (PStartOffline id) wg g w) ls s'
           ∧ s_pc s' = PReturned ∧ (LEnv ∉ ls).
Proof.
  eapply returns_after; [by apply step_start_offline | done |].
  apply returns_from_deferred.
Qed.

Lemma returns_from_wait id wg g (w : W) :
  (wg = 0%Z ∧ g ≠ NotStarted) ∨ (wg = 1%Z ∧ ∃ id', g = Ready id') →
  ∃ ls s', run' (Build_session (PWait id) wg g w) ls s'
           ∧ s_pc s' = PReturned ∧ (LEnv ∉ ls).
Proof.
  intros [[-> _] | [-> [id' ->]]].
  - eapply returns_after; [by apply step_wait | done |].
    apply returns_from_start_offline.
  - destruct (onOnlineWrapper_total h id' 1%Z w) as (w' & E & _); [lia |].
    eapply returns_after; [by eapply step_online | done |].
    eapply returns_after; [by apply step_wait | done |].
    apply returns_from_start_offline.
Qed.

Lemma returns_from_check id wg g (w : W) :
  (wg = 0%Z ∧ g ≠ NotStarted) ∨ (wg = 1%Z ∧ ∃ id', g = Ready id') →
  ∃ ls s', run' (Build_session (PCheck id) wg g w) ls s'
           ∧ s_pc s' = PReturned ∧ (LEnv ∉ ls).
Proof.
  intros Hg.
  eapply returns_after; [apply step_check, registered_spec | done |].
  destruct (bool_decide (conns w !! id = Some conn)).
  - eapply returns_after; [by apply step_delete | done |].
    by apply returns_from_wait.
  - apply returns_from_deferred.
Qed.

Lemma returns_from_loop id l wg g (w : W) :
  (wg = 0%Z ∧ g ≠ NotStarted) ∨ (wg = 1%Z ∧ ∃ id', g = Ready id') →
  ∃ ls s', run' (Build_session (PLoop id l) wg g w) ls s'
           ∧ s_pc s' = PReturned ∧ (LEnv ∉ ls).
Proof.
  intros Hg.
  eapply returns_after;
    [apply (step_iterate _ _ _ _ _ _ (FromChMsg eof)),
       (iteration_read_error _ _ _ _ eof _ (ErrOther "EOF") eq_refl)
    | done |].
  by apply returns_from_check.
Qed.

Lemma returns_from_start_online id wg g (w : W) :
  ∃ ls s', run' (Build_session (PStartOnline id) wg g w) ls s'
           ∧ s_pc s' = PReturned ∧ (LEnv ∉ ls).
Proof.
  eapply returns_after; [by apply step_start_online | done |].
  apply returns_from_loop. right. split; [done | by eexists].
Qed.

(** X8.  In every run of [handle], under every interleaving: the counter of
    the wait group is [1] exactly while the [onOnlineWrapper] goroutine is
    started and has not run to its end, and [0] otherwise; it never gets
    negative, so the [wg.Done()] of the goroutine never panics: once started
    the goroutine can always run to its end, and that leaves the counter at
    [0].  The wait therefore never blocks for ever: from every statement
    after the upgrade, [handle] and its goroutine can run on their own,
    without a step of anybody else, until [handle] has closed its
    connection and returned. *)
Theorem wait_group_never_blocks_handle :
  ∀ req (w : W) ls s,
    run' (handle_start req w) ls s →
    (s_wg s = 1%Z ↔ ∃ id, s_online s = Ready id)
    ∧ (s_wg s = 0%Z ∨ s_wg s = 1%Z)
    ∧ (∀ id, s_online s = Ready id →
        ∃ w', step' s LOnlineDone (Build_session (s_pc s) 0%Z Finished w'))
    ∧ ((∀ r, s_pc s ≠ PUpgrade r) →
        ∃ ls' s', run' s ls' s' ∧ s_pc s' = PReturned ∧ (LEnv ∉ ls')).
Proof.
  intros req w ls s Hr.
  destruct (run_resolved_online _ _ _ _ Hr) as [H1 H2].
  destruct s as [p wg g w1]. unfold online_inv in H2. simpl in *.
  split_and!.
  - destruct g; [destruct H2 as [-> _] | destruct H2 as [-> _] | subst wg];
      split; try done; try (by intros [? ?]). by eexists.
  - destruct g; [left; by destruct H2 | right; by destruct H2 | by left].
  - intros id ->. destruct H2 as [-> _].
    destruct (onOnlineWrapper_total h id 1%Z w1) as (w' & E & _); [lia |].
    exists w'. by apply step_online.
  - intros Hp.
    assert (g ≠ NotStarted →
            (wg = 0%Z ∧ g ≠ NotStarted) ∨ (wg = 1%Z ∧ ∃ id', g = Ready id'))
      as Hg.
    { intros Hn. destruct g; [done | right | left]; [| done].
      destruct H2 as [-> _]. split; [done | by eexists]. }
    destruct p as [r | id | id | id l | id | id | id | id | |].
    + by destruct (Hp r).
    + destruct (upsert_total id conn w1) as (w' & E).
      eapply returns_after; [by apply step_upsert | done |].
      apply returns_from_start_online.
    + apply returns_from_start_online.
    + apply returns_from_loop, Hg. by destruct g; [destruct H2 | |].
    + apply returns_from_check, Hg. by destruct g; [destruct H2 | |].
    + eapply returns_after; [by apply step_delete | done |].
      apply returns_from_wait, Hg. by destruct g; [destruct H2 | |].
    + apply returns_from_wait, Hg. by destruct g; [destruct H2 | |].
    + apply returns_from_start_offline.
    + apply returns_from_deferred.
    + exists [], (Build_session PReturned wg g w1). split_and!;
        [constructor | done | apply not_elem_of_nil].
Qed.

(** X9.  A handshake that is refused, at whatever hook and with whatever
    error, leaves [handle] with two things to do: it logs the error with the
    addresses of the connection, and it closes the connection.  The registry
    is as it was before the handshake, [onOnlineWrapper] was not started
    and the counter of the wait group is untouched; no run of [handle]
    gets from that handshake to the upsert. *)
Theorem refused_handshake_only_logs_and_closes :
  ∀ req (w w1 : W) id st err cerr n,
    Upgrade h url req w = (Ok (id, Some (st, err)), w1) →
    Close tp conn (net w1) = (cerr, n) →
    run' (handle_start req w) [LUpgrade; LClose]
      (Build_session PReturned 0%Z NotStarted
         (Build_World (conns w) (app w1) n
            (trace w1
               ++ [EvPrintf "%s: upgrade error: %v" [AConn conn; AErr err];
                   EvClose conn])))
    ∧ net w1 = net w
    ∧ (∀ s', step' (handle_start req w) LUpgrade s' →
        s_pc s' = PDeferred ∧ s_online s' = NotStarted ∧ s_wg s' = 0%Z
        ∧ conns (s_world s') = conns w).
Proof.
  intros req w w1 id st err cerr n Hu Hc.
  destruct (auth_only_Upgrade h url req w) as (Hcs & Hn & _).
  unfold exec in Hcs, Hn. rewrite Hu in Hcs, Hn. simpl in Hcs, Hn.
  split_and!; [| done |].
  - eapply run_cons; [by eapply step_upgrade_error |].
    eapply run_cons; [| constructor]. eapply (step_close _ _ _ _ _ _ _ _ cerr).
    unfold log_upgrade_error, close_conn. unfold_go. simpl. rewrite Hc.
    unfold record, set_net. simpl. by rewrite Hcs, <- app_assoc.
  - intros s' Hs. inversion Hs; subst; simpl.
    + congruence.
    + match goal with H : Upgrade _ _ _ _ = _ |- _ =>
        rewrite Hu in H; injection H as <- <- <- <- end.
      match goal with H : log_upgrade_error _ _ _ = _ |- _ =>
        unfold log_upgrade_error in H; unfold_go; by injection H as <- end.
Qed.

(** X10.  The test of line 218 is made before the mutex is taken.  When it
    has found the entry of this connection, and another connection then
    registers under the same identity before the delete is made, the delete
    still runs: it removes the entry of the other connection, which is not
    closed.  The registry then has no entry for the identity although a
    connection of it is open, the wait is passed as usual, and a
    [WriteMessage] to the identity that [OnSend] lets pass finds no
    connection. *)
Theorem stale_test_unregisters_the_successor :
  ∀ id c2 wg g (w : W) err n,
    c2 ≠ conn → conns w !! id = Some conn →
    Close tp conn (net w) = (err, n) →
    let w2 := exec (upsert tp id c2) w in
    let w3 := exec (remove id) w2 in
    run' (Build_session (PCheck id) wg g w) [LCheck true; LEnv; LDelete]
      (Build_session (PWait id) wg g w3)
    ∧ conns w2 !! id = Some c2
    ∧ w3 = Build_World (delete id (<[id:=c2]> (conns w))) (app w) n
             (trace w ++ (EvClose conn :: close_log err)
                ++ [EvStore id c2; EvDelete id])
    ∧ conns w3 !! id = None
    ∧ (∀ msg a,
        OnSend h id msg (app w3) = (Ok true, a) →
        result (WriteMessage h tp id msg) w3 = Ok (Some ErrConnNotFound)).
Proof.
  intros id c2 wg g w err n Hne Hc Hcl w2 w3.
  assert (conns w2 = <[id:=c2]> (conns w)) as Hc2 by apply upsert_conns.
  assert (conns w3 = delete id (conns w2)) as Hc3 by done.
  split_and!.
  - eapply run_cons.
    { apply (step_check _ _ _ _ id true). rewrite registered_spec.
      by rewrite bool_decide_eq_true_2. }
    eapply run_cons; [apply (step_env _ _ _ _ _ _ _ w w2) |].
    eapply run_cons; [| constructor]. by apply step_delete.
  - by rewrite Hc2, lookup_insert_eq.
  - subst w3 w2. unfold exec.
    rewrite (upsert_evicts _ _ _ _ _ _ _ Hc (not_eq_sym Hne) Hcl).
    unfold_go. unfold record, set_conns. simpl. f_equal.
    rewrite <- app_assoc. simpl. by rewrite <- app_assoc.
  - by rewrite Hc3, lookup_delete_eq.
  - intros msg a Ha. unfold result.
    rewrite (WriteMessage_not_found _ _ _ _ _ _ Ha); [done |].
    by rewrite Hc3, lookup_delete_eq.
Qed.

End HandleFacts.

(** ** The credentials of a handshake, further *)

Section CredentialFacts.
Context {App Net : Type}.
Variable h : Handlers App.
Variable url : UrlPkg.

Abbreviation W := (World App Net).

(** X11.  A credential [OnAuth] refuses ends the handshake at the hook that
    presented it, with [ErrAuthFailed], whatever identity came with the
    refusal: a refused token is not made good by an [Authorization] header,
    however valid, and a refused header is not made good by a later one.
    [OnAuth] is asked once, and of the values of the query parameter
    [token] the first one only. *)
Theorem refused_credential_is_final :
  (∀ req (w : W) t ts id a,
      query_token url (uri req) = Some (t :: ts) →
      OnAuth h t (app w) = (Ok (id, false), a) →
      Upgrade h url req w
      = (Ok (id, Some (AtRequest, ErrAuthFailed)),
         returned w (CbOnAuth t) a))
  ∧ (∀ req (w : W) pre s cred post id a,
      query_token url (uri req) = None →
      headers req = pre ++ ("Authorization", String.append s cred) :: post →
      no_authorization pre → scheme s →
      OnAuth h cred (app w) = (Ok (id, false), a) →
      Upgrade h url req w
      = (Ok (id, Some (AtHeader (length pre), ErrAuthFailed)),
         returned w (CbOnAuth cred) a)).
Proof.
  split.
  - intros req w t ts id a Hq Ha. apply Upgrade_hook_error.
    rewrite (run_hooks_token _ _ _ _ _ _ Hq).
    by rewrite (onAuthWrapper_returns _ _ _ _ _ Ha).
  - intros req w pre s cred post id a Hq Hh Hpre Hs Ha.
    apply Upgrade_hook_error.
    rewrite (run_hooks_header _ _ _ _ _ _ _ Hq Hh Hpre).
    unfold bind at 1. rewrite OnHeader_scheme by done.
    unfold bind at 1. by rewrite (onAuthWrapper_returns _ _ _ _ _ Ha).
Qed.

(** X12.  A credential [OnAuth] answers with [(0, true)] neither resolves
    nor refuses: the handshake goes on to the next source.  After such a
    token the first [Authorization] header with a scheme is asked, and after
    such a header the next one is; the identity the second call resolves is
    the identity of the handshake, and [OnAuth] has been called twice, in
    that order, the second time on the state the first call left. *)
Theorem unresolved_credential_falls_through :
  (∀ req (w : W) t ts pre s cred post id a a',
      query_token url (uri req) = Some (t :: ts) →
      headers req = pre ++ ("Authorization", String.append s cred) :: post →
      no_authorization pre → scheme s →
      OnAuth h t (app w) = (Ok (0%N, true), a) →
      OnAuth h cred a = (Ok (id, true), a') → id ≠ 0%N →
      Upgrade h url req w
      = (Ok (id, None),
         returned (returned w (CbOnAuth t) a) (CbOnAuth cred) a'))
  ∧ (∀ req (w : W) pre s1 c1 mid s2 c2 post id a a',
      query_token url (uri req) = None →
      headers req
      = pre ++ ("Authorization", String.append s1 c1)
            :: mid ++ ("Authorization", String.append s2 c2) :: post →
      no_authorization pre → no_authorization mid →
      scheme s1 → scheme s2 →
      OnAuth h c1 (app w) = (Ok (0%N, true), a) →
      OnAuth h c2 a = (Ok (id, true), a') → id ≠ 0%N →
      Upgrade h url req w
      = (Ok (id, None),
         returned (returned w (CbOnAuth c1) a) (CbOnAuth c2) a')).
Proof.
  assert (∀ (w : W) i s cred post id a',
            scheme s →
            OnAuth h cred (app w) = (Ok (id, true), a') → id ≠ 0%N →
            on_headers h (("Authorization", String.append s cred) :: post) i
              0%N w
            = (Ok (id, None), returned w (CbOnAuth cred) a')) as Hnext.
  { intros w i s cred post id a' Hs Ha Hid. simpl. unfold bind at 1.
    rewrite OnHeader_scheme by done. unfold bind at 1.
    rewrite (onAuthWrapper_returns _ _ _ _ _ Ha). simpl.
    by apply on_headers_resolved. }
  split.
  - intros req w t ts pre s cred post id a a' Hq Hh Hpre Hs Ha1 Ha2 Hid.
    rewrite (Upgrade_after_hooks h url req w
               (returned (returned w (CbOnAuth t) a) (CbOnAuth cred) a') id).
    + by rewrite bool_decide_eq_false_2.
    + rewrite (run_hooks_token _ _ _ _ _ _ Hq).
      rewrite (onAuthWrapper_returns _ _ _ _ _ Ha1).
      rewrite Hh, on_headers_skip by done. by apply Hnext.
  - intros req w pre s1 c1 mid s2 c2 post id a a' Hq Hh Hpre Hmid Hs1 Hs2
      Ha1 Ha2 Hid.
    rewrite (Upgrade_after_hooks h url req w
               (returned (returned w (CbOnAuth c1) a) (CbOnAuth c2) a') id).
    + by rewrite bool_decide_eq_false_2.
    + rewrite (run_hooks_header _ _ _ _ _ _ _ Hq Hh Hpre).
      unfold bind at 1. rewrite OnHeader_scheme by done.
      unfold bind at 1. rewrite (onAuthWrapper_returns _ _ _ _ _ Ha1). simpl.
      rewrite on_headers_skip by done. by apply Hnext.
Qed.

End CredentialFacts.

(** ** The registry, further *)

Section RegistryRoundTrip.
Context {App Net : Type}.
Variable tp : Transport Net.

Abbreviation W := (World App Net).

(** X13.  Registering and unregistering compose.  After the upsert the
    registry maps the identity to the connection and every other identity
    as before.  When the identity was free, the test and delete of the same
    connection give back the registry as it was.  The test and delete of
    any other connection change nothing, so a connection is unregistered by
    its own [handle] or not at all; they are idempotent.  An upsert of the
    connection that is registered already only stores it again: nothing is
    closed. *)
Theorem registering_and_unregistering_compose :
  ∀ id c (w : W),
    let w1 := exec (upsert tp id c) w in
    conns w1 !! id = Some c
    ∧ (∀ id', id' ≠ id → conns w1 !! id' = conns w !! id')
    ∧ (conns w !! id = None →
        conns (exec (remove_if_registered id c) w1) = conns w)
    ∧ (∀ c', c' ≠ c → remove_if_registered id c' w1 = (Ok false, w1))
    ∧ exec (remove_if_registered id c) (exec (remove_if_registered id c) w)
      = exec (remove_if_registered id c) w
    ∧ upsert tp id c w1
      = (Ok tt, Build_World (conns w1) (app w1) (net w1)
                  (trace w1 ++ [EvStore id c])).
Proof.
  intros id c w w1.
  assert (conns w1 = <[id:=c]> (conns w)) as Hc by apply upsert_conns.
  assert (conns w1 !! id = Some c) as Hl by by rewrite Hc, lookup_insert_eq.
  split_and!.
  - done.
  - intros id' Hne. by rewrite Hc, lookup_insert_ne.
  - intros Hf. unfold exec at 1.
    rewrite remove_if_registered_matched by done. simpl.
    rewrite Hc. by apply delete_insert_id.
  - intros c' Hne. apply remove_if_registered_superseded. congruence.
  - destruct (decide (conns w !! id = Some c)) as [E | E].
    + unfold exec. rewrite (remove_if_registered_matched _ _ _ E). simpl.
      rewrite remove_if_registered_superseded; [done |]. simpl.
      by rewrite lookup_delete_eq.
    + unfold exec. rewrite (remove_if_registered_superseded _ _ _ E). simpl.
      by rewrite (remove_if_registered_superseded _ _ _ E).
  - rewrite upsert_same by done. f_equal. f_equal.
    rewrite Hc. apply insert_insert_eq.
Qed.

End RegistryRoundTrip.

(** ** The controller of the overlay *)

Module mirror.
Import debugger.

Section ControllerFacts.
Context {A : Type}.
Variable appHandlers : Handlers A.

Abbreviation D := (Debugger A).

Lemma extHandlers_WriteMessage_spec (d : D) id msg :
  wiring d →
  extHandlers_WriteMessage appHandlers id msg d
  = (match (OnSend appHandlers id msg (app d)).1 with
     | Ok _ => Ok None
     | Fault r => Fault r
     end,
     Build_Debugger (cc d) (ws_cc d) (devices d) (debuggers d)
       (OnSend appHandlers id msg (app d)).2
       (effects d ++ forwarded (has (debuggers d) id) DebugServer id msg
          ++ forwarded (has (devices d) id) MainServer id msg
          ++ [App (CbOnSend id msg)])).
Proof.
  destruct d as [c1 c2 dv ds a0 t]. intros [Hcc Hws].
  simpl in Hcc, Hws. subst c1 c2.
  unfold extHandlers_WriteMessage, go_WriteMessage, forwarded, exec, result,
    bind, gets, modify, call, ret, record.
  simpl.
  destruct (has ds id) eqn:E1; simpl; destruct (has dv id) eqn:E2; simpl;
    destruct (OnSend appHandlers id msg a0) as [[v|r] a]; simpl;
    unfold set_app; simpl; rewrite <- ?app_assoc; done.
Qed.

(** X14.  [extHandlers.WriteMessage], the [WriteMessage] the application
    calls under the overlay, starts the forwards before it asks [OnSend]
    and returns [nil] whatever [OnSend] answers: a [WriteMessage] on the
    server of the observers when the identity has an observer attached, a
    [WriteMessage] on the server of the principals when it has a principal
    attached, then one call of the [OnSend] of the application, whose
    answer is dropped.  An [OnSend] that answers [false] stops nothing.  A
    panic of [OnSend] is not recovered here: it reaches the caller, after
    the forwards were started.  Nobody is attached or detached. *)
Theorem controller_forwards_whatever_OnSend_answers :
  ∀ (d : D) (id : uint) (msg : bytes),
    wiring d →
    let sent :=
      effects d ++ forwarded (has (debuggers d) id) DebugServer id msg
        ++ forwarded (has (devices d) id) MainServer id msg
        ++ [App (CbOnSend id msg)] in
    (∀ ok a,
        OnSend appHandlers id msg (app d) = (Ok ok, a) →
        extHandlers_WriteMessage appHandlers id msg d
        = (Ok None,
           Build_Debugger (cc d) (ws_cc d) (devices d) (debuggers d) a sent))
    ∧ (∀ r a,
        OnSend appHandlers id msg (app d) = (Fault r, a) →
        extHandlers_WriteMessage appHandlers id msg d
        = (Fault r,
           Build_Debugger (cc d) (ws_cc d) (devices d) (debuggers d) a sent)).
Proof.
  intros d id msg Hw sent. subst sent.
  rewrite extHandlers_WriteMessage_spec by done.
  split; intros ? a E; by rewrite E.
Qed.

(** X15.  [extHandlers.CloseConnection], the [CloseConnection] the
    application calls under the overlay, returns [nil] for every identity,
    attached or not: it never reports a missing connection.  It starts a
    [CloseConnection] on the server of each side that has the identity
    attached, the observers first, calls nothing of the application, and
    detaches nobody: the identity stays attached until the [OnOffline] of
    the server arrives. *)
Theorem controller_close_reaches_both_sides :
  ∀ (d : D) (id : uint),
    wiring d →
    extHandlers_CloseConnection id d
    = (Ok None,
       Build_Debugger (cc d) (ws_cc d) (devices d) (debuggers d) (app d)
         (effects d ++ closing (has (debuggers d) id) DebugServer id
            ++ closing (has (devices d) id) MainServer id)).
Proof.
  intros [c1 c2 dv ds a0 t] id [Hcc Hws]. simpl in Hcc, Hws. subst c1 c2.
  unfold extHandlers_CloseConnection, go_CloseConnection, closing, exec,
    result, bind, gets, modify, ret, record.
  simpl.
  destruct (has ds id) eqn:E1; simpl; destruct (has dv id) eqn:E2; simpl;
    rewrite <- ?app_assoc, ?app_nil_r; done.
Qed.

Lemma deliver_returns c (d : D) :
  returns appHandlers → wiring d →
  ∃ d', deliver appHandlers c d = (Ok tt, d').
Proof.
  intros Hret [Hcc Hws]. destruct d as [c1 c2 dv ds a0 t].
  simpl in Hcc, Hws. subst c1 c2.
  destruct (Hret a0) as (HA & HO & HT & HS & HF).
  destruct c as [id | id | id | id | token | id msg | id msg | token
                | id msg | id msg | id msg | id]; simpl;
    unfold Debugger_OnOnline, Debugger_OnOffline, extHandlers_OnOnline,
      extHandlers_OnOffline, Debugger_OnAuth, extHandlers_OnAuth,
      Debugger_OnText, extHandlers_OnText, Debugger_OnSend,
      extHandlers_OnSend, extHandlers_WriteMessage,
      extHandlers_CloseConnection, go_WriteMessage, go_CloseConnection,
      bind, gets, modify, call, ret, record; simpl;
    repeat (match goal with
            | |- context [has ?m ?i] => destruct (has m i)
            end; simpl);
    repeat match goal with
      | |- context [OnOnline appHandlers ?i a0] => destruct (HO i) as [? ->]
      | |- context [OnOffline appHandlers ?i a0] => destruct (HF i) as [? ->]
      | |- context [OnAuth appHandlers ?k a0] =>
          destruct (HA k) as (? & ? & ->)
      | |- context [OnText appHandlers ?i ?m a0] =>
          destruct (HT i m) as [? ->]
      | |- context [OnSend appHandlers ?i ?m a0] =>
          destruct (HS i m) as (? & ? & ->)
      end; simpl; by eexists.
Qed.

(** X16.  The overlay dereferences no controller that is not set.  In
    every state it reaches from its start, with both servers started, by
    callbacks of the two servers and calls of the application, every further
    callback and call returns unless a callback of the application itself
    panics: the [go] statements on [d.cc] and [d.ws.cc] always find their
    controller. *)
Theorem overlay_calls_return :
  returns appHandlers →
  ∀ (cs : list incoming) (a : A) (c : incoming),
    ∃ d', deliver appHandlers c (deliver_all appHandlers cs (wired a))
          = (Ok tt, d').
Proof.
  intros Hret cs a c. apply deliver_returns; [done |].
  by apply overlay.wiring_deliver_all.
Qed.

End ControllerFacts.

End mirror.

(** ** A server whose handlers are the overlay *)

Section ServerOverOverlay.
Context {A Net : Type}.
Variable appHandlers : Handlers A.
Variable tp : Transport Net.

Abbreviation WD := (World (debugger.Debugger A) Net).

(** X17.  Under the overlay no message is vetoed.  The [OnSend] of both
    decorators answers [true] without asking the application, so the
    [WriteMessage] of either server always goes on to the registry and
    writes the frame when the identity is registered, and the overlay is as
    it was.  The application's own [OnSend] is asked by
    [extHandlers.WriteMessage] only, after the forward was started: when
    the application sends to an attached principal, the [WriteMessage] the
    overlay has started on the server of the principals writes the text
    frame to the connection of the principal whatever [OnSend] answered. *)
Theorem overlay_never_vetoes :
  (∀ hs,
      hs = Debugger_Handlers appHandlers
      ∨ hs = extHandlers_Handlers appHandlers →
      ∀ id msg (w : WD) conn err n,
        conns w !! id = Some conn →
        WriteServerMessage tp conn OpText msg (net w) = (err, n) →
        WriteMessage hs tp id msg w
        = (Ok err,
           Build_World (conns w) (app w) n
             (trace w ++ [EvCall (CbOnSend id msg); EvWrite conn OpText msg]
                ++ write_log id err)))
  ∧ (∀ id msg (w : WD) conn err n,
      debugger.wiring (app w) →
      debugger.has (debugger.devices (app w)) id = true →
      conns w !! id = Some conn →
      WriteServerMessage tp conn OpText msg (net w) = (err, n) →
      let w1 :=
        exec (on_app (debugger.extHandlers_WriteMessage appHandlers id msg))
          w in
      debugger.GoWriteMessage debugger.MainServer id msg
        ∈ debugger.effects (app w1)
      ∧ last (debugger.effects (app w1))
        = Some (debugger.App (CbOnSend id msg))
      ∧ WriteMessage (extHandlers_Handlers appHandlers) tp id msg w1
        = (Ok err,
           Build_World (conns w) (app w1) n
             (trace w ++ [EvCall (CbOnSend id msg); EvWrite conn OpText msg]
                ++ write_log id err))).
Proof.
  split.
  - intros hs Hhs id msg w conn err n Hc Hw.
    apply WriteMessage_sent; [| done | done]. by destruct Hhs as [-> | ->].
  - intros id msg w conn err n Hwi Hd Hc Hw w1.
    pose proof (mirror.extHandlers_WriteMessage_spec appHandlers (app w) id
                  msg Hwi) as E.
    assert (conns w1 = conns w ∧ net w1 = net w ∧ trace w1 = trace w
            ∧ debugger.effects (app w1)
              = debugger.effects (app w)
                  ++ debugger.forwarded
                       (debugger.has (debugger.debuggers (app w)) id)
                       debugger.DebugServer id msg
                  ++ [debugger.GoWriteMessage debugger.MainServer id msg]
                  ++ [debugger.App (CbOnSend id msg)])
      as (H1 & H2 & H3 & H4).
    { subst w1. unfold exec, on_app. rewrite E. simpl. by rewrite Hd. }
    split_and!.
    + rewrite H4, !elem_of_app. right. right. left. apply list_elem_of_here.
    + rewrite H4, !last_app. reflexivity.
    + rewrite <- H1, <- H3. apply WriteMessage_sent; [done | |].
      * by rewrite H1.
      * by rewrite H2.
Qed.

End ServerOverOverlay.

Section TransparentFacts.
Context {A Net : Type}.
Variable appHandlers : Handlers A.
Variable url : UrlPkg.
Variable hs : Handlers (debugger.Debugger A).
Hypothesis hs_OnAuth :
  ∀ token d,
    OnAuth hs token d
    = debugger.call (CbOnAuth token) (OnAuth appHandlers token) d.

Abbreviation WD := (World (debugger.Debugger A) Net).

Lemma transparent_ret {R} (r : R) : @transparent A Net R (ret r) (ret r).
Proof. by intros w. Qed.

Lemma transparent_panic {R} r : @transparent A Net R (panic r) (panic r).
Proof. by intros w. Qed.

Lemma transparent_bind {R S} (m1 : M WD R) m2 (k1 : R → M WD S) k2 :
  transparent m1 m2 → (∀ r, transparent (k1 r) (k2 r)) →
  transparent (bind m1 k1) (bind m2 k2).
Proof.
  intros H K w. destruct (H w) as (Hr & Hd & F1 & F2 & F3 & F4).
  unfold result, exec, bind in *.
  destruct (m1 w) as [[a|r] w1]; destruct (m2 (direct w)) as [[a'|r'] w2];
    simpl in *; try discriminate;
    [| injection Hr as <-; by split_and!].
  injection Hr as <-. subst w2.
  destruct (K a w1) as (Kr & Kd & G1 & G2 & G3 & G4).
  unfold result, exec in *. split_and!; congruence.
Qed.

Lemma transparent_index_or_panic {R} (l : list R) i :
  @transparent A Net R (index_or_panic l i) (index_or_panic l i).
Proof.
  unfold index_or_panic. destruct (l !! i);
    [apply transparent_ret | apply transparent_panic].
Qed.

Lemma transparent_onAuthWrapper token :
  @transparent A Net _ (onAuthWrapper hs token)
    (onAuthWrapper appHandlers token).
Proof.
  intros w. unfold result, exec.
  destruct (OnAuth appHandlers token (debugger.app (app w))) as [[v|r] a]
    eqn:E.
  - rewrite (onAuthWrapper_returns appHandlers token (direct w) v a E).
    erewrite (onAuthWrapper_returns hs token w v);
      [| rewrite hs_OnAuth; unfold debugger.call; simpl; by rewrite E].
    done.
  - rewrite (onAuthWrapper_recovers appHandlers token (direct w) r a E).
    erewrite (onAuthWrapper_recovers hs token w r);
      [| rewrite hs_OnAuth; unfold debugger.call; simpl; by rewrite E].
    done.
Qed.

Lemma transparent_asked (m1 : M WD (uint * bool)) m2 :
  transparent m1 m2 →
  transparent
    (res <- m1;;
     if negb (snd res) then ret (fst res, Some ErrAuthFailed)
     else ret (fst res, None))
    (res <- m2;;
     if negb (snd res) then ret (fst res, Some ErrAuthFailed)
     else ret (fst res, None)).
Proof.
  intros Hm. apply transparent_bind; [done |]. intros res.
  destruct (negb (snd res)); apply transparent_ret.
Qed.

Lemma transparent_OnRequest u id :
  @transparent A Net _ (OnRequest hs url u id) (OnRequest appHandlers url u id).
Proof.
  unfold OnRequest. destruct (Parse url u) as [p|]; [| apply transparent_ret].
  case_bool_decide; [| apply transparent_ret].
  destruct (ParseQuery url (RawQuery p)) as [m|]; [| apply transparent_ret].
  destruct (m !! AuthTokenKey) as [token|]; [| apply transparent_ret].
  apply transparent_bind; [apply transparent_index_or_panic |]. intros t0.
  apply transparent_asked, transparent_onAuthWrapper.
Qed.

Lemma transparent_OnHeader key value id :
  @transparent A Net _ (OnHeader hs key value id)
    (OnHeader appHandlers key value id).
Proof.
  unfold OnHeader.
  destruct (bool_decide (id = 0%N) && bool_decide (key = "Authorization"));
    [| apply transparent_ret].
  destruct (HasPrefix value "Bearer " || HasPrefix value "Basic ");
    [| apply transparent_ret].
  apply transparent_bind; [apply transparent_index_or_panic |]. intros cred.
  apply transparent_asked, transparent_onAuthWrapper.
Qed.

Lemma transparent_on_headers hds i id :
  @transparent A Net _ (on_headers hs hds i id)
    (on_headers appHandlers hds i id).
Proof.
  revert i id. induction hds as [|[key value] hds IH]; intros i id;
    [apply transparent_ret |].
  simpl. apply transparent_bind; [apply transparent_OnHeader |]. intros r.
  destruct (snd r); [apply transparent_ret | apply IH].
Qed.

Lemma transparent_Upgrade req :
  @transparent A Net _ (Upgrade hs url req) (Upgrade appHandlers url req).
Proof.
  apply transparent_bind.
  - apply transparent_bind; [apply transparent_OnRequest |]. intros r.
    destruct (snd r); [apply transparent_ret | apply transparent_on_headers].
  - intros r. destruct (snd r); [apply transparent_ret |].
    destruct (OnBeforeUpgrade (fst r)); apply transparent_ret.
Qed.

End TransparentFacts.

Section HandshakeOverOverlay.
Context {A Net : Type}.
Variable appHandlers : Handlers A.
Variable url : UrlPkg.

(** X18.  The overlay is transparent to the handshake.  On either server of
    the overlay (the server of the observers, whose handlers are the
    [Debugger], and the server of the principals, whose handlers are the
    [extHandlers]) a handshake returns the identity or the error it would
    return on a server that has the application's handlers themselves, it
    asks the [OnAuth] of the application for the same credentials in the
    same order, and it leaves the registry, the network and the trace as
    that handshake would; it attaches and detaches nobody.  Observers and
    principals are therefore authenticated alike, and an observer gets the
    identity of the principal that presents the same credential. *)
Theorem overlay_is_transparent_to_the_handshake :
  ∀ req,
    @transparent A Net _
      (Upgrade (Debugger_Handlers appHandlers) url req)
      (Upgrade appHandlers url req)
    ∧ @transparent A Net _
        (Upgrade (extHandlers_Handlers appHandlers) url req)
        (Upgrade appHandlers url req).
Proof. intros req. split; by apply transparent_Upgrade. Qed.

End HandshakeOverOverlay.

(** ** The order of the steps of [handle], further *)

Section HandleOrder.
Context {App Net : Type}.
Variable h : Handlers App.
Variable tp : Transport Net.
Variable url : UrlPkg.
Variable conn : Conn.

Abbreviation W := (World App Net).
Abbreviation step' := (step h tp url conn).
Abbreviation run' := (run h tp url conn).

Lemma step_rank s l s' :
  step' s l s' →
  match fires_at l with
  | Some n => n = rank (s_pc s) ∧ (n < rank (s_pc s'))%nat
  | None => (rank (s_pc s) ≤ rank (s_pc s'))%nat
  end.
Proof.
  intros Hstep.
  destruct Hstep as
    [ req wg g w w' id Hu
    | req wg g w w' w'' id st err Hu Hlog
    | id wg g w w' Hu
    | id wg wg' g w w' Hu
    | id lp sel n wg g w w' Hu
    | id b wg g w w' Hu
    | id wg g w w' Hu
    | id wg g w Hwg
    | id wg g w w' Hu
    | wg g w w' err Hu
    | id p wg wg' w w' Hu
    | p wg g w w' ]; simpl; try lia.
  - destruct n; simpl; lia.
  - destruct b; simpl; lia.
Qed.

(** The steps made so far are steps of statements before the one [handle]
    is at, and [handle] has returned exactly when it has closed. *)
Lemma run_rank req (w : W) ls s :
  run' (handle_start req w) ls s →
  (∀ l n, l ∈ ls → fires_at l = Some n → (n < rank (s_pc s))%nat)
  ∧ (∀ l1 a l2 b, ls = l1 ++ a :: l2 → b ∈ l2 → in_order a b)
  ∧ (s_pc s = PReturned ↔ LClose ∈ ls)
  ∧ (LOnlineDone ∈ ls → s_online s = Finished)
  ∧ (∀ l1 l2, ls = l1 ++ LOnlineDone :: l2 → LOnlineDone ∉ l2).
Proof.
  intros Hr. remember (handle_start req w) as s0 eqn:E.
  induction Hr as [s0 | s0 ls s1 l s2 Hr IH Hs].
  - split_and!.
    + intros l n H. by apply not_elem_of_nil in H.
    + intros [|? ?] a l2 b H; discriminate H.
    + subst. simpl. split; [done |]. intros H. by apply not_elem_of_nil in H.
    + intros H. by apply not_elem_of_nil in H.
    + intros [|? ?] l2 H; discriminate H.
  - destruct (IH E) as (I1 & I2 & I3 & I4 & I5).
    pose proof (step_rank _ _ _ Hs) as Hk.
    pose proof (run_inv h tp url conn req w ls s1) as Hinv.
    subst s0. destruct (Hinv Hr) as [[_ Hb] _].
    assert (rank (s_pc s1) ≤ rank (s_pc s2))%nat as Hle.
    { destruct (fires_at l); lia. }
    split_and!.
    + intros x n Hx Hn. apply elem_of_snoc in Hx as [Hx | ->].
      * specialize (I1 x n Hx Hn). lia.
      * rewrite Hn in Hk. lia.
    + intros l1 a l2 b Heq Hb2.
      destruct (decide (l2 = [])) as [-> | Hnil];
        [by apply not_elem_of_nil in Hb2 |].
      destruct (exists_last Hnil) as (l2' & x & ->).
      rewrite app_comm_cons, app_assoc in Heq.
      apply app_inj_tail in Heq as [-> ->].
      apply elem_of_app in Hb2 as [Hb2 | Hb2]; [by eapply I2 |].
      apply list_elem_of_singleton in Hb2 as ->.
      unfold in_order. destruct (fires_at a) as [n|] eqn:Ha; [| done].
      destruct (fires_at x) as [m|] eqn:Hl; [| done].
      assert (a ∈ l1 ++ a :: l2') as Hin.
      { apply elem_of_app. right. apply list_elem_of_here. }
      specialize (I1 a n Hin Ha). lia.
    + rewrite elem_of_snoc. clear Hk Hle Hinv Hb I1 I2 I4 I5 IH Hr.
      destruct Hs as
        [ req' wg g w1 w' id Hu
        | req' wg g w1 w' w'' id st err Hu Hlog
        | id wg g w1 w' Hu
        | id wg wg' g w1 w' Hu
        | id lp sel n wg g w1 w' Hu
        | id b wg g w1 w' Hu
        | id wg g w1 w' Hu
        | id wg g w1 Hwg
        | id wg g w1 w' Hu
        | wg g w1 w' err Hu
        | id p wg wg' w1 w' Hu
        | p wg g w1 w' ]; simpl in *;
        try (split; [done | intros [H | H]; [by apply I3 in H | done]]).
      * split; [by destruct n |].
        intros [H | H]; [by apply I3 in H | done].
      * split; [by destruct b |].
        intros [H | H]; [by apply I3 in H | done].
      * split; [by right | done].
      * split; [intros H; left; by apply I3 |].
        intros [H | H]; [by apply I3 | done].
      * split; [intros H; left; by apply I3 |].
        intros [H | H]; [by apply I3 | done].
    + rewrite elem_of_snoc. intros [Hin | <-].
      * specialize (I4 Hin). inversion Hs; subst; simpl in *; try done.
        by rewrite Hb in I4.
      * by inversion Hs.
    + intros l1 l2 Heq.
      destruct (decide (l2 = [])) as [-> | Hnil]; [apply not_elem_of_nil |].
      destruct (exists_last Hnil) as (l2' & x & ->).
      rewrite app_comm_cons, app_assoc in Heq.
      apply app_inj_tail in Heq as [-> ->].
      rewrite elem_of_snoc. intros [Hin | <-]; [by eapply I5 |].
      assert (LOnlineDone ∈ l1 ++ LOnlineDone :: l2') as Hin.
      { apply elem_of_app. right. apply list_elem_of_here. }
      specialize (I4 Hin). inversion Hs; subst; simpl in *. done.
Qed.

(** X19.  In every run of [handle], under every interleaving: the steps of
    its statements are made in the order of the source, and each at most
    once: one upgrade, one upsert, one start of [onOnlineWrapper], one test
    of line 218, one delete, one wait, one start of [onOfflineWrapper], one
    close; only the iterations of the loop repeat.  The [onOnlineWrapper]
    goroutine runs to its end at most once.  [handle] has returned exactly
    when its deferred close was made: it closes its connection once,
    however it got to its end. *)
Theorem handle_steps_happen_once_and_in_order :
  ∀ req (w : W) ls s,
    run' (handle_start req w) ls s →
    (∀ l1 a l2 b, ls = l1 ++ a :: l2 → b ∈ l2 → in_order a b)
    ∧ (∀ l1 a l2,
        ls = l1 ++ a :: l2 → is_Some (fires_at a) → (a ∉ l1) ∧ (a ∉ l2))
    ∧ (∀ l1 l2,
        ls = l1 ++ LOnlineDone :: l2 →
        (LOnlineDone ∉ l1) ∧ (LOnlineDone ∉ l2))
    ∧ (s_pc s = PReturned ↔ LClose ∈ ls).
Proof.
  intros req w ls s Hr.
  destruct (run_rank _ _ _ _ Hr) as (_ & I2 & I3 & _ & I5).
  assert (∀ a n, fires_at a = Some n → ¬ in_order a a) as Hirr.
  { intros a n Ha. unfold in_order. rewrite Ha. lia. }
  split_and!; try done.
  - intros l1 a l2 Heq [n Ha]. split.
    + intros (l1' & l1'' & ->)%list_elem_of_split.
      rewrite <- app_assoc in Heq. simpl in Heq.
      apply (Hirr a n Ha). apply (I2 _ _ _ _ Heq).
      apply elem_of_app. right. apply list_elem_of_here.
    + intros Hin. apply (Hirr a n Ha). by apply (I2 _ _ _ _ Heq).
  - intros l1 l2 Heq. split; [| by eapply I5].
    intros (l1' & l1'' & ->)%list_elem_of_split.
    rewrite <- app_assoc in Heq. simpl in Heq.
    apply (I5 _ _ Heq). apply elem_of_app. right. apply list_elem_of_here.
Qed.

End HandleOrder.


(** ** The further properties at the instances *)

(** X3 after thirty seconds of silence, and after a pong. *)
Lemma loop_waits_with_the_timer_armed_witness :
  result (ReadLoop TNet 1%N 10 loop_init [FromTimer]) one_client
  = Ok (Continue awaiting_pong)
  ∧ awaiting_pong = {| afterPing := true; to := Armed TimeoutClose |}
  ∧ result (ReadLoop TNet 1%N 10 loop_init [FromChMsg eof]) one_client
    = Ok (BreakReadLoop {| afterPing := false; to := Stopped |})
  ∧ (to {| afterPing := false; to := Stopped |} = Stopped
     ∨ (to {| afterPing := false; to := Stopped |} = Expired
        ∧ afterPing {| afterPing := false; to := Stopped |} = true)).
Proof.
  destruct (loop_waits_with_the_timer_armed (App := list string) TNet 1%N 10
              [FromTimer] one_client) as (_ & H2 & _).
  destruct (loop_waits_with_the_timer_armed (App := list string) TNet 1%N 10
              [FromChMsg eof] one_client) as (_ & _ & H3).
  split_and!.
  - reflexivity.
  - by apply H2.
  - reflexivity.
  - by apply H3.
Defined.

(** X5 on a loop that is pinged, answers, and sends a text. *)
Lemma loop_leaves_registry_and_application_alone_witness :
  conns (exec (ReadLoop TNet 1%N 10 loop_init
                 [FromTimer;
                  FromChMsg (readMessage (inl OpPong) None ([], None));
                  FromChMsg (readMessage (inl OpText) None ([x68], None))])
           one_client)
  = conns one_client
  ∧ app (exec (ReadLoop TNet 1%N 10 loop_init
                 [FromTimer;
                  FromChMsg (readMessage (inl OpPong) None ([], None));
                  FromChMsg (readMessage (inl OpText) None ([x68], None))])
           one_client)
    = app one_client.
Proof.
  destruct (loop_leaves_registry_and_application_alone
              (App := list string) TNet 1%N 10 loop_init
              [FromTimer;
               FromChMsg (readMessage (inl OpPong) None ([], None));
               FromChMsg (readMessage (inl OpText) None ([x68], None))]
              one_client) as (H1 & H2 & _).
  by split.
Defined.

(** A [handle] that has got to its loop. *)
Lemma in_the_loop_runs :
  ∃ s, run THandlers TNet TUrl 10 (handle_start with_token TWorld)
         in_the_loop s
       ∧ s = Build_session (PLoop 1%N loop_init) 1%Z (Ready 1%N)
               (s_world s)
       ∧ conns (s_world s) !! 1%N = Some 10.
Proof.
  eexists. split.
  - unfold in_the_loop, handle_start.
    take step_upgrade.
    take step_upsert.
    take step_start_online.
    apply run_nil.
  - split; reflexivity.
Defined.

(** X7 at that run. *)
Lemma handle_works_with_a_resolved_identity_witness :
  ∃ s, run THandlers TNet TUrl 10 (handle_start with_token TWorld)
         in_the_loop s
       ∧ identity (s_pc s) = Some 1%N ∧ 1%N ≠ 0%N.
Proof.
  destruct in_the_loop_runs as (s & Hr & Hs & Hc).
  exists s. split; [exact Hr |].
  assert (identity (s_pc s) = Some 1%N) as Hi by by rewrite Hs.
  split; [exact Hi |].
  destruct (handle_works_with_a_resolved_identity THandlers TNet TUrl 10
              with_token TWorld in_the_loop s Hr) as (H & _).
  exact (H 1%N Hi).
Defined.

(** X8 at that run: the goroutine is started and has not run, the counter
    is [1], and [handle] can run to its end. *)
Lemma wait_group_never_blocks_handle_witness :
  ∃ s, run THandlers TNet TUrl 10 (handle_start with_token TWorld)
         in_the_loop s
       ∧ s_wg s = 1%Z
       ∧ (∃ ls' s', run THandlers TNet TUrl 10 s ls' s'
                    ∧ s_pc s' = PReturned ∧ (LEnv ∉ ls')).
Proof.
  destruct in_the_loop_runs as (s & Hr & Hs & Hc).
  exists s. split; [exact Hr |].
  destruct (wait_group_never_blocks_handle THandlers TNet TUrl 10
              with_token TWorld in_the_loop s Hr) as (H1 & _ & _ & H4).
  split.
  - apply H1. exists 1%N. by rewrite Hs.
  - apply H4. intros r. by rewrite Hs.
Defined.

(** X9 at the request without credential. *)
Lemma refused_handshake_only_logs_and_closes_witness :
  run THandlers TNet TUrl 10 (handle_start without_auth TWorld)
    [LUpgrade; LClose]
    (Build_session PReturned 0%Z NotStarted
       (Build_World (conns TWorld) (app TWorld) [10]
          (trace TWorld
             ++ [EvPrintf "%s: upgrade error: %v" [AConn 10; AErr ErrNotAuth];
                 EvClose 10]))).
Proof.
  by apply (refused_handshake_only_logs_and_closes THandlers TNet TUrl 10
              without_auth TWorld TWorld 0%N AtBeforeUpgrade ErrNotAuth None
              [10]).
Defined.

(** X10 at the server with one client, when connection [11] registers as
    identity [1] between the test and the delete of the [handle] of
    connection [10]. *)
Lemma stale_test_unregisters_the_successor_witness :
  conns (exec (upsert TNet 1%N 11) one_client) !! 1%N = Some 11
  ∧ exec (remove 1%N) (exec (upsert TNet 1%N 11) one_client)
    = Build_World (delete 1%N (<[1%N:=11]> (conns one_client)))
        (app one_client) [10]
        (trace one_client ++ (EvClose 10 :: close_log None)
           ++ [EvStore 1%N 11; EvDelete 1%N])
  ∧ conns (exec (remove 1%N) (exec (upsert TNet 1%N 11) one_client)) !! 1%N
    = None.
Proof.
  destruct (stale_test_unregisters_the_successor THandlers TNet TUrl 10
              1%N 11 0%Z Finished one_client None [10])
    as (_ & H2 & H3 & H4 & _); [done | reflexivity | reflexivity |].
  by split_and!.
Defined.

(** X11 at handlers whose [OnAuth] refuses: the token is refused although a
    header follows, and so is the header of a request without token. *)
Lemma refused_credential_is_final_witness :
  Upgrade Refusing TUrl with_both TWorld
  = (Ok (5%N, Some (AtRequest, ErrAuthFailed)),
     returned TWorld (CbOnAuth "123456") ["OnAuth"])
  ∧ Upgrade Refusing TUrl with_header TWorld
    = (Ok (5%N, Some (AtHeader 1, ErrAuthFailed)),
       returned TWorld (CbOnAuth "123456") ["OnAuth"]).
Proof.
  destruct (refused_credential_is_final (Net := list Conn) Refusing TUrl)
    as (H1 & H2).
  split.
  - by apply (H1 with_both TWorld "123456" []).
  - apply (H2 with_header TWorld [("Origin", "http://localhost:6008")]
             "Bearer " "123456" []);
      [reflexivity | reflexivity | apply no_authorization_origin
      | by left | reflexivity].
Defined.

(** X12 at handlers whose [OnAuth] resolves the credential [abc] only. *)
Lemma unresolved_credential_falls_through_witness :
  Upgrade Selective TUrl with_both TWorld
  = (Ok (3%N, None),
     returned (returned TWorld (CbOnAuth "123456") ["OnAuth"])
       (CbOnAuth "abc") ["OnAuth"; "OnAuth"])
  ∧ Upgrade Selective TUrl with_two_headers TWorld
    = (Ok (3%N, None),
       returned (returned TWorld (CbOnAuth "123456") ["OnAuth"])
         (CbOnAuth "abc") ["OnAuth"; "OnAuth"]).
Proof.
  destruct (unresolved_credential_falls_through
              (Net := list Conn) Selective TUrl) as (H1 & H2).
  split.
  - apply (H1 with_both TWorld "123456" []
             [("Origin", "http://localhost:6008")] "Basic " "abc" []);
      [reflexivity | reflexivity | apply no_authorization_origin
      | by right | reflexivity | reflexivity | done].
  - apply (H2 with_two_headers TWorld [] "Bearer " "123456"
             [("Origin", "http://localhost:6008")] "Basic " "abc" []);
      [reflexivity | reflexivity | constructor | apply no_authorization_origin
      | by left | by right | reflexivity | reflexivity | done].
Defined.

(** X13 at the server of the tests: connection [10] registers as identity
    [1] and its [handle] ends. *)
Lemma registering_and_unregistering_compose_witness :
  conns (exec (remove_if_registered 1%N 10) one_client) = conns TWorld
  ∧ remove_if_registered 1%N 11 one_client = (Ok false, one_client).
Proof.
  destruct (registering_and_unregistering_compose
              (App := list string) TNet 1%N 10 TWorld)
    as (_ & _ & H3 & H4 & _).
  split.
  - by apply H3.
  - by apply H4.
Defined.

(** X14 at the paired state, with an application whose [OnSend] answers
    [false]: both forwards are started all the same. *)
Lemma controller_forwards_whatever_OnSend_answers_witness :
  OnSend Anonymous 7%N [x68; x69] (debugger.app paired)
  = (Ok false, ["OnOnline"; "OnSend"])
  ∧ debugger.extHandlers_WriteMessage Anonymous 7%N [x68; x69] paired
    = (Ok None,
       debugger.Build_Debugger (Some debugger.DebugServer)
         (Some debugger.MainServer) (debugger.devices paired)
         (debugger.debuggers paired) ["OnOnline"; "OnSend"]
         [debugger.App (CbOnOnline 7%N);
          debugger.GoWriteMessage debugger.DebugServer 7%N [x68; x69];
          debugger.GoWriteMessage debugger.MainServer 7%N [x68; x69];
          debugger.App (CbOnSend 7%N [x68; x69])]).
Proof.
  split; [reflexivity |].
  destruct (mirror.controller_forwards_whatever_OnSend_answers Anonymous
              paired 7%N [x68; x69]) as (H & _); [by split |].
  by apply (H false ["OnOnline"; "OnSend"]).
Defined.

(** X15 at the paired state, and for an identity nobody has attached. *)
Lemma controller_close_reaches_both_sides_witness :
  debugger.extHandlers_CloseConnection 7%N paired
  = (Ok None,
     debugger.Build_Debugger (Some debugger.DebugServer)
       (Some debugger.MainServer) (debugger.devices paired)
       (debugger.debuggers paired) ["OnOnline"]
       [debugger.App (CbOnOnline 7%N);
        debugger.GoCloseConnection debugger.DebugServer 7%N;
        debugger.GoCloseConnection debugger.MainServer 7%N])
  ∧ debugger.extHandlers_CloseConnection 8%N paired
    = (Ok None,
       debugger.Build_Debugger (Some debugger.DebugServer)
         (Some debugger.MainServer) (debugger.devices paired)
         (debugger.debuggers paired) ["OnOnline"]
         [debugger.App (CbOnOnline 7%N)]).
Proof.
  split.
  - by rewrite (mirror.controller_close_reaches_both_sides paired 7%N).
  - by rewrite (mirror.controller_close_reaches_both_sides paired 8%N).
Defined.

Lemma THandlers_returns : returns THandlers.
Proof. intros a. split_and!; intros; simpl; by repeat eexists. Defined.

(** X16 at the handlers of the tests: a text of the observer in the paired
    state. *)
Lemma overlay_calls_return_witness :
  ∃ d', debugger.deliver THandlers (debugger.ObserverText 7%N [x68; x69])
          paired
        = (Ok tt, d').
Proof.
  exact (mirror.overlay_calls_return THandlers THandlers_returns
           [debugger.PrincipalOnline 7%N; debugger.ObserverOnline 7%N] []
           (debugger.ObserverText 7%N [x68; x69])).
Defined.

(** X17 at the server of the principals with an application whose [OnSend]
    answers [false]: the frame is written to connection [10]. *)
Lemma overlay_never_vetoes_witness :
  OnSend Anonymous 7%N [x68; x69] (debugger.app (app overlaid))
  = (Ok false, ["OnOnline"; "OnSend"])
  ∧ trace (exec (WriteMessage (extHandlers_Handlers Anonymous) TNet 7%N
                   [x68; x69])
             (exec (on_app (debugger.extHandlers_WriteMessage Anonymous 7%N
                              [x68; x69]))
                overlaid))
    = trace overlaid
        ++ [EvCall (CbOnSend 7%N [x68; x69]); EvWrite 10 OpText [x68; x69]].
Proof.
  split; [reflexivity |].
  destruct (overlay_never_vetoes Anonymous TNet) as (_ & H).
  destruct (H 7%N [x68; x69] overlaid 10 None [])
    as (_ & _ & E); [by split | reflexivity | reflexivity | reflexivity |].
  unfold exec at 1. by rewrite E.
Defined.

(** X18 at the handlers of the tests: the handshake with the token on the
    server of the principals. *)
Lemma overlay_is_transparent_to_the_handshake_witness :
  result (Upgrade (extHandlers_Handlers THandlers) TUrl with_token)
    overlay_server
  = Ok (1%N, None)
  ∧ result (Upgrade (Debugger_Handlers THandlers) TUrl with_token)
      overlay_server
    = Ok (1%N, None).
Proof.
  destruct (overlay_is_transparent_to_the_handshake
              (Net := list Conn) THandlers TUrl with_token) as (HD & HE).
  destruct (HD overlay_server) as (H1 & _).
  destruct (HE overlay_server) as (H2 & _).
  split.
  - by rewrite H2.
  - by rewrite H1.
Defined.

(** X19 at the run of a peer that disconnects right after the handshake. *)
Lemma handle_steps_happen_once_and_in_order_witness :
  ∃ s, run THandlers TNet TUrl 10 (handle_start with_token TWorld)
         immediate_disconnect s
       ∧ s_pc s = PReturned ∧ LClose ∈ immediate_disconnect.
Proof.
  destruct immediate_disconnect_runs as (s & Hr & Hp & _).
  exists s. split; [exact Hr |]. split; [exact Hp |].
  destruct (handle_steps_happen_once_and_in_order THandlers TNet TUrl 10
              with_token TWorld immediate_disconnect s Hr) as (_ & _ & _ & H).
  by apply H.
Defined.
